(** * Sequence smoothing and scene consistency checks

  A shallow embedding of the per-scene smoothers of
  [processing/preprocess_normalize.py] and of the checks of
  [processing/semantic_scene_consistency.py], with the properties the
  specification states about them. *)

From Stdlib Require Import ZArith QArith Floats DecimalString Lia.
From stdpp Require Import base option list gmap strings.

Close Scope Q_scope.
Local Open Scope Z_scope.

(** ** Cells of a sequence

  The smoothers take a [List[Any]] and only ever compare cells with
  Python's [==] / [!=] and, for the curvature column, test them with
  [pd.isna].  The two operations are the interface of a cell type. *)

Class PyCell (A : Type) := {
  py_eqb : A → A → bool;
  isna : A → bool;
}.

(** Python's [==] on the cells of a table column (strings, numbers,
    [None], the float NaN) is symmetric and transitive; it is not
    reflexive, since [NaN == NaN] is false.  Equal cells are missing
    together. *)
Class PyCellLaws (A : Type) `{PyCell A} : Prop := {
  py_eqb_sym : ∀ x y : A, py_eqb x y = py_eqb y x;
  py_eqb_trans : ∀ x y z : A, py_eqb x y = true → py_eqb y z = true → py_eqb x z = true;
  isna_proper : ∀ x y : A, py_eqb x y = true → isna x = isna y;
}.

Section Smoothers.
Context {A : Type} `{PyCell A}.

(** [x != y] *)
Definition py_neb (x y : A) : bool := negb (py_eqb x y).

(** The inner loop shared by the three smoothers,
    [count = 1; while (i + count) < n and corrected[i + count] == curr: count += 1],
    as the number of cells equal to [curr] in front of [rest], where
    [rest] holds the cells from position [i + 1] on. *)
Fixpoint run_after (curr : A) (rest : list A) : nat :=
  match rest with
  | x :: rest' => if py_eqb x curr then S (run_after curr rest') else 0%nat
  | [] => 0%nat
  end.

Definition block_count (corrected : list A) (i : nat) (curr : A) : nat :=
  S (run_after curr (drop (S i) corrected)).

(** [for j in range(i, i + count): corrected[j] = prev_val] *)
Definition overwrite (corrected : list A) (i count : nat) (prev_val : A) : list A :=
  list_inserts i (replicate count prev_val) corrected.

(** [correct_yes_no_sequence]: the outer [while i < n] loop.  Each
    iteration advances [i] by [count ≥ 1], so [fuel] iterations suffice
    when [fuel + i ≥ n]. *)
Fixpoint yes_no_loop (fuel : nat) (min_consecutive : Z)
    (corrected : list A) (i : nat) : list A :=
  match fuel with
  | O => corrected
  | S fuel' =>
    match corrected !! i with
    | None => corrected
    | Some curr =>
      let count := block_count corrected i curr in
      if (Z.of_nat count <? min_consecutive)%Z then
        match corrected !! (i - 1)%nat with
        | Some prev_val =>
          if py_neb curr prev_val then
            yes_no_loop fuel' min_consecutive
              (overwrite corrected i count prev_val) (i + count)
          else yes_no_loop fuel' min_consecutive corrected (i + count)
        | None => corrected
        end
      else yes_no_loop fuel' min_consecutive corrected (i + count)
    end
  end.

Definition correct_yes_no_sequence (sequence : list A) (min_consecutive : Z) : list A :=
  yes_no_loop (length sequence) min_consecutive sequence 1.

(** [corrected[i - 1] if i > 0 else curr] *)
Definition prev_of (corrected : list A) (i : nat) (curr : A) : A :=
  match i with
  | O => curr
  | S i' => default curr (corrected !! i')
  end.

(** [corrected[i + count] if (i + count) < n else curr] *)
Definition next_of (corrected : list A) (i count : nat) (curr : A) : A :=
  default curr (corrected !! (i + count)%nat).

(** [correct_number_of_lanes] *)
Fixpoint lanes_loop (fuel : nat) (min_consecutive : Z)
    (corrected : list A) (i : nat) : list A :=
  match fuel with
  | O => corrected
  | S fuel' =>
    match corrected !! i with
    | None => corrected
    | Some curr =>
      let count := block_count corrected i curr in
      let prev_val := prev_of corrected i curr in
      let next_val := next_of corrected i count curr in
      let corrected' :=
        if py_neb curr prev_val && py_neb curr next_val
           && (Z.of_nat count <? min_consecutive)%Z
        then overwrite corrected i count prev_val
        else corrected in
      lanes_loop fuel' min_consecutive corrected' (i + count)
    end
  end.

Definition correct_number_of_lanes (sequence : list A) (min_consecutive : Z) : list A :=
  lanes_loop (length sequence) min_consecutive sequence 0.

(** [correct_horizontal_plane] *)
Fixpoint plane_loop (fuel : nat) (min_consecutive : Z)
    (corrected : list A) (i : nat) : list A :=
  match fuel with
  | O => corrected
  | S fuel' =>
    match corrected !! i with
    | None => corrected
    | Some curr =>
      if isna curr then plane_loop fuel' min_consecutive corrected (i + 1)
      else
        let count := block_count corrected i curr in
        let prev_val := prev_of corrected i curr in
        let next_val := next_of corrected i count curr in
        let prev_val := if isna prev_val then curr else prev_val in
        let next_val := if isna next_val then curr else next_val in
        let corrected' :=
          if py_neb curr prev_val && py_neb curr next_val
             && (Z.of_nat count <? min_consecutive)%Z
          then overwrite corrected i count prev_val
          else corrected in
        plane_loop fuel' min_consecutive corrected' (i + count)
    end
  end.

Definition correct_horizontal_plane (sequence : list A) (min_consecutive : Z) : list A :=
  plane_loop (length sequence) min_consecutive sequence 0.

End Smoothers.

(** ** The scan in functional form

  All three loops visit the sequence block by block, and a block is
  judged from three things only: the block itself, the (already
  corrected) cell in front of it, and the cell behind it.  [scan] is
  that traversal on the part of the list not yet visited, [p] being the
  cell in front ([None] at the start of the sequence).  [na] tells which
  cells are skipped and replaced in the neighbour lookups, [look] whether
  the cell behind the block is consulted. *)

Section Scan.
Context {A : Type} `{PyCell A}.
Variable na : A → bool.
Variable look : bool.
Variable k : Z.

Definition subst_na (o : option A) (curr : A) : A :=
  match o with
  | Some q => if na q then curr else q
  | None => curr
  end.

Definition spike (p : option A) (curr : A) (count : nat) (nxt : option A) : bool :=
  py_neb curr (subst_na p curr)
  && (if look then py_neb curr (subst_na nxt curr) else true)
  && (Z.of_nat count <? k)%Z.

Fixpoint scan (fuel : nat) (p : option A) (l : list A) : list A :=
  match fuel with
  | O => l
  | S fuel' =>
    match l with
    | [] => []
    | v :: t =>
      if na v then v :: scan fuel' (Some v) t
      else
        let c := S (run_after v t) in
        let l' := drop c l in
        if spike p v c (head l')
        then replicate c (subst_na p v) ++ scan fuel' (Some (subst_na p v)) l'
        else take c l ++ scan fuel' (last (take c l)) l'
    end
  end.

Definition scan_all (p : option A) (l : list A) : list A := scan (length l) p l.

End Scan.

(** ** Python values in the cells of a table

    A table read from a CSV file holds strings, integers, floats (with
    NaN for a missing cell) and booleans; [None] stands for a missing
    object.  Floats are IEEE binary64 numbers, as in Python. *)

Inductive value :=
| VStr (s : string)
| VInt (z : Z)
| VFloat (f : float)
| VBool (b : bool)
| VNone.

(** The extended rational a number denotes.  Python compares numbers of
    different types (bool, int, float) by the value they denote. *)
Inductive extnum :=
| Fin (q : Q)
| PosInf
| NegInf.

Definition float_num (f : float) : option extnum :=
  match Prim2SF f with
  | S754_zero _ => Some (Fin (0 # 1))
  | S754_infinity s => Some (if s then NegInf else PosInf)
  | S754_nan => None
  | S754_finite s m e =>
    let n := if s then Z.neg m else Z.pos m in
    Some (Fin (match e with
               | Z0 => n # 1
               | Z.pos p => (n * 2 ^ Z.pos p) # 1
               | Z.neg p => n # (2 ^ p)
               end))
  end.

Definition num_of (v : value) : option extnum :=
  match v with
  | VInt z => Some (Fin (z # 1))
  | VBool b => Some (Fin ((if b then 1 else 0) # 1))
  | VFloat f => float_num f
  | VStr _ | VNone => None
  end.

Definition extnum_eqb (a b : extnum) : bool :=
  match a, b with
  | Fin p, Fin q => Qeq_bool p q
  | PosInf, PosInf | NegInf, NegInf => true
  | _, _ => false
  end.

(** [x == y] *)
Definition value_eqb (x y : value) : bool :=
  match x, y with
  | VStr a, VStr b => bool_decide (a = b)
  | VNone, VNone => true
  | _, _ =>
    match num_of x, num_of y with
    | Some a, Some b => extnum_eqb a b
    | _, _ => false
    end
  end.

(** [pd.isna(x)]: [None], and the float that denotes no number. *)
Definition value_isna (x : value) : bool :=
  match x with
  | VNone => true
  | VFloat f => match float_num f with None => true | Some _ => false end
  | _ => false
  end.

#[global] Instance value_cell : PyCell value :=
  {| py_eqb := value_eqb; isna := value_isna |}.

(** The missing cell of a table read from CSV. *)
Definition NaN : value := VFloat nan.

(** ** Blocks

    A maximal block of [l] (the specification's "block"): the [c] cells
    from position [i] on are equal to the first of them, and the cells
    just before position [i] and just after the last of them, when there
    are any, are not. *)

Section Blocks.
Context {A : Type} `{PyCell A}.

Definition is_block (l : list A) (i c : nat) : Prop :=
  (0 < c)%nat ∧ (i + c ≤ length l)%nat ∧
  ∃ v, l !! i = Some v
    ∧ (∀ j x, (i ≤ j < i + c)%nat → l !! j = Some x → py_eqb x v = true)
    ∧ (∀ j x, S j = i → l !! j = Some x → py_eqb v x = false)
    ∧ (∀ x, l !! (i + c)%nat = Some x → py_eqb x v = false).

(** The same as a test, for concrete sequences. *)
Definition is_blockb (l : list A) (i c : nat) : bool :=
  match l !! i with
  | None => false
  | Some v =>
    (0 <? c)%nat && (i + c <=? length l)%nat
    && forallb (λ x, py_eqb x v) (take c (drop i l))
    && match i with
       | O => true
       | S j => match l !! j with Some x => negb (py_eqb v x) | None => true end
       end
    && match l !! (i + c)%nat with Some x => negb (py_eqb x v) | None => true end
  end.

(** Every cell of [l] either continues the cell before it ([prev] for the
    first one) or starts a run of at least [k] equal cells. *)
Fixpoint settled (k : Z) (prev : A) (l : list A) : bool :=
  match l with
  | [] => true
  | v :: t => (py_eqb v prev || (k <=? Z.of_nat (S (run_after v t)))%Z) && settled k v t
  end.

End Blocks.

Section Verdict.
Context {A : Type} `{PyCell A}.
Variable na : A → bool.
Variable look : bool.
Variable k : Z.

(** The verdict of the scan on the block of [l] at position [i], of [c]
    cells equal to [v]: [out] is the scanned list, [p] the cell in front
    of [l].  The block is overwritten as a whole or kept as a whole. *)
Definition block_verdict (p : option A) (l out : list A) (i c : nat) (v : A) : Prop :=
  ∀ j, (i ≤ j < i + c)%nat →
    out !! j =
      let pv := match i with O => p | S i' => out !! i' end in
      if spike na look k pv v c (l !! (i + c)%nat)
      then Some (subst_na na pv v)
      else l !! j.

End Verdict.

(** ** Example sequences *)

Definition lanes_spike_example : list value :=
  [VInt 2; VInt 2; VInt 2; VInt 5; VInt 2; VInt 2].

Definition lanes_cascade_example : list value :=
  [VInt 1; VInt 2; VInt 1; VInt 3; VInt 3; VInt 3].

Definition lanes_missing_example : list value :=
  [VInt 2; VInt 2; VInt 2; NaN].

Definition plane_example : list value :=
  [VStr "Straight"; NaN; VStr "Curved"; VStr "Straight"; VStr "Straight"; VStr "Curved";
   VStr "Straight"].

(** ** Exceptions and Python's built-in conversions *)

Inductive exn := KeyError | OverflowError | ValueError | TypeError.

Inductive result (T : Type) :=
| Ok (x : T)
| Raise (e : exn).
Arguments Ok {T} x.
Arguments Raise {T} e.

#[global] Instance result_ret : MRet result := λ T x, Ok x.
#[global] Instance result_bind : MBind result :=
  λ T U f r, match r with Ok x => f x | Raise e => Raise e end.

(** [for x in xs: acc = body(acc, x)], where the body may raise. *)
Fixpoint for_each {S X : Type} (body : S → X → result S) (xs : list X) (acc : S) : result S :=
  match xs with
  | [] => Ok acc
  | x :: xs' => acc' ← body acc x; for_each body xs' acc'
  end.

(** What [json.loads] and [ast.literal_eval] return, as far as
    [safe_list_len] looks at it: a list of some length, or another object. *)
Inductive parsed :=
| PList (n : nat)
| POther.

(** The functions of Python and its standard library that read and print
    text.  They are not part of the repository; the model takes them as
    given.  [None] stands for a raised exception. *)
Record PyBuiltins := {
  float_of_str : string → option float;
  int_of_str : string → option Z;
  str_of_float : float → string;
  str_strip : string → string;
  json_loads : string → option parsed;
  literal_eval : string → option parsed;
}.

(** [str(n)] for an integer *)
Definition str_of_Z (n : Z) : string := NilZero.string_of_int (Z.to_int n).

(** [str(x)] *)
Definition py_str (B : PyBuiltins) (x : value) : string :=
  match x with
  | VStr s => s
  | VInt z => str_of_Z z
  | VFloat f => str_of_float B f
  | VBool true => "True"
  | VBool false => "False"
  | VNone => "None"
  end.

(** [float(n)] for an integer: the nearest binary64 number. *)
Definition float_of_Z (z : Z) : float := SF2Prim (binary_normalize prec emax z 0 false).

Definition float_is_inf (f : float) : bool :=
  match float_num f with
  | Some PosInf | Some NegInf => true
  | _ => false
  end.

(** [float(x)]; [None] when it raises ([ValueError], [TypeError] or
    [OverflowError]). *)
Definition py_float (B : PyBuiltins) (x : value) : option float :=
  match x with
  | VFloat f => Some f
  | VInt z => let f := float_of_Z z in if float_is_inf f then None else Some f
  | VBool b => Some (if b then 1%float else 0%float)
  | VStr s => float_of_str B s
  | VNone => None
  end.

(** [int(f)] for a float: truncation towards zero; infinities and NaN
    have no integer value. *)
Definition int_of_float (f : float) : result Z :=
  match Prim2SF f with
  | S754_zero _ => Ok 0
  | S754_infinity _ => Raise OverflowError
  | S754_nan => Raise ValueError
  | S754_finite s m e =>
    let a := match e with
             | Z0 => Z.pos m
             | Z.pos p => Z.pos m * 2 ^ Z.pos p
             | Z.neg p => Z.pos m / 2 ^ Z.pos p
             end in
    Ok (if s then - a else a)
  end.

(** ** Lane-count normalization *)

Definition LANE_MAP : list (string * Z) :=
  [("No", 1); ("1, No", 1); ("2 lanes", 2); ("2, No", 2); ("2, 3", 2);
   ("Two", 2); ("two", 2); ("3, No", 3); ("Multiple", 2); ("Multiple lanes", 2);
   ("Multiple lanes, No", 2); ("Yes", 2); ("1 or 2", 2); ("n/a, No", 1); ("N/A", 1);
   ("1.5", 1); ("1 lane", 1); ("1, Yes", 1); ("2, Yes", 2); ("Number of Lanes, No", 1);
   ("Four", 4); ("4, No", 4); ("1, Parking", 2); ("one", 1);
   ("3, including a motorcycle lane", 3); ("Three", 3)].

(** [LANE_MAP[s]], [None] when [s not in LANE_MAP] *)
Definition lane_map_get (s : string) : option Z :=
  snd <$> List.find (λ kv, bool_decide (kv.1 = s)) LANE_MAP.

Definition _convert_lane_value (B : PyBuiltins) (x : value) : value :=
  if value_isna x then VInt 1
  else
    match x with
    | VInt z => VInt z
    | VFloat f =>
      match int_of_float f with
      | Ok n => VInt n
      | Raise _ => x
      end
    | _ =>
      match (match x with VStr s => lane_map_get s | _ => None end) with
      | Some n => VInt n
      | None =>
        match int_of_str B (py_str B x) with
        | Some n => VInt n
        | None => x
        end
      end
    end.

(** ** Tables

    A [DataFrame] with the default index [0, 1, ..., n - 1]: the number
    of rows and the columns by name.  In a well-formed table every column
    has one cell per row. *)

Record DataFrame := {
  df_len : nat;
  df_cols : gmap string (list value);
}.

Definition df_wf (df : DataFrame) : Prop :=
  map_Forall (λ _ l, length l = df_len df) (df_cols df).

(** [c in df.columns] *)
Definition has_col (df : DataFrame) (c : string) : bool :=
  match df_cols df !! c with Some _ => true | None => false end.

(** [df[c].tolist()]; [KeyError] for a column that is not there. *)
Definition get_col (df : DataFrame) (c : string) : result (list value) :=
  match df_cols df !! c with Some l => Ok l | None => Raise KeyError end.

(** [out[c] = v]: a whole column set to one value. *)
Definition fill_col (df : DataFrame) (c : string) (v : value) : DataFrame :=
  {| df_len := df_len df; df_cols := <[c := replicate (df_len df) v]> (df_cols df) |}.

(** [out.at[i, c]] *)
Definition at_get (df : DataFrame) (i : nat) (c : string) : result value :=
  match df_cols df !! c with
  | Some l => match l !! i with Some v => Ok v | None => Raise KeyError end
  | None => Raise KeyError
  end.

(** [out.at[i, c] = v] and [out.loc[i, c] = v] for a row label [i] and a
    column [c] of the table. *)
Definition at_set (df : DataFrame) (i : nat) (c : string) (v : value) : DataFrame :=
  {| df_len := df_len df; df_cols := alter (λ l, <[i := v]> l) c (df_cols df) |}.

(** Writing the cells [vals] at the rows [idxs], in order. *)
Fixpoint scatter (idxs : list nat) (vals : list value) (l : list value) : list value :=
  match idxs, vals with
  | i :: idxs', v :: vals' => scatter idxs' vals' (<[i := v]> l)
  | _, _ => l
  end.

(** [out.loc[idxs, c] = vals] for the rows [idxs] of one scene.  A column
    that is not there yet is created, with NaN in every other row. *)
Definition loc_set (df : DataFrame) (idxs : list nat) (c : string) (vals : list value)
    : DataFrame :=
  let old := default (replicate (df_len df) NaN) (df_cols df !! c) in
  {| df_len := df_len df; df_cols := <[c := scatter idxs vals old]> (df_cols df) |}.

(** The cells of [l] at the rows [idxs]. *)
Definition gather (idxs : list nat) (l : list value) : list value :=
  omap (λ i, l !! i) idxs.

(** The rows whose cell in [keys] equals [token]. *)
Fixpoint rows_of (token : value) (keys : list value) (i : nat) : list nat :=
  match keys with
  | [] => []
  | x :: keys' =>
    if value_eqb x token then i :: rows_of token keys' (S i) else rows_of token keys' (S i)
  end.

(** The distinct keys that are not missing, each once. *)
Fixpoint group_keys (keys : list value) (seen : list value) : list value :=
  match keys with
  | [] => []
  | x :: keys' =>
    if value_isna x || existsb (value_eqb x) seen then group_keys keys' seen
    else x :: group_keys keys' (x :: seen)
  end.

(** [df.groupby(scene_col)]: the scenes with the rows of each, in table
    order.  Rows with a missing scene identifier belong to no group.
    (pandas yields the groups sorted by key; the groups are disjoint and
    every check below treats them independently.) *)
Definition groupby (df : DataFrame) (scene_col : string) : result (list (value * list nat)) :=
  keys ← get_col df scene_col;
  Ok ((λ token, (token, rows_of token keys 0)) <$> group_keys keys []).

(** ** Check 0: local toggles *)

Fixpoint issue_loop (fuel : nat) (sequence : list value) (labels : list string) (i : nat)
    : list string :=
  match fuel with
  | O => labels
  | S fuel' =>
    if (i + 1 <? length sequence)%nat then
      match sequence !! (i - 1)%nat, sequence !! i, sequence !! (i + 1)%nat with
      | Some prev_v, Some v, Some next_v =>
        if value_eqb v (VStr "No") && value_eqb prev_v (VStr "Yes")
           && value_eqb next_v (VStr "Yes")
        then issue_loop fuel' sequence (<[i := "Immediate exit/re-entry"]> labels) (i + 2)
        else if value_eqb v (VStr "Yes") && value_eqb prev_v (VStr "No")
                && value_eqb next_v (VStr "No")
        then issue_loop fuel' sequence (<[i := "Immediate entry/exit"]> labels) (i + 2)
        else issue_loop fuel' sequence labels (i + 1)
      | _, _, _ => labels
      end
    else labels
  end.

Definition get_issue_labels (sequence : list value) : list string :=
  issue_loop (length sequence) sequence (replicate (length sequence) "OK") 1.

Definition add_problem_flags (df : DataFrame) (scene_col : string) (base_cols : list string)
    : result DataFrame :=
  groups ← groupby df scene_col;
  for_each (λ out group,
    for_each (λ out base_col,
      let auto_col := base_col +:+ "_Auto_Check" in
      match df_cols df !! auto_col with
      | None => Ok out
      | Some col =>
        let seq := gather group.2 col in
        Ok (loc_set out group.2 (auto_col +:+ "_check") (VStr <$> get_issue_labels seq))
      end) base_cols out) groups df.

(** ** Check 1: Divided / Undivided *)

Definition divided_undivided_check_col : string :=
  "Scenery.DrivableArea.DrivableAreaGeometry.TransversePlane.Divided_Undivided_check".

Definition check_divided_undivided_consistency (df : DataFrame)
    (divided_col undivided_col : string) : DataFrame :=
  if negb (has_col df divided_col) || negb (has_col df undivided_col) then df
  else
    let out := fill_col df divided_undivided_check_col (VStr "OK") in
    match df_cols out !! divided_col, df_cols out !! undivided_col,
          df_cols out !! divided_undivided_check_col with
    | Some d, Some u, Some chk =>
      let bad := zip_with (λ x y, negb (value_isna x) && negb (value_isna y) && value_eqb x y) d u in
      let chk' := zip_with (λ (b : bool) old,
                      if b then VStr "Divided/Undivided inconsistency (both equal)" else old)
                    bad chk in
      {| df_len := df_len out;
         df_cols := <[divided_undivided_check_col := chk']> (df_cols out) |}
    | _, _, _ => out
    end.

(** ** Check 2: lane jumps *)

(** The body of the loop over the rows of a scene, for the row with the
    value [cur] whose predecessor has the value [prev]: the label to write,
    if any. *)
Definition lane_jump (B : PyBuiltins) (prev cur : value) : result (option string) :=
  match py_float B cur, py_float B prev with
  | Some a, Some b =>
    let diff := (a - b)%float in
    if (2 <=? abs diff)%float then
      let transition := if (0 <? diff)%float then "addition" else "reduction" in
      n ← int_of_float (abs diff);
      Ok (Some ("Sudden " +:+ transition +:+ " of " +:+ str_of_Z n +:+ " lanes"))
    else Ok None
  | _, _ => Ok None
  end.

(** On the table.  The loop takes the label of a row of a scene from the
    column [index] that [reset_index()] adds to the rows of the scene.  In
    a table without a column of that name, the table modelled here, this
    is the label of the row itself.  (A table that has a column [index]
    keeps it, the labels go to [level_0], and the loop reads the cells of
    the table's own column as labels.) *)
Definition flag_number_of_lanes (B : PyBuiltins) (df : DataFrame)
    (scene_col lanes_col : string) : result DataFrame :=
  match df_cols df !! lanes_col with
  | None => Ok df
  | Some lanes =>
    let check_col := lanes_col +:+ "_check" in
    let out := fill_col df check_col (VStr "OK") in
    groups ← groupby df scene_col;
    for_each (λ out group,
      let idxs := group.2 in
      let vals := gather idxs lanes in
      for_each (λ out i,
        match vals !! (i - 1)%nat, vals !! i, idxs !! i with
        | Some prev, Some cur, Some idx =>
          lbl ← lane_jump B prev cur;
          match lbl with
          | Some text => Ok (at_set out idx check_col (VStr text))
          | None => Ok out
          end
        | _, _, _ => Ok out
        end) (seq 1 (length vals - 1)) out) groups out
  end.

(** ** Check 3: signs and times of operation *)

Definition safe_list_len (B : PyBuiltins) (x : value) : Z :=
  if value_isna x then -1
  else
    let s := str_strip B (py_str B x) in
    match json_loads B s with
    | Some (PList n) => Z.of_nat n
    | Some POther => -1
    | None =>
      match literal_eval B s with
      | Some (PList n) => Z.of_nat n
      | _ => -1
      end
    end.

(** The loop over the rows for one pair of columns. *)
Definition check_pair_rows (B : PyBuiltins) (signs_col times_col check_col : string)
    (rows : list nat) (out : DataFrame) : result DataFrame :=
  for_each (λ out i,
    x ← at_get out i signs_col;
    y ← at_get out i times_col;
    let l_signs := safe_list_len B x in
    let l_times := safe_list_len B y in
    if (l_signs =? -1) || (l_times =? -1)
    then Ok (at_set out i check_col (VStr "Parse error (non-list)"))
    else if negb (l_signs =? l_times)
    then Ok (at_set out i check_col
               (VStr ("Length mismatch (signs=" +:+ str_of_Z l_signs
                      +:+ ", times=" +:+ str_of_Z l_times +:+ ")")))
    else Ok out) rows out.

Definition check_signs_time_pairs (B : PyBuiltins) (df : DataFrame)
    (pairs : list (string * string)) : result DataFrame :=
  for_each (λ out pair,
    let signs_col := pair.1 in
    let times_col := pair.2 in
    if negb (has_col df signs_col) || negb (has_col df times_col) then Ok out
    else
      let check_col := signs_col +:+ "_pair_check" in
      let out := fill_col out check_col (VStr "OK") in
      check_pair_rows B signs_col times_col check_col (seq 0 (df_len out)) out)
    pairs df.

(** ** Check 6: cloudiness *)

Definition cloud_inconsistent : string := "Cloudiness inconsistency: multiple or none active".
Definition cloud_jump : string := "Clear <-> Overcast must go through PartlyCloudy".

(** Step 1, the body of [for i in range(1, len(values) - 1)]. *)
Definition zigzag_step (values : list value) (i : nat) : list value :=
  match values !! (i - 1)%nat, values !! i, values !! (i + 1)%nat with
  | Some a, Some b, Some c =>
    if value_eqb a c && negb (value_eqb b a) then <[i := a]> values else values
  | _, _, _ => values
  end.

Definition zigzag (values : list value) : list value :=
  foldl zigzag_step values (seq 1 (length values - 2)).

(** The three cells of a row, then its state (0 = Clear, 1 = Partly,
    2 = Overcast, -1 = invalid) and its check label. *)
Record cloud_row := {
  cr_clear : value;
  cr_partly : value;
  cr_overcast : value;
  cr_state : Z;
  cr_check : string;
}.

Definition is_yes (x : value) : bool := value_eqb x (VStr "Yes").

(** [sum(active.values())] *)
Definition active_count (c p o : value) : nat :=
  ((if is_yes c then 1 else 0) + (if is_yes p then 1 else 0) + (if is_yes o then 1 else 0))%nat.

(** [[k for k, v in active.items() if v][0]] when exactly one is active *)
Definition active_state (c p o : value) : Z :=
  if is_yes c then 0 else if is_yes p then 1 else 2.

Definition yes_if (b : bool) : value := VStr (if b then "Yes" else "No").

(** Step 2, the loop over the rows of the scene; [last_valid] is carried
    from row to row. *)
Fixpoint exclusivity (rows : list (value * value * value)) (last_valid : option Z)
    : list cloud_row :=
  match rows with
  | [] => []
  | (c, p, o) :: rows' =>
    if (active_count c p o =? 1)%nat then
      let state := active_state c p o in
      {| cr_clear := c; cr_partly := p; cr_overcast := o;
         cr_state := state; cr_check := "OK" |}
      :: exclusivity rows' (Some state)
    else
      match last_valid with
      | Some lv =>
        {| cr_clear := yes_if (lv =? 0); cr_partly := yes_if (lv =? 1);
           cr_overcast := yes_if (lv =? 2); cr_state := lv; cr_check := "OK" |}
        :: exclusivity rows' last_valid
      | None =>
        {| cr_clear := c; cr_partly := p; cr_overcast := o;
           cr_state := -1; cr_check := cloud_inconsistent |}
        :: exclusivity rows' None
      end
  end.

(** [brief] of step 3 *)
Definition brief (state_seq : list Z) (j : nat) (prev_state : Z) : bool :=
  (2 <=? j)%nat && (j + 1 <? length state_seq)%nat
  && match state_seq !! (j - 2)%nat, state_seq !! (j + 1)%nat with
     | Some a, Some b => (a =? prev_state) && (b =? prev_state)
     | _, _ => false
     end.

(** Step 3, the body of [for j in range(1, len(state_seq))]. *)
Definition transition_step (state_seq : list Z) (labels : list string) (j : nat)
    : list string :=
  match state_seq !! (j - 1)%nat, state_seq !! j with
  | Some prev_state, Some curr_state =>
    if (prev_state =? -1) || (curr_state =? -1) then labels
    else if Z.abs (curr_state - prev_state) =? 2 then
      if negb (brief state_seq j prev_state) then <[j := cloud_jump]> labels else labels
    else labels
  | _, _ => labels
  end.

Definition transitions (state_seq : list Z) (labels : list string) : list string :=
  foldl (transition_step state_seq) labels (seq 1 (length state_seq - 1)).

(** The rows of a scene after step 1. *)
Definition smoothed_rows (clear partly overcast : list value) : list (value * value * value) :=
  zip (zip (zigzag clear) (zigzag partly)) (zigzag overcast).

(** The check on one scene: the rows after steps 1 and 2, and the check
    labels after step 3. *)
Definition cloudiness_scene (clear partly overcast : list value)
    : list cloud_row * list string :=
  let rows := exclusivity (smoothed_rows clear partly overcast) None in
  (rows, transitions (cr_state <$> rows) (cr_check <$> rows)).

(** On the table: every scene is checked on its own rows.  The four column
    names and the name of the check column are taken to be different, and
    the three cloudiness columns to be columns of text (dtype [object] or
    [str]), into which step 2 can write "Yes" and "No".  (Whether a column
    of numbers or of missing cells only accepts these texts depends on the
    version of pandas: older versions convert the column, newer ones raise
    [TypeError].) *)
Definition check_cloudiness_scene_switch (df : DataFrame)
    (scene_col clear_col partly_col overcast_col : string) : result DataFrame :=
  if negb (has_col df clear_col) || negb (has_col df partly_col)
     || negb (has_col df overcast_col) then Ok df
  else
    let check_col := clear_col +:+ "_check" in
    let out := fill_col df check_col (VStr "OK") in
    groups ← groupby out scene_col;
    for_each (λ out group,
      let idxs := group.2 in
      clear ← get_col out clear_col;
      partly ← get_col out partly_col;
      overcast ← get_col out overcast_col;
      let res := cloudiness_scene (gather idxs clear) (gather idxs partly)
                   (gather idxs overcast) in
      let out := loc_set out idxs clear_col (cr_clear <$> res.1) in
      let out := loc_set out idxs partly_col (cr_partly <$> res.1) in
      let out := loc_set out idxs overcast_col (cr_overcast <$> res.1) in
      Ok (loc_set out idxs check_col (VStr <$> res.2))) groups out.

(** A row with exactly one of the three fields equal to "Yes". *)
Definition valid_row (r : value * value * value) : bool :=
  (active_count r.1.1 r.1.2 r.2 =? 1)%nat.

(** The state of the last valid row of [rows], [lv] when there is none. *)
Definition last_valid_state (rows : list (value * value * value)) (lv : option Z) : option Z :=
  foldl (λ lv r, if valid_row r then Some (active_state r.1.1 r.1.2 r.2) else lv) lv rows.

(** Whether step 3 flags row [j]. *)
Definition jump_at (state_seq : list Z) (j : nat) : bool :=
  match state_seq !! (j - 1)%nat, state_seq !! j with
  | Some prev_state, Some curr_state =>
    negb ((prev_state =? -1) || (curr_state =? -1))
    && (Z.abs (curr_state - prev_state) =? 2)
    && negb (brief state_seq j prev_state)
  | _, _ => false
  end.

(** What step 2 makes of a row, given the last valid state before it. *)
Definition row_result (r : value * value * value) (lv : option Z) : cloud_row :=
  if valid_row r then
    {| cr_clear := r.1.1; cr_partly := r.1.2; cr_overcast := r.2;
       cr_state := active_state r.1.1 r.1.2 r.2; cr_check := "OK" |}
  else
    match lv with
    | Some lv =>
      {| cr_clear := yes_if (lv =? 0); cr_partly := yes_if (lv =? 1);
         cr_overcast := yes_if (lv =? 2); cr_state := lv; cr_check := "OK" |}
    | None =>
      {| cr_clear := r.1.1; cr_partly := r.1.2; cr_overcast := r.2;
         cr_state := -1; cr_check := cloud_inconsistent |}
    end.

Arguments float_num : simpl never.
Arguments int_of_float : simpl never.
Arguments value_eqb : simpl never.
Arguments value_isna : simpl never.
Arguments py_float : simpl never.

(** Example scenes of the cloudiness check. *)
Definition jump_scene_clear : list value := [VStr "Yes"; VStr "Yes"; VStr "No"; VStr "No"].
Definition jump_scene_partly : list value := [VStr "No"; VStr "No"; VStr "No"; VStr "No"].
Definition jump_scene_overcast : list value := [VStr "No"; VStr "No"; VStr "Yes"; VStr "Yes"].

Definition forced_scene_clear : list value :=
  [VStr "No"; VStr "Yes"; VStr "Yes"; VStr "Yes"; VStr "No"].
Definition forced_scene_partly : list value :=
  [VStr "No"; VStr "No"; VStr "Yes"; VStr "Yes"; VStr "No"].
Definition forced_scene_overcast : list value :=
  [VStr "No"; VStr "No"; VStr "No"; VStr "No"; VStr "Yes"].

(** ** Example tables *)

(** [df[LANE_COL].apply(_convert_lane_value)] *)
Definition normalize_lanes (B : PyBuiltins) (lanes : list value) : list value :=
  _convert_lane_value B <$> lanes.

(** Built-ins that reject every text, for examples whose cells are numbers
    or missing, where the conversions of text are never consulted. *)
Definition no_text_builtins : PyBuiltins :=
  {| float_of_str := λ _, None; int_of_str := λ _, None; str_of_float := λ _, "";
     str_strip := λ s, s; json_loads := λ _, None; literal_eval := λ _, None |}.

(** A column of a checked table, when the check did not raise. *)
Definition result_col (r : result DataFrame) (c : string) : option (list value) :=
  match r with
  | Ok out => df_cols out !! c
  | Raise _ => None
  end.

(** One scene whose second lane count is infinite (the text [inf] in a CSV
    file is read as the float infinity). *)
Definition infinite_lanes_table : DataFrame :=
  {| df_len := 2;
     df_cols := list_to_map [("Scene", [VStr "s1"; VStr "s1"]);
                             ("Lanes", [VFloat 2; VFloat infinity])] |}.

Definition lanes_table : DataFrame :=
  {| df_len := 4;
     df_cols := list_to_map [("Scene", [VStr "s1"; VStr "s2"; VStr "s1"; VStr "s1"]);
                             ("Lanes", [VInt 2; VInt 5; VInt 4; VStr "many"])] |}.

(** Three rows, the second with no scene identifier. *)
Definition missing_scene_table : DataFrame :=
  {| df_len := 3;
     df_cols := list_to_map [("Scene", [VStr "s1"; NaN; VStr "s1"]);
                             ("Parking_Auto_Check", [VStr "No"; VStr "No"; VStr "No"])] |}.

(** ** The pair check, as the specification words it *)

(** The label of a row from the lengths of its two lists, -1 standing for
    a value that does not parse as a list. *)
Definition pair_label (l_signs l_times : Z) : string :=
  if (l_signs =? -1) || (l_times =? -1) then "Parse error (non-list)"
  else if negb (l_signs =? l_times) then
    "Length mismatch (signs=" +:+ str_of_Z l_signs +:+ ", times=" +:+ str_of_Z l_times +:+ ")"
  else "OK".

Definition pair_check_col (signs_col : string) : string := signs_col +:+ "_pair_check".

(** Pairs that do not interfere: no two of them share a signs column (the
    check column is named after it), and no check column is itself a column
    that a pair reads. *)
Definition pairs_independent (pairs : list (string * string)) : Prop :=
  NoDup pairs.*1
  ∧ ∀ p q, p ∈ pairs → q ∈ pairs →
      pair_check_col p.1 ≠ q.1 ∧ pair_check_col p.1 ≠ q.2.

(** What one row of the pair loop writes into the check column [chk]. *)
Definition pair_row_write (B : PyBuiltins) (signs times : list value) (i : nat)
    : option value :=
  match signs !! i, times !! i with
  | Some x, Some y =>
    let l := pair_label (safe_list_len B x) (safe_list_len B y) in
    if bool_decide (l = "OK") then None else Some (VStr l)
  | _, _ => None
  end.

(** Built-ins that read the two list texts of the example below as
    [json.loads] does, and reject every other text. *)
Definition list_text_builtins : PyBuiltins :=
  {| float_of_str := λ _, None; int_of_str := λ _, None; str_of_float := λ _, "";
     str_strip := λ s, s;
     json_loads := λ s, if bool_decide (s = "[1]") then Some (PList 1)
                        else if bool_decide (s = "[1, 2]") then Some (PList 2)
                        else None;
     literal_eval := λ _, None |}.

(** Two pairs with the same signs column. *)
Definition shared_signs_table : DataFrame :=
  {| df_len := 1;
     df_cols := list_to_map [("Signs", [VStr "[1]"]); ("TimesA", [VStr "[1, 2]"]);
                             ("TimesB", [VStr "[1]"])] |}.

Definition shared_signs_pairs : list (string * string) :=
  [("Signs", "TimesA"); ("Signs", "TimesB")].

Definition one_pair : list (string * string) := [("Signs", "TimesA")].

(** ** Definitions for the further properties *)

(** The label of the toggle check for one row, from the cells before it,
    at it and after it. *)
Definition toggle_label (prev_v v next_v : value) : string :=
  if value_eqb v (VStr "No") && value_eqb prev_v (VStr "Yes")
     && value_eqb next_v (VStr "Yes")
  then "Immediate exit/re-entry"
  else if value_eqb v (VStr "Yes") && value_eqb prev_v (VStr "No")
          && value_eqb next_v (VStr "No")
  then "Immediate entry/exit"
  else "OK".

(** ** Check 4: construction zone *)

Definition roadworks_no_signage : string :=
  "RoadWorks present but missing TemporaryRoadSignage".
Definition linemarkers_alone : string :=
  "TemporaryLineMarkers present without RoadWorks and Signage".

Definition check_construction_zone (df : DataFrame)
    (roadworks_col signage_col linemarkers_col : string) : result DataFrame :=
  if negb (has_col df roadworks_col) || negb (has_col df signage_col)
     || negb (has_col df linemarkers_col)
  then Ok df
  else
    let check_col := roadworks_col +:+ "_check" in
    let out := fill_col df check_col (VStr "OK") in
    for_each (λ out i,
      rw ← at_get out i roadworks_col;
      sign ← at_get out i signage_col;
      lines ← at_get out i linemarkers_col;
      if value_eqb rw (VStr "Yes") && value_eqb sign (VStr "No")
      then Ok (at_set out i check_col (VStr roadworks_no_signage))
      else if value_eqb lines (VStr "Yes") && value_eqb rw (VStr "No")
              && value_eqb sign (VStr "No")
      then Ok (at_set out i check_col (VStr linemarkers_alone))
      else Ok out) (seq 0 (df_len out)) out.

(** The label of one row of the construction-zone check. *)
Definition construction_label (rw sign lines : value) : string :=
  if value_eqb rw (VStr "Yes") && value_eqb sign (VStr "No") then roadworks_no_signage
  else if value_eqb lines (VStr "Yes") && value_eqb rw (VStr "No")
          && value_eqb sign (VStr "No")
  then linemarkers_alone
  else "OK".

(** ** Check 5: illumination *)

Definition illumination_check_col : string :=
  "EnvironmentalConditions.Illumination_Day_Night_check".

Definition check_illumination_consistency (df : DataFrame)
    (day_col night_col : string) : DataFrame :=
  if negb (has_col df day_col) || negb (has_col df night_col) then df
  else
    let out := fill_col df illumination_check_col (VStr "OK") in
    match df_cols out !! day_col, df_cols out !! night_col,
          df_cols out !! illumination_check_col with
    | Some d, Some u, Some chk =>
      let bad := zip_with (λ x y, negb (value_isna x) && negb (value_isna y) && value_eqb x y) d u in
      let chk' := zip_with (λ (b : bool) old,
                      if b then VStr "Illumination inconsistency (Day and Night are the same)"
                      else old)
                    bad chk in
      {| df_len := df_len out;
         df_cols := <[illumination_check_col := chk']> (df_cols out) |}
    | _, _, _ => out
    end.

(** The label of a row of a check that flags two equal cells. *)
Definition equal_pair_label (flag : string) (x y : value) : string :=
  if negb (value_isna x) && negb (value_isna y) && value_eqb x y then flag else "OK".

(** A table with the three construction columns, and a table with two
    columns to compare. *)
Definition construction_table : DataFrame :=
  {| df_len := 3;
     df_cols := list_to_map [("RoadWorks", [VStr "Yes"; VStr "No"; VStr "Yes"]);
                             ("Signage", [VStr "No"; VStr "No"; VStr "Yes"]);
                             ("LineMarkers", [VStr "No"; VStr "Yes"; NaN])] |}.

Definition day_night_table : DataFrame :=
  {| df_len := 3;
     df_cols := list_to_map [("Day", [VStr "Yes"; VStr "No"; NaN]);
                             ("Night", [VStr "Yes"; VStr "Yes"; NaN])] |}.

(** ** Temporal smoothing by scene ([main] of preprocess_normalize.py) *)

Definition SCENE_COL : string := "Scene".

(** [df[dst] = df[src].copy()] *)
Definition copy_col (df : DataFrame) (src dst : string) : result DataFrame :=
  l ← get_col df src;
  Ok {| df_len := df_len df; df_cols := <[dst := l]> (df_cols df) |}.

(** The loop over the scenes for one column,
    [for scene in df[SCENE_COL].dropna().unique(): ...]: the cells of the
    scene are read from the column, smoothed, and written back with
    [df.loc[mask, auto_col] = pd.Series(corrected, index=df[mask].index)],
    which raises [ValueError] when the lengths differ. *)
Definition smooth_scenes (smoother : list value → list value) (df : DataFrame)
    (auto_col : string) : result DataFrame :=
  scenes ← get_col df SCENE_COL;
  for_each (λ df scene,
    keys ← get_col df SCENE_COL;
    let mask := rows_of scene keys 0 in
    col ← get_col df auto_col;
    let seq := gather mask col in
    let corrected := smoother seq in
    if bool_decide (length corrected = length mask)
    then Ok (loc_set df mask auto_col corrected)
    else Raise ValueError) (group_keys scenes []) df.

(** The column written by a loop over groups of rows in which every
    group [rows] receives the cells [g rows]. *)
Definition scatter_groups (g : list nat → list value) (rss : list (list nat))
    (c0 : list value) : list value :=
  foldl (λ c rows, scatter rows (g rows) c) c0 rss.

(** Groups of rows of a table of [n] rows: no row twice in a group, every
    row in range, no row in two groups. *)
Definition groups_ok (n : nat) (rss : list (list nat)) : Prop :=
  Forall (λ rows, NoDup rows ∧ Forall (λ j, j < n)%nat rows) rss
  ∧ ∀ a b rs1 rs2 j, a ≠ b → rss !! a = Some rs1 → rss !! b = Some rs2 →
      j ∈ rs1 → j ∉ rs2.

(** The rows of the scenes of a scene column. *)
Definition scene_groups (keys : list value) : list (list nat) :=
  (λ token, rows_of token keys 0) <$> group_keys keys [].


(** What smoothing by scene gives: [cells] from the column [src] of a
    table with the scene column [keys].  A row without a scene keeps its
    cell; the row of rank [r] among the rows of its scene receives cell
    [r] of the smoothed sequence of the cells of that scene. *)
Definition smoothed_by_scene (smoother : list value → list value)
    (keys src cells : list value) : Prop :=
  (∀ j x, keys !! j = Some x → value_isna x = true → cells !! j = src !! j)
  ∧ (∀ j x, keys !! j = Some x → value_isna x = false →
       let rows := rows_of x keys 0 in
       j ∈ rows
       ∧ ∀ r, rows !! r = Some j → cells !! j = smoother (gather rows src) !! r).

Definition ALLOWED_YES_NO_COLS : list string :=
  ["Scenery.Zones.SchoolZones";
   "Scenery.DrivableArea.DrivableAreaType.Parking";
   "Scenery.DrivableArea.DrivableAreaType.SharedSpace";
   "Scenery.DrivableArea.DrivableAreaGeometry.TransversePlane.Pavements";
   "Scenery.DrivableArea.DrivableAreaGeometry.TransversePlane.BarriersOnEdges";
   "Scenery.DrivableArea.LaneSpecification.LaneNarrow";
   "Scenery.DrivableArea.DrivableAreaEdge.LineMarkers";
   "Scenery.DrivableArea.DrivableAreaEdge.ShoulderPaved";
   "Scenery.DrivableArea.DrivableAreaEdge.ShoulderGrass";
   "Scenery.DrivableArea.DrivableAreaEdge.SolidBarriers";
   "Scenery.DrivableArea.DrivableAreaSurface.SurfaceFeatures.Cracks";
   "Scenery.DrivableArea.DrivableAreaSurface.SurfaceFeatures.Potholes";
   "Scenery.DrivableArea.DrivableAreaSurface.Features.Ruts";
   "Scenery.DrivableArea.DrivableAreaSurface.Features.Swells";
   "Scenery.DrivableArea.DrivableAreaSurface.InducedSurfaceConditions.StandingWater";
   "Scenery.DrivableArea.DrivableAreaSurface.InducedSurfaceConditions.WetRoad";
   "Scenery.DrivableArea.DrivableAreaSurface.InducedSurfaceConditions.SurfaceContamination";
   "Scenery.SpecialStructures.AutomaticAccessControl";
   "Scenery.SpecialStructures.PedestrianCrossings";
   "Scenery.SpecialStructures.RailCrossings";
   "Scenery.FixedRoadStructures.Buildings";
   "Scenery.FixedRoadStructures.StreetLights";
   "Scenery.FixedRoadStructures.StreetFurniture";
   "Scenery.FixedRoadStructures.Vegetation";
   "Scenery.TemporaryRoadStructures.ConstructionSiteDetours";
   "Scenery.DrivableArea.DrivableAreaGeometry.TransversePlane.Divided";
   "Scenery.DrivableArea.DrivableAreaGeometry.TransversePlane.Undivided";
   "Scenery.TemporaryRoadStructures.RoadWorks";
   "Scenery.TemporaryRoadStructures.TemporaryRoadSignage";
   "Scenery.DrivableArea.DrivableAreaEdge.TemporaryLineMarkers";
   "EnvironmentalConditions.Illumination.Day";
   "EnvironmentalConditions.Illumination.Night"].

Definition MIN_CONSECUTIVE_PER_COL : list (string * Z) :=
  [("Scenery.DrivableArea.DrivableAreaGeometry.TransversePlane.Divided", 2);
   ("Scenery.DrivableArea.DrivableAreaGeometry.TransversePlane.Undivided", 2)].

Definition DEFAULT_MIN_CONSECUTIVE : Z := 3.

(** [MIN_CONSECUTIVE_PER_COL.get(col, DEFAULT_MIN_CONSECUTIVE)] *)
Definition min_consecutive_for (col : string) : Z :=
  default DEFAULT_MIN_CONSECUTIVE
    (snd <$> List.find (λ kv, bool_decide (kv.1 = col)) MIN_CONSECUTIVE_PER_COL).

Definition LANE_COL : string := "Scenery.DrivableArea.LaneSpecification.NumberOfLanes".

Definition HORIZONTAL_PLANE_COL : string :=
  "Scenery.DrivableArea.DrivableAreaGeometry.HorizontalPlane".

(** The smoothing of one column, as [main] writes it three times: the
    column is copied to [<col>_Auto_Check] and the copy is smoothed scene
    by scene. *)
Definition smooth_column (smoother : list value → list value) (df : DataFrame)
    (col : string) : result DataFrame :=
  let auto_col := col +:+ "_Auto_Check" in
  df ← copy_col df col auto_col;
  smooth_scenes smoother df auto_col.

(** The block "Temporal smoothing by Scene" of [main], on the table as
    it stands after the value clean-up.  (The counts of modified cells
    that [main] also collects go to the report, not to the table.) *)
Definition temporal_smoothing (df : DataFrame) : result DataFrame :=
  if negb (has_col df SCENE_COL) then Ok df
  else
    df ← for_each (λ df col,
            if negb (has_col df col) then Ok df
            else smooth_column
                   (λ seq, correct_yes_no_sequence seq (min_consecutive_for col)) df col)
          ALLOWED_YES_NO_COLS df;
    df ← (if has_col df LANE_COL
          then smooth_column (λ seq, correct_number_of_lanes seq 3) df LANE_COL
          else Ok df);
    if has_col df HORIZONTAL_PLANE_COL
    then smooth_column (λ seq, correct_horizontal_plane seq 4) df HORIZONTAL_PLANE_COL
    else Ok df.

(** The same block as one list of columns, each with its smoother. *)
Definition smoothing_jobs : list (string * (list value → list value)) :=
  ((λ col, (col, λ seq, correct_yes_no_sequence seq (min_consecutive_for col)))
     <$> ALLOWED_YES_NO_COLS)
  ++ [(LANE_COL, λ seq, correct_number_of_lanes seq 3);
      (HORIZONTAL_PLANE_COL, λ seq, correct_horizontal_plane seq 4)].

Definition run_jobs (jobs : list (string * (list value → list value))) (df : DataFrame)
    : result DataFrame :=
  for_each (λ df job,
    if negb (has_col df job.1) then Ok df else smooth_column job.2 df job.1) jobs df.

(** A table with a scene column, two columns that are smoothed and one
    that is not. *)
Definition annotations_table : DataFrame :=
  {| df_len := 6;
     df_cols := list_to_map
       [("Scene", [VStr "a"; VStr "b"; VStr "a"; NaN; VStr "a"; VStr "b"]);
        ("Scenery.Zones.SchoolZones",
         [VStr "Yes"; VStr "No"; VStr "No"; VStr "No"; VStr "Yes"; VStr "No"]);
        ("Scenery.DrivableArea.LaneSpecification.NumberOfLanes",
         [VInt 2; VInt 1; VInt 3; VInt 5; VInt 2; VInt 1]);
        ("Weather", [VStr "Rain"; VStr "Rain"; VStr "Sun"; VStr "Sun"; VStr "Sun"; NaN])] |}.

(** What a loop over the scenes writes into a column: [cells] from the
    cells [init] the column held (or was created with) and the cells
    [src] the loop reads.  A row without a scene holds what it held; the
    row of rank [r] among the rows of its scene receives cell [r] of [f]
    applied to the cells of that scene. *)
Definition written_by_scene (f : list value → list value)
    (keys src init cells : list value) : Prop :=
  (∀ j x, keys !! j = Some x → value_isna x = true → cells !! j = init !! j)
  ∧ (∀ j x, keys !! j = Some x → value_isna x = false →
       let rows := rows_of x keys 0 in
       j ∈ rows ∧ ∀ r, rows !! r = Some j → cells !! j = f (gather rows src) !! r).


(** The labels of the lane-jump check for the cells of one scene: the
    first row is never flagged, every later row is compared with the row
    before it. *)
Fixpoint lane_labels_from (B : PyBuiltins) (prev : value) (rest : list value) : list value :=
  match rest with
  | [] => []
  | cur :: rest' =>
    VStr (match lane_jump B prev cur with Ok (Some text) => text | _ => "OK" end)
    :: lane_labels_from B cur rest'
  end.

Definition lane_labels (B : PyBuiltins) (vals : list value) : list value :=
  match vals with
  | [] => []
  | v :: rest => VStr "OK" :: lane_labels_from B v rest
  end.

(** No two cells of the column make the comparison raise. *)
Definition no_overflow (B : PyBuiltins) (lanes : list value) : Prop :=
  ∀ x y e, x ∈ lanes → y ∈ lanes → lane_jump B x y ≠ Raise e.

(** Two scenes with interleaved rows and a row without a scene. *)
Definition interleaved_lanes_table : DataFrame :=
  {| df_len := 6;
     df_cols := list_to_map
       [("Scene", [VStr "a"; VStr "b"; VStr "a"; NaN; VStr "a"; VStr "b"]);
        ("Lanes", [VInt 2; VInt 1; VInt 4; VInt 9; VInt 1; VInt 2])] |}.

(** What the cloudiness check leaves in the three cloudiness columns
    and in the check column, from the three columns it found.  A row
    without a scene keeps its cells and is "OK"; the row of rank [r] among
    the rows of its scene holds row [r] of the check of that scene. *)
Definition cloud_written (keys clear partly overcast c1 c2 c3 c4 : list value) : Prop :=
  (∀ j x, keys !! j = Some x → value_isna x = true →
     c1 !! j = clear !! j ∧ c2 !! j = partly !! j ∧ c3 !! j = overcast !! j
     ∧ ∀ y, clear !! j = Some y → c4 !! j = Some (VStr "OK"))
  ∧ (∀ j x, keys !! j = Some x → value_isna x = false →
       let rows := rows_of x keys 0 in
       let res := cloudiness_scene (gather rows clear) (gather rows partly)
                    (gather rows overcast) in
       j ∈ rows
       ∧ ∀ r, rows !! r = Some j →
           c1 !! j = cr_clear <$> res.1 !! r
           ∧ c2 !! j = cr_partly <$> res.1 !! r
           ∧ c3 !! j = cr_overcast <$> res.1 !! r
           ∧ c4 !! j = VStr <$> res.2 !! r).

(** One scene in the loop of the cloudiness check, on the four columns. *)
Definition cloud_step (cs : list value * list value * list value * list value)
    (rows : list nat) : list value * list value * list value * list value :=
  let '(c1, c2, c3, c4) := cs in
  let res := cloudiness_scene (gather rows c1) (gather rows c2) (gather rows c3) in
  (scatter rows (cr_clear <$> res.1) c1, scatter rows (cr_partly <$> res.1) c2,
   scatter rows (cr_overcast <$> res.1) c3, scatter rows (VStr <$> res.2) c4).

(** The table inside the loop of the cloudiness check: the four columns
    it writes, the others as they were in [base]. *)
Definition cloud_state (n : nat) (base : gmap string (list value))
    (clear_col partly_col overcast_col check_col : string)
    (cs : list value * list value * list value * list value) (out : DataFrame) : Prop :=
  df_len out = n
  ∧ df_cols out !! clear_col = Some cs.1.1.1
  ∧ df_cols out !! partly_col = Some cs.1.1.2
  ∧ df_cols out !! overcast_col = Some cs.1.2
  ∧ df_cols out !! check_col = Some cs.2
  ∧ ∀ c, c ≠ clear_col → c ≠ partly_col → c ≠ overcast_col → c ≠ check_col →
      df_cols out !! c = base !! c.

(** A column with a cell of text.  pandas gives such a column the dtype
    [object] or [str], which takes the texts that the checks write. *)
Definition holds_text (l : list value) : Prop := ∃ i s, l !! i = Some (VStr s).

(** Two scenes with interleaved rows for the cloudiness check. *)
Definition cloud_table : DataFrame :=
  {| df_len := 5;
     df_cols := list_to_map
       [("Scene", [VStr "a"; VStr "b"; VStr "a"; NaN; VStr "a"]);
        ("Clear", [VStr "Yes"; VStr "No"; VStr "Yes"; VStr "Yes"; VStr "No"]);
        ("Partly", [VStr "No"; VStr "No"; VStr "No"; VStr "Yes"; VStr "No"]);
        ("Overcast", [VStr "No"; VStr "No"; VStr "No"; VStr "No"; VStr "Yes"])] |}.

(** ** The checks in sequence *)

(** The block [# Apply checks] of [main], with the parsed arguments: the
    seven checks one after the other, each on the table the one before
    returned; the pair check only runs for a list of pairs that is not
    empty. *)
Definition apply_checks (B : PyBuiltins) (df : DataFrame) (scene_col : string)
    (base_cols : list string) (divided_col undivided_col lanes_col : string)
    (pairs : list (string * string))
    (roadworks_col signage_col linemarkers_col illum_day_col illum_night_col : string)
    (cloud_clear_col cloud_partly_col cloud_overcast_col : string) : result DataFrame :=
  df_flags ← add_problem_flags df scene_col base_cols;
  let df_flags := check_divided_undivided_consistency df_flags divided_col undivided_col in
  df_flags ← flag_number_of_lanes B df_flags scene_col lanes_col;
  df_flags ← match pairs with
             | [] => Ok df_flags
             | _ :: _ => check_signs_time_pairs B df_flags pairs
             end;
  df_flags ← check_construction_zone df_flags roadworks_col signage_col linemarkers_col;
  let df_flags := check_illumination_consistency df_flags illum_day_col illum_night_col in
  check_cloudiness_scene_switch df_flags scene_col cloud_clear_col cloud_partly_col
    cloud_overcast_col.

(** What a check that only writes the columns [W] keeps of a table: the
    number of rows, one cell per row in every column, the columns that are
    there, and every column outside [W]. *)
Definition kept (W : string → Prop) (df out : DataFrame) : Prop :=
  df_len out = df_len df
  ∧ (df_wf df → df_wf out)
  ∧ (∀ c, is_Some (df_cols df !! c) → is_Some (df_cols out !! c))
  ∧ (∀ c, ¬ W c → df_cols out !! c = df_cols df !! c).

(** A table with a column for the toggle check, the lane check and the
    cloudiness check. *)
Definition checks_table : DataFrame :=
  {| df_len := 4;
     df_cols := list_to_map
       [("Scene", [VStr "a"; VStr "a"; VStr "a"; VStr "b"]);
        ("Parking_Auto_Check", [VStr "No"; VStr "Yes"; VStr "No"; VStr "No"]);
        ("Lanes", [VInt 2; VInt 5; VInt 5; VInt 1]);
        ("Clear", [VStr "Yes"; VStr "No"; VStr "Yes"; VStr "Yes"]);
        ("Partly", [VStr "No"; VStr "No"; VStr "No"; VStr "No"]);
        ("Overcast", [VStr "No"; VStr "No"; VStr "No"; VStr "No"])] |}.

(* ================================================================== *)
(** * Properties *)
(* ================================================================== *)

(** ** The scan: unfolding equations *)

Section ScanFacts.
Context {A : Type} `{PyCell A}.
Variable na : A → bool.
Variable look : bool.
Variable k : Z.

Lemma run_after_le (v : A) (t : list A) : (run_after v t ≤ length t)%nat.
Proof. induction t as [|x t IH]; simpl; [lia|]. destruct (py_eqb x v); simpl; lia. Qed.

Lemma scan_length fuel p l : length (scan na look k fuel p l) = length l.
Proof.
  revert p l. induction fuel as [|fuel IH]; intros p l; cbn [scan]; [done|].
  destruct l as [|v t]; [done|].
  destruct (na v); [simpl; by rewrite IH|].
  pose proof (run_after_le v t) as Hle. cbv zeta.
  destruct (spike _ _ _ _ _ _ _); rewrite length_app, IH.
  - rewrite length_replicate. cbn [drop length]. rewrite length_drop. lia.
  - rewrite length_take. cbn [drop length]. rewrite length_drop. lia.
Qed.

Lemma scan_fuel fuel fuel' p l :
  (length l ≤ fuel)%nat → (length l ≤ fuel')%nat →
  scan na look k fuel p l = scan na look k fuel' p l.
Proof.
  revert fuel' p l. induction fuel as [|fuel IH]; intros fuel' p l Hf Hf'.
  - destruct l; [|simpl in Hf; lia]. by destruct fuel'.
  - destruct fuel' as [|fuel'].
    + destruct l; [done|simpl in Hf'; lia].
    + cbn [scan]. destruct l as [|v t]; [done|]. simpl in Hf, Hf'.
      destruct (na v); [f_equal; apply IH; lia|].
      pose proof (run_after_le v t) as Hle. cbv zeta.
      destruct (spike _ _ _ _ _ _ _); f_equal; apply IH;
        cbn [drop]; rewrite length_drop; lia.
Qed.

Lemma scan_all_nil p : scan_all na look k p [] = [].
Proof. done. Qed.

Lemma scan_all_skip p v t :
  na v = true → scan_all na look k p (v :: t) = v :: scan_all na look k (Some v) t.
Proof. intros Hna. unfold scan_all. simpl. by rewrite Hna. Qed.

Lemma scan_all_block p v t :
  na v = false →
  scan_all na look k p (v :: t) =
    let c := S (run_after v t) in
    let l' := drop c (v :: t) in
    if spike na look k p v c (head l')
    then replicate c (subst_na na p v) ++ scan_all na look k (Some (subst_na na p v)) l'
    else take c (v :: t) ++ scan_all na look k (last (take c (v :: t))) l'.
Proof.
  intros Hna. unfold scan_all. cbn [length scan]. rewrite Hna.
  pose proof (run_after_le v t) as Hle. cbv zeta.
  destruct (spike _ _ _ _ _ _ _); f_equal; apply scan_fuel;
    cbn [drop]; rewrite ?length_drop; lia.
Qed.

Lemma scan_all_length p l : length (scan_all na look k p l) = length l.
Proof. apply scan_length. Qed.

End ScanFacts.

(** ** The three loops are instances of the scan *)

Section LoopsAsScan.
Context {A : Type} `{PyCell A}.

Lemma last_replicate_S (n : nat) (x : A) : last (replicate (S n) x) = Some x.
Proof. induction n as [|n IH]; [done|]. cbn [replicate] in *. by rewrite last_cons_cons. Qed.

Lemma overwrite_app (pre l : list A) (c : nat) (x : A) :
  (c ≤ length l)%nat →
  overwrite (pre ++ l) (length pre) c x = pre ++ replicate c x ++ drop c l.
Proof.
  intros Hc. unfold overwrite.
  rewrite <-(Nat.add_0_r (length pre)), list_inserts_app_r. f_equal.
  rewrite <-(take_drop c l) at 1. apply list_inserts_0_r.
  rewrite length_replicate, length_take. lia.
Qed.

Lemma block_count_app (pre t : list A) (v : A) :
  block_count (pre ++ v :: t) (length pre) v = S (run_after v t).
Proof.
  unfold block_count. f_equal. f_equal.
  rewrite cons_middle, app_assoc.
  replace (S (length pre)) with (length (pre ++ [v])) by (rewrite length_app; simpl; lia).
  apply drop_app_length.
Qed.

Lemma prev_of_app (pre l : list A) (v : A) :
  prev_of (pre ++ l) (length pre) v = default v (last pre).
Proof.
  unfold prev_of. destruct (length pre) as [|n] eqn:Hn.
  - by destruct pre.
  - rewrite last_lookup, Hn. simpl. rewrite lookup_app_l by lia. done.
Qed.

Lemma next_of_app (pre l : list A) (c : nat) (v : A) :
  next_of (pre ++ l) (length pre) c v = default v (head (drop c l)).
Proof.
  unfold next_of. rewrite lookup_app_r by lia.
  rewrite head_lookup, lookup_drop. do 2 f_equal. lia.
Qed.

Lemma subst_isna_default (o : option A) (v : A) :
  (if isna (default v o) then v else default v o) = subst_na isna o v.
Proof. destruct o as [q|]; simpl; [done|]. by destruct (isna v). Qed.

Lemma subst_none_default (o : option A) (v : A) :
  default v o = subst_na (λ _, false) o v.
Proof. by destruct o. Qed.

Lemma plane_loop_scan (k : Z) (fuel : nat) (pre l : list A) :
  plane_loop fuel k (pre ++ l) (length pre) = pre ++ scan isna true k fuel (last pre) l.
Proof.
  revert pre l. induction fuel as [|fuel IH]; intros pre l; [done|].
  cbn [plane_loop scan].
  destruct l as [|v t].
  { rewrite lookup_ge_None_2 by (rewrite length_app; simpl; lia). done. }
  rewrite list_lookup_middle by done.
  destruct (isna v) eqn:Hv.
  - rewrite cons_middle, app_assoc.
    replace (length pre + 1)%nat with (length (pre ++ [v])) by (rewrite length_app; done).
    rewrite IH, last_snoc, <-app_assoc. done.
  - cbv zeta. rewrite block_count_app, prev_of_app, next_of_app, !subst_isna_default.
    pose proof (run_after_le v t) as Hle.
    set (c := S (run_after v t)).
    assert (Hc : (c ≤ length (v :: t))%nat) by (subst c; simpl; lia).
    unfold spike.
    destruct (py_neb v (subst_na isna (last pre) v)
              && py_neb v (subst_na isna (head (drop c (v :: t))) v)
              && (Z.of_nat c <? k)%Z).
    + rewrite overwrite_app by done. rewrite app_assoc.
      replace (length pre + c)%nat
        with (length (pre ++ replicate c (subst_na isna (last pre) v)))
        by (rewrite length_app, length_replicate; done).
      rewrite IH, <-app_assoc. do 3 f_equal.
      subst c. rewrite <-last_replicate_S with (n := run_after v t).
      cbn [replicate]. by rewrite last_app_cons.
    + rewrite <-(take_drop c (v :: t)) at 1. rewrite app_assoc.
      replace (length pre + c)%nat with (length (pre ++ take c (v :: t)))
        by (rewrite length_app, length_take; lia).
      rewrite IH, <-app_assoc. do 3 f_equal.
      subst c. cbn [take]. by rewrite last_app_cons.
Qed.

Lemma lanes_loop_scan (k : Z) (fuel : nat) (pre l : list A) :
  lanes_loop fuel k (pre ++ l) (length pre)
  = pre ++ scan (λ _, false) true k fuel (last pre) l.
Proof.
  revert pre l. induction fuel as [|fuel IH]; intros pre l; [done|].
  cbn [lanes_loop scan].
  destruct l as [|v t].
  { rewrite lookup_ge_None_2 by (rewrite length_app; simpl; lia). done. }
  rewrite list_lookup_middle by done.
  cbv zeta. rewrite block_count_app, prev_of_app, next_of_app, !subst_none_default.
  pose proof (run_after_le v t) as Hle.
  set (c := S (run_after v t)).
  assert (Hc : (c ≤ length (v :: t))%nat) by (subst c; simpl; lia).
  unfold spike.
  destruct (py_neb v (subst_na (λ _, false) (last pre) v)
            && py_neb v (subst_na (λ _, false) (head (drop c (v :: t))) v)
            && (Z.of_nat c <? k)%Z).
  - rewrite overwrite_app by done. rewrite app_assoc.
    replace (length pre + c)%nat
      with (length (pre ++ replicate c (subst_na (λ _, false) (last pre) v)))
      by (rewrite length_app, length_replicate; done).
    rewrite IH, <-app_assoc. do 3 f_equal.
    subst c. rewrite <-last_replicate_S with (n := run_after v t).
    cbn [replicate]. by rewrite last_app_cons.
  - rewrite <-(take_drop c (v :: t)) at 1. rewrite app_assoc.
    replace (length pre + c)%nat with (length (pre ++ take c (v :: t)))
      by (rewrite length_app, length_take; lia).
    rewrite IH, <-app_assoc. do 3 f_equal.
    subst c. cbn [take]. by rewrite last_app_cons.
Qed.

Lemma yes_no_loop_scan (k : Z) (fuel : nat) (pre l : list A) :
  pre ≠ [] →
  yes_no_loop fuel k (pre ++ l) (length pre)
  = pre ++ scan (λ _, false) false k fuel (last pre) l.
Proof.
  revert pre l. induction fuel as [|fuel IH]; intros pre l Hpre; [done|].
  cbn [yes_no_loop scan].
  destruct l as [|v t].
  { rewrite lookup_ge_None_2 by (rewrite length_app; simpl; lia). done. }
  rewrite list_lookup_middle by done.
  cbv zeta. rewrite block_count_app.
  pose proof (run_after_le v t) as Hle.
  set (c := S (run_after v t)).
  assert (Hc : (c ≤ length (v :: t))%nat) by (subst c; simpl; lia).
  assert (Hlast : (pre ++ v :: t) !! (length pre - 1)%nat = last pre).
  { rewrite last_lookup, lookup_app_l; [f_equal; lia|].
    destruct pre; [done|simpl; lia]. }
  rewrite Hlast.
  destruct (last pre) as [q|] eqn:Hq; [|apply last_is_Some in Hpre as [? ?]; congruence].
  unfold spike, subst_na.
  assert (Hkeep : yes_no_loop fuel k (pre ++ v :: t) (length pre + c)
    = pre ++ take c (v :: t) ++ scan (λ _, false) false k fuel
        (last (take c (v :: t))) (drop c (v :: t))).
  { rewrite <-(take_drop c (v :: t)) at 1. rewrite app_assoc.
    replace (length pre + c)%nat with (length (pre ++ take c (v :: t)))
      by (rewrite length_app, length_take; lia).
    rewrite IH, <-app_assoc by (by destruct pre). do 3 f_equal.
    subst c. cbn [take]. by rewrite last_app_cons. }
  destruct (Z.of_nat c <? k)%Z; [|by rewrite andb_false_r].
  destruct (py_neb v q); [|done].
  cbn [andb]. rewrite overwrite_app by done. rewrite app_assoc.
  replace (length pre + c)%nat with (length (pre ++ replicate c q))
    by (rewrite length_app, length_replicate; done).
  rewrite IH, <-app_assoc by (by destruct pre). do 3 f_equal.
  subst c. rewrite <-last_replicate_S with (n := run_after v t).
  cbn [replicate]. by rewrite last_app_cons.
Qed.

Lemma correct_horizontal_plane_scan (s : list A) (k : Z) :
  correct_horizontal_plane s k = scan_all isna true k None s.
Proof. apply (plane_loop_scan k (length s) [] s). Qed.

Lemma correct_number_of_lanes_scan (s : list A) (k : Z) :
  correct_number_of_lanes s k = scan_all (λ _, false) true k None s.
Proof. apply (lanes_loop_scan k (length s) [] s). Qed.

Lemma correct_yes_no_sequence_scan (x : A) (t : list A) (k : Z) :
  correct_yes_no_sequence (x :: t) k = x :: scan_all (λ _, false) false k (Some x) t.
Proof.
  unfold correct_yes_no_sequence.
  change (x :: t) with ([x] ++ t) at 2. change 1%nat with (length [x]).
  rewrite yes_no_loop_scan by done.
  cbn [app last]. f_equal. apply scan_fuel; simpl; lia.
Qed.

Lemma correct_yes_no_sequence_nil (k : Z) : correct_yes_no_sequence ([] : list A) k = [].
Proof. done. Qed.

End LoopsAsScan.

(** ** Runs of equal cells *)

Section Runs.
Context {A : Type} `{PyCell A} `{!PyCellLaws A}.

Lemma py_eqb_refl_l (x y : A) : py_eqb x y = true → py_eqb x x = true.
Proof. intros Hxy. apply (py_eqb_trans x y x); [done|]. by rewrite py_eqb_sym. Qed.

Lemma py_eqb_refl_r (x y : A) : py_eqb x y = true → py_eqb y y = true.
Proof. intros Hxy. apply (py_eqb_trans y x y); [|done]. by rewrite py_eqb_sym. Qed.

Lemma py_eqb_proper_r (x y z : A) : py_eqb y z = true → py_eqb x y = py_eqb x z.
Proof.
  intros Hyz. destruct (py_eqb x y) eqn:Hxy, (py_eqb x z) eqn:Hxz; try done.
  - rewrite (py_eqb_trans x y z) in Hxz; done.
  - rewrite py_eqb_sym in Hyz. rewrite (py_eqb_trans x z y) in Hxy; done.
Qed.

Lemma run_after_proper (e v : A) (t : list A) :
  py_eqb e v = true → run_after e t = run_after v t.
Proof.
  intros Hev. induction t as [|x t IH]; [done|]. simpl.
  by rewrite (py_eqb_proper_r x e v), IH.
Qed.

Lemma run_after_app (v : A) (b Y : list A) :
  Forall (λ x, py_eqb x v = true) b →
  run_after v (b ++ Y) = (length b + run_after v Y)%nat.
Proof. induction 1 as [|x b Hx _ IH]; [done|]. simpl. by rewrite Hx, IH. Qed.

Lemma run_after_take (v : A) (t : list A) :
  Forall (λ x, py_eqb x v = true) (take (run_after v t) t).
Proof.
  induction t as [|x t IH]; simpl; [constructor|].
  destruct (py_eqb x v) eqn:Hx; simpl; [by constructor|constructor].
Qed.

Lemma run_after_drop (v q : A) (t : list A) :
  head (drop (run_after v t) t) = Some q → py_eqb q v = false.
Proof.
  induction t as [|x t IH]; simpl; [done|].
  destruct (py_eqb x v) eqn:Hx; simpl; [done|]. by intros [= <-].
Qed.

Lemma run_after_0 (v : A) (t : list A) :
  (∀ q, head t = Some q → py_eqb q v = false) → run_after v t = 0%nat.
Proof. destruct t as [|x t]; [done|]. intros Hq. simpl. by rewrite (Hq x). Qed.

Lemma run_after_pos (v : A) (t : list A) :
  (0 < run_after v t)%nat → ∃ y t', t = y :: t' ∧ py_eqb y v = true.
Proof.
  destruct t as [|y t']; simpl; [lia|].
  destruct (py_eqb y v) eqn:Hy; [eauto|lia].
Qed.

Lemma run_after_irrefl (x : A) (t : list A) :
  py_eqb x x = false → run_after x t = 0%nat.
Proof.
  intros Hx. apply run_after_0. intros q _.
  destruct (py_eqb q x) eqn:Hq; [|done]. by rewrite (py_eqb_refl_r q x) in Hx.
Qed.

End Runs.

(** ** Re-scanning a scanned sequence changes nothing *)

Section ScanIdempotent.
Context {A : Type} `{PyCell A} `{!PyCellLaws A}.
Variable na : A → bool.
Hypothesis na_proper : ∀ x y : A, py_eqb x y = true → na x = na y.
Variable look : bool.
Variable k : Z.

Lemma subst_na_idem (p : option A) (v : A) :
  subst_na na p (subst_na na p v) = subst_na na p v.
Proof. destruct p as [q|]; simpl; [|done]. by destruct (na q). Qed.

Lemma subst_na_not_na (p : option A) (v : A) :
  na v = false → na (subst_na na p v) = false.
Proof. destruct p as [q|]; simpl; [|done]. by destruct (na q) eqn:Hq. Qed.

Lemma subst_na_self (e : A) (v : A) : na e = false → subst_na na (Some e) v = e.
Proof. intros He. simpl. by rewrite He. Qed.

(** A block that is kept absorbs the equal cells that follow it. *)
Lemma scan_all_keep (p : option A) (v : A) (b' Y : list A) :
  na v = false →
  Forall (λ x, py_eqb x v = true) b' →
  spike na look k p v (S (length b' + run_after v Y))
    (head (drop (run_after v Y) Y)) = false →
  scan_all na look k (last ((v :: b') ++ take (run_after v Y) Y))
    (drop (run_after v Y) Y) = drop (run_after v Y) Y →
  scan_all na look k p ((v :: b') ++ Y) = (v :: b') ++ Y.
Proof.
  intros Hv Hb Hsp Htail.
  cbn [app]. rewrite scan_all_block by done. cbv zeta.
  rewrite run_after_app by done. cbn [drop take].
  rewrite drop_app_add, take_app_add, Hsp.
  cbn [app] in Htail. rewrite Htail. cbn [app]. by rewrite <-app_assoc, take_drop.
Qed.

Lemma scan_all_tail (e : A) (Y : list A) :
  na e = false →
  scan_all na look k (Some e) Y = Y →
  (0 < run_after e Y)%nat →
  scan_all na look k (last (take (run_after e Y) Y)) (drop (run_after e Y) Y)
  = drop (run_after e Y) Y.
Proof.
  intros He HY Hd. destruct (run_after_pos _ _ Hd) as (y & Y' & -> & Hy).
  assert (Hny : na y = false) by (by rewrite (na_proper y e)).
  assert (Hey : py_eqb e y = true) by (by rewrite py_eqb_sym).
  rewrite scan_all_block in HY by done. cbv zeta in HY.
  assert (Hsp : ∀ c nxt, spike na look k (Some e) y c nxt = false).
  { intros c nxt. unfold spike. rewrite subst_na_self by done.
    unfold py_neb. by rewrite Hy. }
  rewrite Hsp in HY.
  cbn [run_after]. rewrite Hy, (run_after_proper e y) by done.
  apply (app_inv_head (take (S (run_after y Y')) (y :: Y'))).
  by rewrite take_drop.
Qed.

Lemma scan_all_tail_last (e v : A) (b Y : list A) :
  na e = false → last b = Some e →
  py_eqb e v = true ∨ e = v →
  scan_all na look k (Some e) Y = Y →
  scan_all na look k (last (b ++ take (run_after v Y) Y)) (drop (run_after v Y) Y)
  = drop (run_after v Y) Y.
Proof.
  intros He Hb Hev HY.
  destruct (run_after v Y) as [|d] eqn:Hd.
  { by rewrite take_0, app_nil_r, drop_0, Hb. }
  assert (Hpos : (0 < run_after v Y)%nat) by lia.
  destruct (run_after_pos _ _ Hpos) as (y & Y' & -> & Hy).
  assert (Hev' : py_eqb e v = true).
  { destruct Hev as [Hev| ->]; [done|]. by apply (py_eqb_refl_r y v). }
  rewrite <-Hd, <-(run_after_proper e v) by done.
  rewrite <-(run_after_proper e v) in Hpos by done.
  rewrite last_app.
  pose proof (scan_all_tail e (y :: Y') He HY Hpos) as Ht.
  destruct (last (take (run_after e (y :: Y')) (y :: Y'))) eqn:Hl; [done|].
  apply last_None in Hl.
  destruct (run_after e (y :: Y')); [lia|done].
Qed.

(** A cell that is not equal to itself is a block of its own, and is
    overwritten by whatever stands in front of it. *)
Lemma scan_all_irrefl (p : option A) (x : A) (Y : list A) :
  py_eqb x x = false → na x = false → (1 <? k)%Z = true →
  scan_all na look k p (x :: Y)
  = subst_na na p x :: scan_all na look k (Some (subst_na na p x)) Y.
Proof.
  intros Hx Hnx Hk. rewrite scan_all_block by done. cbv zeta.
  rewrite run_after_irrefl by done.
  assert (Hne : ∀ y, py_neb x y = true).
  { intros y. unfold py_neb. destruct (py_eqb x y) eqn:Hxy; [|done].
    by rewrite (py_eqb_refl_l x y) in Hx. }
  unfold spike. rewrite !Hne. change (Z.of_nat 1) with 1%Z. rewrite Hk.
  by destruct look.
Qed.

Lemma scan_all_irrefl_run (x : A) (m : nat) (Y : list A) :
  py_eqb x x = false → na x = false → (1 <? k)%Z = true →
  scan_all na look k (Some x) Y = Y →
  scan_all na look k (Some x) (replicate m x ++ Y) = replicate m x ++ Y.
Proof.
  intros Hx Hnx Hk HY. induction m as [|m IH]; [done|].
  cbn [replicate app]. rewrite scan_all_irrefl, subst_na_self by done.
  by rewrite IH.
Qed.

Lemma spike_kept_again (p : option A) (v e : A) (t : list A) :
  na v = false →
  let r := run_after v t in
  let Y := scan_all na look k (Some e) (drop r t) in
  spike na look k p v (S r) (head (drop r t)) = false →
  spike na look k p v (S (length (take r t) + run_after v Y))
    (head (drop (run_after v Y) Y)) = false.
Proof.
  intros Hv r Y Hsp.
  pose proof (run_after_le v t) as Hle.
  unfold spike in *.
  destruct (py_neb v (subst_na na p v)); [|done]. cbn [andb] in *.
  destruct (Z.of_nat (S r) <? k)%Z eqn:Hk; cycle 1.
  { rewrite andb_false_iff. right.
    rewrite length_take. apply Z.ltb_ge. apply Z.ltb_ge in Hk. lia. }
  rewrite andb_true_r in Hsp.
  destruct look; [|done].
  assert (HY : run_after v Y = 0%nat ∧ head Y = head (drop r t)).
  { subst Y. destruct (drop r t) as [|q l''] eqn:Hl'; [done|].
    assert (Hq : py_eqb q v = false).
    { apply (run_after_drop v q t). fold r. by rewrite Hl'. }
    cbn [head subst_na] in Hsp. destruct (na q) eqn:Hnq.
    - rewrite scan_all_skip by done. simpl. by rewrite Hq.
    - unfold py_neb in Hsp. rewrite py_eqb_sym, Hq in Hsp. done. }
  destruct HY as [HY1 HY2]. by rewrite HY1, drop_0, HY2, Hsp.
Qed.

Theorem scan_all_idempotent (p : option A) (l : list A) :
  scan_all na look k p (scan_all na look k p l) = scan_all na look k p l.
Proof.
  remember (length l) as n eqn:Hn. revert p l Hn.
  induction n as [n IH] using lt_wf_ind. intros p l ->.
  destruct l as [|v t]; [done|].
  destruct (na v) eqn:Hv.
  { rewrite scan_all_skip by done. rewrite scan_all_skip by done.
    f_equal. eapply IH; [|done]. simpl; lia. }
  rewrite scan_all_block by done. cbv zeta.
  pose proof (run_after_le v t) as Hle.
  cbn [drop take].
  set (r := run_after v t) in *.
  assert (Hlen : (length (drop r t) < length (v :: t))%nat)
    by (rewrite length_drop; simpl; lia).
  destruct (spike na look k p v (S r) (head (drop r t))) eqn:Hsp.
  - (* the block is overwritten *)
    set (prv := subst_na na p v) in *.
    pose proof (IH _ Hlen (Some prv) _ eq_refl) as HY.
    set (Y := scan_all na look k (Some prv) (drop r t)) in *.
    assert (Hnp : na prv = false) by (by apply subst_na_not_na).
    assert (Hk1 : (1 <? k)%Z = true).
    { unfold spike in Hsp. apply andb_true_iff in Hsp as [_ Hsp].
      apply Z.ltb_lt. apply Z.ltb_lt in Hsp. lia. }
    destruct (py_eqb prv prv) eqn:Hrefl.
    + cbn [replicate]. apply scan_all_keep; [done| | |].
      * apply Forall_replicate. done.
      * assert (Hs : subst_na na p prv = prv) by apply subst_na_idem.
        unfold spike. rewrite Hs. unfold py_neb. by rewrite Hrefl.
      * apply (scan_all_tail_last prv); [done| |by left|done].
        rewrite <-(last_replicate_S r prv). done.
    + assert (Hs : subst_na na p prv = prv) by apply subst_na_idem.
      cbn [replicate app]. rewrite scan_all_irrefl, Hs by done. f_equal.
      by apply scan_all_irrefl_run.
  - (* the block is kept *)
    assert (Hb : Forall (λ x, py_eqb x v = true) (take r t)) by apply run_after_take.
    destruct (last (v :: take r t)) as [e|] eqn:He; [|by apply last_None in He].
    pose proof (IH _ Hlen (Some e) _ eq_refl) as HY.
    assert (Hev : py_eqb e v = true ∨ e = v).
    { rewrite last_cons in He. destruct (last (take r t)) as [e'|] eqn:He'.
      - left. injection He as <-. rewrite Forall_forall in Hb. apply Hb.
        by apply last_Some_elem_of.
      - right. congruence. }
    assert (Hne : na e = false).
    { destruct Hev as [Hev| ->]; [|done]. by rewrite (na_proper e v). }
    apply scan_all_keep; [done|done| |].
    + by apply spike_kept_again.
    + by apply (scan_all_tail_last e).
Qed.

End ScanIdempotent.

(** ** Python's equality on table cells *)

Lemma extnum_eqb_sym (a b : extnum) : extnum_eqb a b = extnum_eqb b a.
Proof. destruct a, b; simpl; try done. apply Qeq_bool_comm. Qed.

Lemma extnum_eqb_trans (a b c : extnum) :
  extnum_eqb a b = true → extnum_eqb b c = true → extnum_eqb a c = true.
Proof. destruct a, b, c; simpl; try done. apply Qeq_bool_trans. Qed.

Lemma value_eqb_num (x y : value) :
  value_eqb x y = true →
  (∃ a b, x = VStr a ∧ y = VStr b ∧ a = b) ∨ (x = VNone ∧ y = VNone)
  ∨ (∃ a b, num_of x = Some a ∧ num_of y = Some b ∧ extnum_eqb a b = true).
Proof.
  unfold value_eqb. intros Hxy.
  destruct x as [a|z1|f1|b1|], y as [b|z2|f2|b2|];
    try (left; apply bool_decide_eq_true in Hxy; by eauto);
    try (right; left; done);
    right; right;
    destruct (num_of _) as [n1|] eqn:H1 in Hxy; try discriminate Hxy;
    destruct (num_of _) as [n2|] eqn:H2 in Hxy; try discriminate Hxy;
    eauto.
Qed.

Lemma value_eqb_of_num (x y : value) (a b : extnum) :
  num_of x = Some a → num_of y = Some b → value_eqb x y = extnum_eqb a b.
Proof.
  intros Ha Hb. unfold value_eqb.
  destruct x, y; try discriminate Ha; try discriminate Hb; by rewrite Ha, Hb.
Qed.

Lemma value_laws : PyCellLaws value.
Proof.
  split; cbn [py_eqb isna value_cell].
  - intros x y.
    destruct (value_eqb x y) eqn:Hxy.
    + destruct (value_eqb_num _ _ Hxy)
        as [(a & b & -> & -> & ->)|[[-> ->]|(a & b & Ha & Hb & Hab)]].
      * symmetry. by apply bool_decide_eq_true.
      * done.
      * rewrite (value_eqb_of_num y x b a), extnum_eqb_sym by done. done.
    + destruct (value_eqb y x) eqn:Hyx; [|done].
      destruct (value_eqb_num _ _ Hyx)
        as [(a & b & -> & -> & ->)|[[-> ->]|(a & b & Ha & Hb & Hab)]].
      * congruence.
      * done.
      * rewrite (value_eqb_of_num x y b a), extnum_eqb_sym, Hab in Hxy by done. done.
  - intros x y z Hxy Hyz.
    destruct (value_eqb_num _ _ Hxy)
      as [(a & b & -> & -> & ->)|[[-> ->]|(a & b & Ha & Hb & Hab)]];
    destruct (value_eqb_num _ _ Hyz)
      as [(a' & b' & Ha' & -> & ->)|[[Hn ->]|(a' & b' & Ha' & Hb' & Hab')]];
      try done; try congruence.
    rewrite Hb in Ha'. injection Ha' as <-.
    rewrite (value_eqb_of_num x z a b') by done.
    by apply (extnum_eqb_trans a b b').
  - intros x y Hxy.
    destruct (value_eqb_num _ _ Hxy)
      as [(a & b & -> & -> & ->)|[[-> ->]|(a & b & Ha & Hb & Hab)]];
      [done|done|].
    unfold value_isna.
    destruct x, y; try discriminate Ha; try discriminate Hb; try done;
      cbn [num_of] in Ha, Hb; rewrite ?Ha, ?Hb; done.
Qed.

#[global] Existing Instance value_laws.

(** ** Run-length smoothing leaves no short block *)

Section YesNoBlocks.
Context {A : Type} `{PyCell A} `{!PyCellLaws A}.
Variable k : Z.

Lemma run_after_unique (v : A) (t : list A) (r : nat) :
  (∀ j x, (j < r)%nat → t !! j = Some x → py_eqb x v = true) →
  (∀ x, t !! r = Some x → py_eqb x v = false) →
  (r ≤ length t)%nat →
  run_after v t = r.
Proof.
  revert r. induction t as [|y t IH]; intros r Hin Hout Hr.
  - simpl in Hr. simpl. lia.
  - simpl. destruct r as [|r].
    + by rewrite (Hout y).
    + rewrite (Hin 0%nat y) by (done || lia). f_equal. apply IH.
      * intros j x Hj Hx. apply (Hin (S j) x); [lia|done].
      * intros x Hx. by apply Hout.
      * simpl in Hr. lia.
Qed.

Lemma is_block_cons (x : A) (l : list A) (i c : nat) :
  is_block (x :: l) (S i) c → is_block l i c.
Proof.
  intros (Hc & Hlen & v & Hv & Hin & Hpre & Hpost).
  split; [done|]. split; [simpl in Hlen; lia|].
  exists v. split; [done|]. split; [|split].
  - intros j y Hj Hy. apply (Hin (S j) y); [lia|done].
  - intros j y Hj Hy. apply (Hpre (S j) y); [lia|done].
  - intros y Hy. by apply Hpost.
Qed.

Lemma settled_blocks (x : A) (l : list A) :
  settled k x l = true →
  ∀ i c, (0 < i)%nat → is_block (x :: l) i c → (k ≤ Z.of_nat c)%Z.
Proof.
  revert x. induction l as [|v t IH]; intros x Hs i c Hi Hb.
  { destruct Hb as (Hc & Hlen & _). simpl in Hlen. lia. }
  cbn [settled] in Hs. apply andb_true_iff in Hs as [Hv Hs].
  destruct i as [|[|i]]; [lia| |].
  - destruct Hb as (Hc & Hlen & w & Hw & Hin & Hpre & Hpost).
    injection Hw as <-.
    rewrite (Hpre 0%nat x) in Hv by done.
    cbn [orb] in Hv. apply Z.leb_le in Hv.
    assert (Hr : run_after v t = (c - 1)%nat).
    { apply run_after_unique.
      - intros j y Hj Hy. apply (Hin (S (S j)) y); [lia|done].
      - intros y Hy. apply Hpost. simpl. by replace c with (S (c - 1)) by lia.
      - simpl in Hlen. lia. }
    rewrite Hr in Hv. lia.
  - apply (IH v Hs (S i) c); [lia|]. by apply (is_block_cons x).
Qed.

Lemma settled_replicate (e : A) (n : nat) (Y : list A) :
  py_eqb e e = true → settled k e (replicate n e ++ Y) = settled k e Y.
Proof. intros He. induction n as [|n IH]; [done|]. simpl. by rewrite He, IH. Qed.

Lemma settled_run (v : A) (b Y : list A) :
  Forall (λ x, py_eqb x v = true) b →
  settled k v (b ++ Y) = settled k (default v (last b)) Y.
Proof.
  revert v. induction b as [|x b IH]; intros v Hb; [done|].
  apply Forall_cons in Hb as [Hx Hb].
  cbn [app settled]. rewrite Hx. cbn [orb andb].
  rewrite IH.
  - rewrite last_cons. by destruct (last b).
  - eapply Forall_impl; [exact Hb|]. intros y Hy. simpl in Hy.
    rewrite (py_eqb_proper_r y x v); done.
Qed.

Lemma scan_yes_no_settled (e : A) (l : list A) :
  Forall (λ x, py_eqb x x = true) (e :: l) →
  settled k e (scan_all (λ _, false) false k (Some e) l) = true.
Proof.
  remember (length l) as n eqn:Hn. revert e l Hn.
  induction n as [n IH] using lt_wf_ind. intros e l -> Hrefl.
  destruct l as [|v t]; [done|].
  apply Forall_cons in Hrefl as [He Hrefl].
  rewrite scan_all_block by done. cbv zeta. cbn [drop take].
  pose proof (run_after_le v t) as Hle.
  set (r := run_after v t) in *.
  assert (Hlen : (length (drop r t) < length (v :: t))%nat)
    by (rewrite length_drop; simpl; lia).
  assert (Hdrop : Forall (λ x, py_eqb x x = true) (drop r t)).
  { apply Forall_cons in Hrefl as [_ Ht]. by apply Forall_drop. }
  unfold spike. cbn [subst_na]. rewrite andb_true_r.
  destruct (py_neb v e && (Z.of_nat (S r) <? k)%Z) eqn:Hsp.
  - rewrite settled_replicate by done.
    apply (IH _ Hlen); [done|]. by apply Forall_cons.
  - assert (Hb : Forall (λ x, py_eqb x v = true) (take r t)) by apply run_after_take.
    cbn [app settled]. rewrite run_after_app, length_take by done.
    rewrite settled_run by done.
    replace (py_eqb v e || (k <=? Z.of_nat (S (r `min` length t + run_after v
      (scan_all (λ _, false) false k (last (v :: take r t)) (drop r t)))))%Z)
      with true; cycle 1.
    { symmetry. apply andb_false_iff in Hsp as [Hsp|Hsp].
      - unfold py_neb in Hsp. apply negb_false_iff in Hsp. by rewrite Hsp.
      - apply orb_true_iff. right. apply Z.leb_le. apply Z.ltb_ge in Hsp. lia. }
    cbn [andb]. rewrite last_cons.
    destruct (last (take r t)) as [e'|] eqn:He'; cbn [default].
    + apply (IH _ Hlen); [done|]. apply Forall_cons. split; [|done].
      apply last_Some_elem_of in He'.
      apply Forall_cons in Hrefl as [_ Ht].
      rewrite Forall_forall in Ht. apply Ht.
      by apply (subseteq_take r t).
    + apply (IH _ Hlen); [done|]. apply Forall_cons. split; [|done].
      by apply Forall_cons in Hrefl as [? _].
Qed.

End YesNoBlocks.

(** ** What the scan does to each block *)

Section ScanBlocks.
Context {A : Type} `{PyCell A} `{!PyCellLaws A}.
Variable na : A → bool.
Hypothesis na_proper : ∀ x y : A, py_eqb x y = true → na x = na y.
Variable look : bool.
Variable k : Z.

Lemma is_block_app (lb l : list A) (i c : nat) :
  is_block (lb ++ l) (length lb + i) c → is_block l i c.
Proof.
  induction lb as [|x lb IH]; [done|].
  intros Hb. apply IH. by apply (is_block_cons x).
Qed.

(** A block cannot start inside the run of equal cells at the head. *)
Lemma is_block_after_run (v0 : A) (t : list A) (i c : nat) :
  is_block (v0 :: t) (S i) c → (run_after v0 t ≤ i)%nat.
Proof.
  intros (Hc & Hlen & v & Hv & Hin & Hpre & Hpost).
  destruct (decide (run_after v0 t ≤ i)%nat) as [|Hlt]; [done|exfalso].
  pose proof (run_after_take v0 t) as Hrun.
  assert (Hget : ∀ j x, (j < run_after v0 t)%nat → t !! j = Some x → py_eqb x v0 = true).
  { intros j x Hj Hx. eapply (Forall_lookup_1 _ _ j x Hrun).
    by rewrite lookup_take_lt. }
  assert (Hvv0 : py_eqb v v0 = true) by (apply (Hget i v); [lia|done]).
  destruct i as [|i].
  - by rewrite (Hpre 0%nat v0) in Hvv0.
  - destruct (t !! i) as [x|] eqn:Hx.
    + assert (Hxv0 : py_eqb x v0 = true) by (apply (Hget i x); [lia|done]).
      specialize (Hpre (S i) x eq_refl Hx).
      rewrite (py_eqb_proper_r v x v0), Hvv0 in Hpre; done.
    + apply lookup_ge_None in Hx. simpl in Hlen. lia.
Qed.

Lemma block_verdict_app (p p' : option A) (lb ob l Y : list A) (i c : nat) (v : A) :
  length ob = length lb → lb ≠ [] → last ob = p' →
  block_verdict na look k p' l Y i c v →
  block_verdict na look k p (lb ++ l) (ob ++ Y) (length lb + i) c v.
Proof.
  intros Hlen Hlb Hlast Hv j Hj.
  assert (Hpos : (0 < length lb)%nat) by (destruct lb; [done|simpl; lia]).
  specialize (Hv (j - length lb)%nat).
  rewrite lookup_app_r by lia. rewrite Hlen, Hv by lia. cbv zeta.
  replace (lb ++ l) with (lb ++ l) by done.
  rewrite (lookup_app_r lb l (length lb + i + c)) by lia.
  replace (length lb + i + c - length lb)%nat with (i + c)%nat by lia.
  rewrite (lookup_app_r lb l j) by lia.
  assert (Hpv : match (length lb + i)%nat with
                | O => p
                | S i' => (ob ++ Y) !! i'
                end = match i with O => p' | S i' => Y !! i' end).
  { destruct (length lb + i)%nat as [|n] eqn:Hn; [lia|].
    destruct i as [|i'].
    - rewrite lookup_app_l by lia. rewrite <-Hlast, last_lookup. f_equal. lia.
    - rewrite lookup_app_r by lia. f_equal. lia. }
  by rewrite Hpv.
Qed.

Lemma scan_all_blocks (p : option A) (l : list A) (i c : nat) (v : A) :
  is_block l i c → l !! i = Some v → na v = false →
  block_verdict na look k p l (scan_all na look k p l) i c v.
Proof.
  remember (length l) as n eqn:Hn. revert p l i Hn.
  induction n as [n IH] using lt_wf_ind. intros p l i -> Hb Hv Hnv.
  destruct l as [|v0 t].
  { destruct Hb as (Hc & Hlen & _). simpl in Hlen. lia. }
  destruct (na v0) eqn:Hv0.
  { rewrite scan_all_skip by done.
    destruct i as [|i]; [simpl in Hv; congruence|].
    apply (block_verdict_app p (Some v0) [v0] [v0] t _ i c v); [done|done|done|].
    apply (IH (length t)); [simpl; lia|done| |done|done].
    by apply (is_block_cons v0). }
  rewrite scan_all_block by done. cbv zeta.
  pose proof (run_after_le v0 t) as Hle.
  set (r := run_after v0 t) in *.
  destruct i as [|i].
  - (* the block at the head *)
    injection Hv as ->.
    assert (Hc : c = S r).
    { destruct Hb as (Hc & Hlen & w & Hw & Hin & Hpre & Hpost).
      injection Hw as <-.
      assert (Hr : r = (c - 1)%nat); [|lia].
      apply run_after_unique.
      - intros j x Hj Hx. apply (Hin (S j) x); [lia|done].
      - intros x Hx. apply Hpost. simpl. by replace c with (S (c - 1)) by lia.
      - simpl in Hlen. lia. }
    subst c. intros j Hj. cbv zeta.
    rewrite head_lookup, lookup_drop, Nat.add_0_r.
    change (0 + S r)%nat with (S r).
    destruct (spike na look k p v (S r) ((v :: t) !! S r)).
    + rewrite lookup_app_l by (rewrite length_replicate; lia).
      apply lookup_replicate_2. lia.
    + rewrite lookup_app_l by (rewrite length_take; simpl; lia).
      apply lookup_take_lt. lia.
  - (* a later block *)
    pose proof (is_block_after_run v0 t i c Hb) as Hri. fold r in Hri.
    set (lb := take (S r) (v0 :: t)).
    assert (Hlb : length lb = S r) by (subst lb; rewrite length_take; simpl; lia).
    assert (Hl : v0 :: t = lb ++ drop (S r) (v0 :: t)) by (symmetry; apply take_drop).
    assert (Hi : S i = (length lb + (i - r))%nat) by lia.
    assert (Hb' : is_block (drop (S r) (v0 :: t)) (i - r) c).
    { apply (is_block_app lb). by rewrite <-Hl, <-Hi. }
    assert (Hv' : drop (S r) (v0 :: t) !! (i - r)%nat = Some v).
    { rewrite lookup_drop. by replace (S r + (i - r))%nat with (S i) by lia. }
    assert (Hlt : (length (drop (S r) (v0 :: t)) < length (v0 :: t))%nat)
      by (rewrite length_drop; simpl; lia).
    destruct (spike na look k p v0 (S r) (head (drop (S r) (v0 :: t)))).
    + pose proof (block_verdict_app p (Some (subst_na na p v0)) lb
        (replicate (S r) (subst_na na p v0)) (drop (S r) (v0 :: t))
        (scan_all na look k (Some (subst_na na p v0)) (drop (S r) (v0 :: t)))
        (i - r) c v) as Hres.
      rewrite <-Hl, <-Hi in Hres. apply Hres.
      * by rewrite length_replicate.
      * by destruct lb.
      * apply last_replicate_S.
      * by apply (IH _ Hlt).
    + pose proof (block_verdict_app p (last lb) lb lb (drop (S r) (v0 :: t))
        (scan_all na look k (last lb) (drop (S r) (v0 :: t)))
        (i - r) c v) as Hres.
      rewrite <-Hl, <-Hi in Hres. apply Hres.
      * done.
      * by destruct lb.
      * done.
      * by apply (IH _ Hlt).
Qed.

(** Missing cells stay where they are, and no missing cell is written. *)
(** A cell that is not equal to itself is a block of one for the scan,
    whatever stands next to it. *)
Lemma scan_all_unequal (p : option A) (l : list A) (j : nat) (x : A) :
  l !! j = Some x → py_eqb x x = false → na x = false →
  block_verdict na look k p l (scan_all na look k p l) j 1 x.
Proof.
  remember (length l) as n eqn:Hn. revert p l j Hn.
  induction n as [n IH] using lt_wf_ind. intros p l j -> Hx Hirr Hnx.
  destruct l as [|v0 t]; [done|].
  destruct (na v0) eqn:Hv0.
  { rewrite scan_all_skip by done.
    destruct j as [|j]; [simpl in Hx; congruence|].
    apply (block_verdict_app p (Some v0) [v0] [v0] t _ j 1 x); [done|done|done|].
    by apply (IH (length t)); [simpl; lia|..]. }
  rewrite scan_all_block by done. cbv zeta.
  pose proof (run_after_le v0 t) as Hle.
  destruct j as [|j].
  - injection Hx as ->.
    rewrite (run_after_irrefl x t) by done.
    intros j' Hj'. assert (j' = 0%nat) as -> by lia. cbv zeta.
    rewrite head_lookup, lookup_drop, Nat.add_0_r.
    change (0 + 1)%nat with 1%nat.
    by destruct (spike na look k p x 1 ((x :: t) !! 1%nat)).
  - set (r := run_after v0 t) in *.
    assert (Hri : (r ≤ j)%nat).
    { destruct (decide (r ≤ j)%nat) as [|Hlt]; [done|]. exfalso.
      pose proof (run_after_take v0 t) as Hall. fold r in Hall.
      assert (Hin : take r t !! j = Some x) by (by rewrite lookup_take_lt by lia).
      pose proof (proj1 (Forall_lookup _ _) Hall j x Hin) as Heq.
      by rewrite (py_eqb_refl_l x v0 Heq) in Hirr. }
    set (lb := take (S r) (v0 :: t)).
    assert (Hlb : length lb = S r) by (subst lb; rewrite length_take; simpl; lia).
    assert (Hl : v0 :: t = lb ++ drop (S r) (v0 :: t)) by (symmetry; apply take_drop).
    assert (Hj : S j = (length lb + (j - r))%nat) by lia.
    assert (Hx' : drop (S r) (v0 :: t) !! (j - r)%nat = Some x).
    { rewrite lookup_drop. by replace (S r + (j - r))%nat with (S j) by lia. }
    assert (Hlt : (length (drop (S r) (v0 :: t)) < length (v0 :: t))%nat)
      by (rewrite length_drop; simpl; lia).
    destruct (spike na look k p v0 (S r) (head (drop (S r) (v0 :: t)))).
    + pose proof (block_verdict_app p (Some (subst_na na p v0)) lb
        (replicate (S r) (subst_na na p v0)) (drop (S r) (v0 :: t))
        (scan_all na look k (Some (subst_na na p v0)) (drop (S r) (v0 :: t)))
        (j - r) 1 x) as Hres.
      rewrite <-Hl, <-Hj in Hres. apply Hres.
      * by rewrite length_replicate.
      * by destruct lb.
      * apply last_replicate_S.
      * by apply (IH _ Hlt).
    + pose proof (block_verdict_app p (last lb) lb lb (drop (S r) (v0 :: t))
        (scan_all na look k (last lb) (drop (S r) (v0 :: t)))
        (j - r) 1 x) as Hres.
      rewrite <-Hl, <-Hj in Hres. apply Hres.
      * done.
      * by destruct lb.
      * done.
      * by apply (IH _ Hlt).
Qed.

Lemma scan_all_na (p : option A) (l : list A) (j : nat) (x y : A) :
  l !! j = Some x → scan_all na look k p l !! j = Some y →
  na x = true ∨ na y = true → y = x.
Proof.
  remember (length l) as n eqn:Hn. revert p l j Hn.
  induction n as [n IH] using lt_wf_ind. intros p l j -> Hx Hy Hna.
  destruct l as [|v0 t]; [done|].
  destruct (na v0) eqn:Hv0.
  { rewrite scan_all_skip in Hy by done.
    destruct j as [|j]; [simpl in *; congruence|].
    apply (IH (length t)) with (p := Some v0) (l := t) (j := j); simpl; (done || lia). }
  rewrite scan_all_block in Hy by done. cbv zeta in Hy.
  pose proof (run_after_le v0 t) as Hle.
  set (r := run_after v0 t) in *.
  assert (Hrun : ∀ z, take (S r) (v0 :: t) !! j = Some z → na z = false).
  { intros z Hz. cbn [take] in Hz. destruct j as [|j].
    - injection Hz as <-. done.
    - pose proof (run_after_take v0 t) as Hrun. fold r in Hrun.
      rewrite (na_proper z v0); [done|]. by apply (Forall_lookup_1 _ _ j z Hrun). }
  destruct (decide (j < S r)%nat) as [Hj|Hj].
  - assert (Hxj : take (S r) (v0 :: t) !! j = Some x) by (by rewrite lookup_take_lt).
    pose proof (Hrun x Hxj) as Hnx.
    destruct (spike na look k p v0 (S r) (head (drop (S r) (v0 :: t)))).
    + rewrite lookup_app_l in Hy by (rewrite length_replicate; lia).
      apply lookup_replicate_1 in Hy as [-> _].
      rewrite subst_na_not_na in Hna by done. destruct Hna; congruence.
    + rewrite lookup_app_l in Hy by (rewrite length_take; simpl; lia).
      congruence.
  - assert (Hlt : (length (drop (S r) (v0 :: t)) < length (v0 :: t))%nat)
      by (rewrite length_drop; simpl; lia).
    assert (Hx' : drop (S r) (v0 :: t) !! (j - S r)%nat = Some x).
    { rewrite lookup_drop. by replace (S r + (j - S r))%nat with j by lia. }
    destruct (spike na look k p v0 (S r) (head (drop (S r) (v0 :: t)))).
    + rewrite lookup_app_r in Hy by (rewrite length_replicate; lia).
      rewrite length_replicate in Hy.
      by apply (IH _ Hlt _ _ (j - S r)%nat eq_refl Hx' Hy).
    + rewrite lookup_app_r in Hy by (rewrite length_take; simpl; lia).
      rewrite length_take in Hy.
      replace (S r `min` length (v0 :: t))%nat with (S r) in Hy by (simpl; lia).
      by apply (IH _ Hlt _ _ (j - S r)%nat eq_refl Hx' Hy).
Qed.

End ScanBlocks.

Lemma is_blockb_spec {A : Type} `{PyCell A} (l : list A) (i c : nat) :
  is_blockb l i c = true → is_block l i c.
Proof.
  unfold is_blockb. destruct (l !! i) as [v|] eqn:Hv; [|done].
  rewrite !andb_true_iff.
  intros [[[[Hc Hlen] Hall] Hpre] Hpost].
  apply Nat.ltb_lt in Hc. apply Nat.leb_le in Hlen.
  split; [done|]. split; [done|]. exists v. split; [done|]. split; [|split].
  - intros j x Hj Hx. rewrite forallb_forall in Hall. apply Hall.
    apply list_elem_of_In, (list_elem_of_lookup_2 _ (j - i)%nat).
    rewrite lookup_take_lt, lookup_drop by lia.
    by replace (i + (j - i))%nat with j by lia.
  - intros j x <- Hx. rewrite Hx in Hpre. by apply negb_true_iff.
  - intros x Hx. rewrite Hx in Hpost. by apply negb_true_iff.
Qed.

(** C3: the block rule of spike removal as the code has it.  For every
    maximal block of equal cells of the input, the block is overwritten
    exactly when it is shorter than [min_consecutive] and its value differs
    from both the corrected cell in front of it (the output at the position
    before the block, not the original cell) and the cell behind it; it is
    then overwritten with that corrected cell.  At a sequence boundary the
    block's own value stands for the missing neighbour, and a block of
    equal cells is kept there.  The last part is about the cells that are
    in no block of equal cells, those that are not equal to themselves (the
    float NaN): such a cell differs from every neighbour and from its own
    value, so with [min_consecutive] above one it is overwritten with the
    corrected cell in front of it, at the end of the sequence too, and at
    the start of the sequence with itself. *)
Theorem lanes_block_rule {A : Type} `{PyCell A} `{!PyCellLaws A}
    (s : list A) (k : Z) (i c : nat) (v : A) :
  is_block s i c → s !! i = Some v →
  let out := correct_number_of_lanes s k in
  let prev_val := match i with O => v | S i' => default v (out !! i') end in
  let next_val := default v (s !! (i + c)%nat) in
  length out = length s
  ∧ (∀ j, (i ≤ j < i + c)%nat →
       out !! j = if py_neb v prev_val && py_neb v next_val && (Z.of_nat c <? k)%Z
                  then Some prev_val else s !! j)
  ∧ (i = 0%nat ∨ (i + c)%nat = length s → ∀ j, (i ≤ j < i + c)%nat → out !! j = s !! j)
  ∧ (∀ j x, s !! j = Some x → py_eqb x x = false →
       out !! j = if (1 <? k)%Z
                  then Some match j with O => x | S j' => default x (out !! j') end
                  else Some x).
Proof.
  intros Hb Hv out prev_val next_val.
  assert (Hlen : length out = length s).
  { subst out. rewrite correct_number_of_lanes_scan. apply scan_all_length. }
  assert (Hrefl : py_eqb v v = true).
  { destruct Hb as (Hc & _ & w & Hw & Hin & _). rewrite Hv in Hw. injection Hw as <-.
    apply (Hin i v); [lia|done]. }
  assert (Hrule : ∀ j, (i ≤ j < i + c)%nat →
    out !! j = if py_neb v prev_val && py_neb v next_val && (Z.of_nat c <? k)%Z
               then Some prev_val else s !! j).
  { intros j Hj.
    pose proof (scan_all_blocks (λ _, false) true k None s i c v
                  Hb Hv eq_refl j Hj) as Hres.
    rewrite <-correct_number_of_lanes_scan in Hres. fold out in Hres.
    cbv zeta in Hres. unfold spike in Hres.
    rewrite <-!subst_none_default in Hres.
    replace (default v match i with O => None | S i' => out !! i' end)
      with prev_val in Hres by (subst prev_val; by destruct i).
    done. }
  split; [done|]. split; [done|]. split.
  { intros Hedge j Hj. rewrite Hrule by done.
    destruct Hedge as [-> | Hend].
    - subst prev_val. unfold py_neb. by rewrite Hrefl.
    - subst next_val. rewrite lookup_ge_None_2 by lia. cbn [default].
      unfold py_neb. by rewrite Hrefl, andb_false_r. }
  intros j x Hx Hirr.
  pose proof (scan_all_unequal (λ _, false) true k None s j x Hx Hirr eq_refl j
                ltac:(lia)) as Hres.
  rewrite <-correct_number_of_lanes_scan in Hres. fold out in Hres.
  cbv zeta in Hres. unfold spike in Hres.
  assert (Hne : ∀ y, py_neb x y = true).
  { intros y. unfold py_neb. destruct (py_eqb x y) eqn:Hxy; [|done].
    by rewrite (py_eqb_refl_l x y) in Hirr. }
  rewrite !Hne in Hres. change (Z.of_nat 1) with 1%Z in Hres. cbn [andb] in Hres.
  rewrite <-subst_none_default in Hres. rewrite Hres.
  destruct (1 <? k)%Z; [|done]. by destruct j.
Qed.

Lemma lanes_block_rule_witness :
  is_block lanes_spike_example 3 1
  ∧ correct_number_of_lanes lanes_spike_example 3 !! 3%nat = Some (VInt 2)
  ∧ is_block lanes_missing_example 0 3
  ∧ correct_number_of_lanes lanes_missing_example 3 !! 3%nat = Some (VInt 2).
Proof.
  split; [apply is_blockb_spec; vm_compute; reflexivity|]. split.
  { destruct (lanes_block_rule (A := value) lanes_spike_example 3 3 1 (VInt 5)
                (@is_blockb_spec value value_cell lanes_spike_example 3 1 ltac:(vm_compute; reflexivity)) eq_refl) as (_ & Hrule & _).
    rewrite (Hrule 3%nat) by lia. vm_compute. reflexivity. }
  split; [apply is_blockb_spec; vm_compute; reflexivity|].
  destruct (lanes_block_rule (A := value) lanes_missing_example 3 0 3 (VInt 2)
              (@is_blockb_spec value value_cell lanes_missing_example 0 3 ltac:(vm_compute; reflexivity)) eq_refl) as (_ & Hrule & _ & Hmissing).
  rewrite (Hmissing 3%nat NaN eq_refl ltac:(vm_compute; reflexivity)).
  change (1 <? 3)%Z with true. cbv iota.
  rewrite (Hrule 2%nat) by lia. vm_compute. reflexivity.
Defined.

(** C3, as stated, fails: a short block that differs from both of its
    original neighbours is not always overwritten with the original
    predecessor.  In [1, 2, 1, 3, 3, 3] with threshold 3 the block [1] at
    position 2 has the original neighbours 2 and 3, and stays 1: the cell
    in front of it has already been corrected to 1. *)
Lemma lanes_original_neighbours_counterexample :
  ¬ (∀ (s : list value) (k : Z) (i c : nat) (v p n : value),
       is_block s (S i) c → s !! S i = Some v →
       s !! i = Some p → s !! (S i + c)%nat = Some n →
       (Z.of_nat c < k)%Z → py_neb v p = true → py_neb v n = true →
       ∀ j, (S i ≤ j < S i + c)%nat → correct_number_of_lanes s k !! j = Some p).
Proof.
  intros Hclaim.
  specialize (Hclaim lanes_cascade_example 3 1%nat 1%nat (VInt 1) (VInt 2) (VInt 3)
                (@is_blockb_spec value value_cell lanes_cascade_example 2 1 ltac:(vm_compute; reflexivity))
                eq_refl eq_refl eq_refl ltac:(lia) eq_refl eq_refl 2%nat ltac:(lia)).
  vm_compute in Hclaim. discriminate Hclaim.
Qed.

(** C4: blip removal and missing values.  Missing cells are left where
    they are and no missing value is ever written, so no block holds one;
    a block, a maximal run of equal cells that are not missing, is judged
    with its own value in the place of a neighbour that is missing (or
    absent), and is therefore kept whenever the cell in front of it or
    behind it is missing. *)
Theorem plane_skips_missing {A : Type} `{PyCell A} `{!PyCellLaws A}
    (s : list A) (k : Z) :
  let out := correct_horizontal_plane s k in
  length out = length s
  ∧ (∀ j x, s !! j = Some x → isna x = true → out !! j = Some x)
  ∧ (∀ j y, out !! j = Some y → isna y = true → s !! j = Some y)
  ∧ (∀ i c v, is_block s i c → s !! i = Some v → isna v = false →
       let prev_val := subst_na isna (match i with O => None | S i' => out !! i' end) v in
       let next_val := subst_na isna (s !! (i + c)%nat) v in
       (∀ j, (i ≤ j < i + c)%nat →
          out !! j = if py_neb v prev_val && py_neb v next_val && (Z.of_nat c <? k)%Z
                     then Some prev_val else s !! j)
       ∧ ((∃ i' m, i = S i' ∧ s !! i' = Some m ∧ isna m = true) →
            prev_val = v ∧ ∀ j, (i ≤ j < i + c)%nat → out !! j = s !! j)
       ∧ ((∃ m, s !! (i + c)%nat = Some m ∧ isna m = true) →
            next_val = v ∧ ∀ j, (i ≤ j < i + c)%nat → out !! j = s !! j)).
Proof.
  intros out.
  assert (Hlen : length out = length s).
  { subst out. rewrite correct_horizontal_plane_scan. apply scan_all_length. }
  assert (Hkeep : ∀ j x, s !! j = Some x → isna x = true → out !! j = Some x).
  { intros j x Hx Hna.
    destruct (out !! j) as [y|] eqn:Hy.
    - f_equal. subst out. rewrite correct_horizontal_plane_scan in Hy.
      apply (scan_all_na isna isna_proper true k None s j x y); auto.
    - apply lookup_ge_None in Hy. apply lookup_lt_Some in Hx. lia. }
  split; [done|]. split; [done|]. split.
  { intros j y Hy Hna.
    destruct (s !! j) as [x|] eqn:Hx.
    - f_equal. symmetry. subst out. rewrite correct_horizontal_plane_scan in Hy.
      apply (scan_all_na isna isna_proper true k None s j x y); auto.
    - apply lookup_ge_None in Hx. apply lookup_lt_Some in Hy. lia. }
  intros i c v Hb Hv Hnv prev_val next_val.
  assert (Hrefl : py_eqb v v = true).
  { destruct Hb as (Hc & _ & w & Hw & Hin & _). rewrite Hv in Hw. injection Hw as <-.
    apply (Hin i v); [lia|done]. }
  assert (Hrule : ∀ j, (i ≤ j < i + c)%nat →
    out !! j = if py_neb v prev_val && py_neb v next_val && (Z.of_nat c <? k)%Z
               then Some prev_val else s !! j).
  { intros j Hj.
    pose proof (scan_all_blocks isna true k None s i c v Hb Hv Hnv j Hj) as Hres.
    rewrite <-correct_horizontal_plane_scan in Hres. by fold out in Hres. }
  split; [done|]. split.
  - intros (i' & m & -> & Hm & Hna).
    assert (Hp : prev_val = v).
    { subst prev_val. rewrite (Hkeep i' m) by done. cbn [subst_na]. by rewrite Hna. }
    split; [done|]. intros j Hj. rewrite Hrule, Hp by done.
    unfold py_neb. by rewrite Hrefl.
  - intros (m & Hm & Hna).
    assert (Hn : next_val = v).
    { subst next_val. rewrite Hm. cbn [subst_na]. by rewrite Hna. }
    split; [done|]. intros j Hj. rewrite Hrule, Hn by done.
    unfold py_neb. by rewrite Hrefl, andb_false_r.
Qed.

Lemma plane_skips_missing_witness :
  correct_horizontal_plane plane_example 2
    = [VStr "Straight"; NaN; VStr "Curved"; VStr "Straight"; VStr "Straight";
       VStr "Straight"; VStr "Straight"]
  ∧ is_block plane_example 2 1
  ∧ correct_horizontal_plane plane_example 2 !! 2%nat = Some (VStr "Curved").
Proof.
  split; [vm_compute; reflexivity|]. split; [apply is_blockb_spec; vm_compute; reflexivity|].
  destruct (plane_skips_missing (A := value) plane_example 2) as (_ & _ & _ & Hblk).
  destruct (Hblk 2%nat 1%nat (VStr "Curved") (@is_blockb_spec value value_cell plane_example 2 1 ltac:(vm_compute; reflexivity))
              eq_refl eq_refl)
    as (_ & Hprev & _).
  destruct Hprev as [_ Hkeep].
  { exists 1%nat, NaN. split; [done|]. split; vm_compute; reflexivity. }
  rewrite (Hkeep 2%nat) by lia. reflexivity.
Defined.

(** C5: in the output of run-length smoothing with threshold [K], every
    maximal block that does not hold the first cell of the sequence has at
    least [K] cells, so no block shorter than [K] differs from the
    corrected cell in front of it; the first cell is never modified.  It
    holds for every sequence of cells that are equal to themselves, the
    binary ("Yes"/"No") sequences among them. *)
Theorem yes_no_no_short_block {A : Type} `{PyCell A} `{!PyCellLaws A}
    (s : list A) (K : Z) :
  Forall (λ x, py_eqb x x = true) s →
  correct_yes_no_sequence s K !! 0%nat = s !! 0%nat
  ∧ length (correct_yes_no_sequence s K) = length s
  ∧ ∀ i c, (0 < i)%nat → is_block (correct_yes_no_sequence s K) i c → (K ≤ Z.of_nat c)%Z.
Proof.
  intros Hrefl. destruct s as [|x t].
  { split; [done|]. split; [done|]. intros i c _ (Hc & Hlen & _). simpl in Hlen. lia. }
  rewrite correct_yes_no_sequence_scan.
  split; [done|]. split; [simpl; by rewrite scan_all_length|].
  apply settled_blocks. by apply scan_yes_no_settled.
Qed.

Lemma yes_no_no_short_block_witness :
  let s := [VStr "No"; VStr "Yes"; VStr "Yes"; VStr "No"; VStr "Yes"; VStr "Yes"; VStr "Yes"] in
  correct_yes_no_sequence s 3
    = [VStr "No"; VStr "No"; VStr "No"; VStr "No"; VStr "Yes"; VStr "Yes"; VStr "Yes"]
  ∧ (correct_yes_no_sequence s 3 !! 0%nat = s !! 0%nat
     ∧ length (correct_yes_no_sequence s 3) = length s
     ∧ ∀ i c, (0 < i)%nat → is_block (correct_yes_no_sequence s 3) i c → (3 ≤ Z.of_nat c)%Z).
Proof.
  split; [vm_compute; reflexivity|].
  apply (yes_no_no_short_block (A := value)
           [VStr "No"; VStr "Yes"; VStr "Yes"; VStr "No"; VStr "Yes"; VStr "Yes"; VStr "Yes"] 3).
  repeat (apply Forall_cons; split; [vm_compute; reflexivity|]). apply Forall_nil_2.
Defined.

(** ** The cloudiness check on one scene *)

Lemma transition_step_jump (state_seq : list Z) (labels : list string) (j : nat) :
  transition_step state_seq labels j
  = if jump_at state_seq j then <[j := cloud_jump]> labels else labels.
Proof.
  unfold transition_step, jump_at.
  destruct (state_seq !! (j - 1)%nat) as [a|]; [|done].
  destruct (state_seq !! j) as [b|]; [|done].
  destruct ((a =? -1) || (b =? -1)); [done|].
  destruct (Z.abs (b - a) =? 2); [|done].
  by destruct (brief state_seq j a).
Qed.

Lemma fold_transitions (state_seq : list Z) (js : list nat) (labels : list string) (j : nat) :
  foldl (transition_step state_seq) labels js !! j
  = if bool_decide (j ∈ js) && jump_at state_seq j
    then <[j := cloud_jump]> labels !! j else labels !! j.
Proof.
  revert labels. induction js as [|i js IH]; intros labels; [done|].
  cbn [foldl]. rewrite IH, transition_step_jump.
  destruct (decide (i = j)) as [->|Hij].
  - rewrite (bool_decide_eq_true_2 (j ∈ j :: js)) by (by left). cbn [andb].
    destruct (jump_at state_seq j); [|by rewrite andb_false_r].
    rewrite andb_true_r, list_insert_insert_eq. by destruct (bool_decide (j ∈ js)).
  - assert (Hin : bool_decide (j ∈ i :: js) = bool_decide (j ∈ js)).
    { apply bool_decide_ext. rewrite elem_of_cons. intuition congruence. }
    rewrite Hin.
    destruct (jump_at state_seq i); [|done].
    destruct (bool_decide (j ∈ js) && jump_at state_seq j).
    + rewrite list_insert_insert_ne by done.
      by rewrite list_lookup_insert_ne by done.
    + by rewrite list_lookup_insert_ne by done.
Qed.

Lemma transitions_lookup (state_seq : list Z) (labels : list string) (j : nat) :
  length labels = length state_seq →
  transitions state_seq labels !! j
  = if jump_at state_seq j then <[j := cloud_jump]> labels !! j else labels !! j.
Proof.
  intros Hlen. unfold transitions. rewrite fold_transitions.
  destruct (jump_at state_seq j) eqn:Hj; [|by rewrite andb_false_r].
  rewrite andb_true_r.
  rewrite bool_decide_eq_true_2; [done|].
  unfold jump_at in Hj.
  destruct (state_seq !! (j - 1)%nat) as [a|] eqn:Ha; [|done].
  destruct (state_seq !! j) as [b|] eqn:Hb; [|done].
  destruct j as [|j].
  - cbn [Nat.sub] in Ha. rewrite Hb in Ha. injection Ha as <-.
    rewrite Z.sub_diag in Hj. apply andb_true_iff in Hj as [Hj _].
    apply andb_true_iff in Hj as [_ Hj]. done.
  - apply lookup_lt_Some in Hb. apply elem_of_seq. lia.
Qed.

Lemma exclusivity_length (rows : list (value * value * value)) (lv : option Z) :
  length (exclusivity rows lv) = length rows.
Proof.
  revert lv. induction rows as [|[[c p] o] rows IH]; intros lv; [done|].
  cbn [exclusivity]. destruct (active_count c p o =? 1)%nat; [cbn [length]; by rewrite IH|].
  destruct lv; cbn [length]; by rewrite IH.
Qed.


Lemma exclusivity_lookup (rows : list (value * value * value)) (lv0 : option Z)
    (j : nat) (r : value * value * value) :
  rows !! j = Some r →
  exclusivity rows lv0 !! j = Some (row_result r (last_valid_state (take j rows) lv0)).
Proof.
  revert lv0 j. induction rows as [|[[c p] o] rows IH]; intros lv0 j Hr; [done|].
  destruct j as [|j].
  - injection Hr as <-. cbn [exclusivity take last_valid_state foldl].
    unfold row_result, valid_row. cbn [fst snd].
    destruct (active_count c p o =? 1)%nat; [done|]. by destruct lv0.
  - cbn [lookup list_lookup] in Hr. cbn [take].
    assert (Hfold : last_valid_state ((c, p, o) :: take j rows) lv0
      = last_valid_state (take j rows)
          (if valid_row (c, p, o) then Some (active_state c p o) else lv0)) by done.
    rewrite Hfold. unfold valid_row. cbn [fst snd exclusivity].
    destruct (active_count c p o =? 1)%nat.
    + by apply (IH (Some (active_state c p o)) j).
    + destruct lv0; by apply IH.
Qed.

Lemma last_valid_state_snoc (rows : list (value * value * value))
    (r : value * value * value) (lv0 : option Z) :
  last_valid_state (rows ++ [r]) lv0
  = if valid_row r then Some (active_state r.1.1 r.1.2 r.2) else last_valid_state rows lv0.
Proof. unfold last_valid_state. by rewrite foldl_app. Qed.

Lemma last_valid_state_None (rows : list (value * value * value)) :
  last_valid_state rows None = None ↔ ∀ i r, rows !! i = Some r → valid_row r = false.
Proof.
  induction rows as [|r rows IH] using rev_ind; [done|].
  rewrite last_valid_state_snoc. split.
  - intros Hn i r' Hr'. destruct (valid_row r) eqn:Hv; [done|].
    apply lookup_app_Some in Hr' as [Hr'|[_ Hr']].
    + by apply (proj1 IH Hn i).
    + apply list_lookup_singleton_Some in Hr' as [_ <-]. done.
  - intros Hall. rewrite (Hall (length rows) r) by (by rewrite list_lookup_middle).
    apply IH. intros i r' Hr'. apply (Hall i). by apply lookup_app_l_Some.
Qed.

Lemma last_valid_state_Some (rows : list (value * value * value)) (lv : Z) :
  last_valid_state rows None = Some lv →
  ∃ j' r, rows !! j' = Some r ∧ valid_row r = true ∧ active_state r.1.1 r.1.2 r.2 = lv
    ∧ ∀ i r', (j' < i)%nat → rows !! i = Some r' → valid_row r' = false.
Proof.
  induction rows as [|r rows IH] using rev_ind; [done|].
  rewrite last_valid_state_snoc. destruct (valid_row r) eqn:Hv.
  - intros [= <-]. exists (length rows), r.
    split; [by rewrite list_lookup_middle|]. split; [done|]. split; [done|].
    intros i r' Hi Hr'. apply lookup_lt_Some in Hr'. rewrite length_app in Hr'.
    simpl in Hr'. lia.
  - intros Hlv. destruct (IH Hlv) as (j' & r0 & Hr0 & Hv0 & Hs0 & Hafter).
    exists j', r0. split; [by apply lookup_app_l_Some|]. split; [done|]. split; [done|].
    intros i r' Hi Hr'. apply lookup_app_Some in Hr' as [Hr'|[_ Hr']].
    + by apply (Hafter i).
    + apply list_lookup_singleton_Some in Hr' as [_ <-]. done.
Qed.

Lemma row_result_invalid_state (r : value * value * value) (lv : option Z) :
  valid_row r = false → cr_state (row_result r lv) = default (-1) lv.
Proof. intros Hv. unfold row_result. rewrite Hv. by destruct lv. Qed.

(** A row that is forced to the last valid state continues the state of
    the row before it. *)
Lemma forced_row_prev_state (rows : list (value * value * value)) (j : nat)
    (r : value * value * value) (lv : Z) :
  rows !! j = Some r → last_valid_state (take j rows) None = Some lv →
  ∃ j', j = S j' ∧ (cr_state <$> exclusivity rows None) !! j' = Some lv.
Proof.
  intros Hr Hlv. destruct j as [|j]; [done|]. exists j. split; [done|].
  destruct (rows !! j) as [r'|] eqn:Hr'; cycle 1.
  { apply lookup_ge_None in Hr'. apply lookup_lt_Some in Hr. lia. }
  rewrite list_lookup_fmap, (exclusivity_lookup rows None j r') by done.
  cbn [fmap option_fmap option_map]. f_equal.
  rewrite (take_S_r rows j r') in Hlv by done.
  rewrite last_valid_state_snoc in Hlv.
  unfold row_result. destruct (valid_row r') eqn:Hv'.
  - cbn [cr_state]. congruence.
  - by rewrite Hlv.
Qed.

Lemma jump_at_same (state_seq : list Z) (j j' : nat) (a : Z) :
  j = S j' → state_seq !! j' = Some a → state_seq !! j = Some a →
  jump_at state_seq j = false.
Proof.
  intros -> Ha Hb. unfold jump_at.
  replace (S j' - 1)%nat with j' by lia. rewrite Ha, Hb, Z.sub_diag.
  by rewrite andb_false_r.
Qed.

Lemma jump_at_invalid (state_seq : list Z) (j : nat) :
  state_seq !! j = Some (-1) → jump_at state_seq j = false.
Proof.
  intros Hb. unfold jump_at. rewrite Hb.
  destruct (state_seq !! (j - 1)%nat); [|done]. by rewrite orb_true_r.
Qed.

Lemma cloudiness_scene_lengths (clear partly overcast : list value) :
  length (cr_check <$> (cloudiness_scene clear partly overcast).1)
  = length (cr_state <$> (cloudiness_scene clear partly overcast).1).
Proof. by rewrite !length_fmap. Qed.

(** C1: in the cloudiness check of a scene, every direct transition
    between Clear and Overcast (state indices 0 and 2) that is not a
    one-sample detour, that is, unless the sample two positions before the
    landing row and the sample one position after it both hold the
    pre-transition state, gives the landing row the label "Clear <->
    Overcast must go through PartlyCloudy".  In particular the transition
    pass on the state sequence [Clear, Overcast, Clear] flags the Overcast
    row, where no sample lies two positions back. *)
Theorem cloudiness_jump_flagged :
  (∀ labels : list string, length labels = 3%nat →
     transitions [0; 2; 0] labels !! 1%nat = Some cloud_jump)
  ∧ ∀ (clear partly overcast : list value) (j : nat) (prev_state curr_state : Z),
      let res := cloudiness_scene clear partly overcast in
      let state_seq := cr_state <$> res.1 in
      state_seq !! j = Some prev_state → state_seq !! S j = Some curr_state →
      (prev_state = 0 ∧ curr_state = 2) ∨ (prev_state = 2 ∧ curr_state = 0) →
      ¬ ((1 ≤ j)%nat ∧ state_seq !! (j - 1)%nat = Some prev_state
         ∧ state_seq !! (S j + 1)%nat = Some prev_state) →
      res.2 !! S j = Some cloud_jump.
Proof.
  split.
  - intros labels Hlen. rewrite transitions_lookup by done.
    replace (jump_at [0; 2; 0] 1) with true by (vm_compute; reflexivity).
    apply list_lookup_insert_eq. lia.
  - intros clear partly overcast j prev_state curr_state res state_seq.
    subst state_seq res. unfold cloudiness_scene. cbn [fst snd].
    set (rows := exclusivity (smoothed_rows clear partly overcast) None).
    set (state_seq := cr_state <$> rows).
    intros Hp Hc Hjump Hnb.
    rewrite transitions_lookup by (unfold state_seq; by rewrite !length_fmap).
    assert (Hj : jump_at state_seq (S j) = true).
    { unfold jump_at. replace (S j - 1)%nat with j by lia. rewrite Hp, Hc.
      assert (Hb : brief state_seq (S j) prev_state = false).
      { unfold brief. replace (S j - 2)%nat with (j - 1)%nat by lia.
        destruct (2 <=? S j)%nat eqn:H2; [|done].
        destruct (S j + 1 <? length state_seq)%nat; [|done]. cbn [andb].
        destruct (state_seq !! (j - 1)%nat) as [a|] eqn:Ha; [|done].
        destruct (state_seq !! (S j + 1)%nat) as [b|] eqn:Hb; [|done].
        destruct (a =? prev_state) eqn:Hap; [|done].
        destruct (b =? prev_state) eqn:Hbp; [|done].
        apply Z.eqb_eq in Hap, Hbp. subst a b. apply Nat.leb_le in H2.
        exfalso. apply Hnb. split; [lia|done]. }
      rewrite Hb. by destruct Hjump as [[-> ->]|[-> ->]]. }
    rewrite Hj. apply list_lookup_insert_eq.
    apply lookup_lt_Some in Hc. subst state_seq.
    rewrite length_fmap in Hc. by rewrite length_fmap.
Qed.

Lemma cloudiness_jump_flagged_witness :
  cr_state <$> (cloudiness_scene jump_scene_clear jump_scene_partly jump_scene_overcast).1
    = [0; 0; 2; 2]
  ∧ (cloudiness_scene jump_scene_clear jump_scene_partly jump_scene_overcast).2 !! 2%nat
    = Some cloud_jump.
Proof.
  split; [vm_compute; reflexivity|].
  apply (proj2 cloudiness_jump_flagged jump_scene_clear jump_scene_partly
           jump_scene_overcast 1%nat 0 2).
  - vm_compute; reflexivity.
  - vm_compute; reflexivity.
  - left. split; reflexivity.
  - intros (_ & _ & Hnext). vm_compute in Hnext. discriminate Hnext.
Defined.

(** C2: in the cloudiness check of a scene, take a row at which, after the
    zig-zag smoothing, the number of fields equal to "Yes" is not one.  If
    an earlier row of the scene is valid, the three fields of the row are
    overwritten to encode the state of the last valid row before it, and
    the row's final check label is "OK".  If no earlier row is valid, the
    fields are left as they are and the row's final check label is
    "Cloudiness inconsistency: multiple or none active". *)
Theorem cloudiness_invalid_rows (clear partly overcast : list value) (j : nat)
    (r : value * value * value) :
  let rows := smoothed_rows clear partly overcast in
  let res := cloudiness_scene clear partly overcast in
  rows !! j = Some r → active_count r.1.1 r.1.2 r.2 ≠ 1%nat →
  ((∃ j' r', (j' < j)%nat ∧ rows !! j' = Some r' ∧ valid_row r' = true) →
     ∃ j' r', (j' < j)%nat ∧ rows !! j' = Some r' ∧ valid_row r' = true
       ∧ (∀ i r2, (j' < i < j)%nat → rows !! i = Some r2 → valid_row r2 = false)
       ∧ let lv := active_state r'.1.1 r'.1.2 r'.2 in
         res.1 !! j = Some {| cr_clear := yes_if (lv =? 0); cr_partly := yes_if (lv =? 1);
                              cr_overcast := yes_if (lv =? 2); cr_state := lv;
                              cr_check := "OK" |}
         ∧ res.2 !! j = Some "OK")
  ∧ ((∀ j' r', (j' < j)%nat → rows !! j' = Some r' → valid_row r' = false) →
       res.1 !! j = Some {| cr_clear := r.1.1; cr_partly := r.1.2; cr_overcast := r.2;
                            cr_state := -1; cr_check := cloud_inconsistent |}
       ∧ res.2 !! j = Some cloud_inconsistent).
Proof.
  intros rows res. subst res. unfold cloudiness_scene. cbn [fst snd]. fold rows.
  set (out := exclusivity rows None).
  intros Hr Hcount.
  assert (Hinv : valid_row r = false) by (by apply Nat.eqb_neq).
  assert (Hrow : out !! j = Some (row_result r (last_valid_state (take j rows) None)))
    by (by apply exclusivity_lookup).
  assert (Hlab : ∀ row, out !! j = Some row →
    jump_at (cr_state <$> out) j = false →
    transitions (cr_state <$> out) (cr_check <$> out) !! j = Some (cr_check row)).
  { intros row Hrow' Hj.
    rewrite transitions_lookup by (by rewrite !length_fmap).
    by rewrite Hj, list_lookup_fmap, Hrow'. }
  split.
  - intros (j0 & r0 & Hj0 & Hr0 & Hv0).
    destruct (last_valid_state (take j rows) None) as [lv|] eqn:Hlv; cycle 1.
    { rewrite last_valid_state_None in Hlv.
      rewrite (Hlv j0 r0) in Hv0; [done|]. by rewrite lookup_take_lt. }
    destruct (last_valid_state_Some _ _ Hlv) as (j' & r' & Hr' & Hv' & Hs' & Hafter).
    apply lookup_take_Some in Hr' as [Hr' Hj'].
    exists j', r'. split; [done|]. split; [done|]. split; [done|]. split.
    { intros i r2 Hi Hr2. apply (Hafter i); [lia|]. rewrite lookup_take_lt by lia. done. }
    cbv zeta. rewrite Hs'.
    unfold row_result in Hrow. rewrite Hinv in Hrow.
    split; [done|].
    rewrite (Hlab _ Hrow); [done|].
    destruct (forced_row_prev_state rows j r lv Hr Hlv) as (jp & Hjp & Hprev).
    apply (jump_at_same _ j jp lv); [done|done|].
    by rewrite list_lookup_fmap, Hrow.
  - intros Hnone.
    assert (Hlv : last_valid_state (take j rows) None = None).
    { apply last_valid_state_None. intros i r' Hr'.
      apply lookup_take_Some in Hr' as [Hr' Hi]. by apply (Hnone i). }
    rewrite Hlv in Hrow. unfold row_result in Hrow. rewrite Hinv in Hrow.
    split; [done|].
    rewrite (Hlab _ Hrow); [done|].
    apply jump_at_invalid.
    by rewrite list_lookup_fmap, Hrow.
Qed.

Lemma cloudiness_invalid_rows_witness :
  (cloudiness_scene forced_scene_clear forced_scene_partly forced_scene_overcast).2
    = ["Cloudiness inconsistency: multiple or none active"; "OK"; "OK"; "OK";
       "Clear <-> Overcast must go through PartlyCloudy"]
  ∧ (cloudiness_scene forced_scene_clear forced_scene_partly forced_scene_overcast).1 !! 2%nat
    = Some {| cr_clear := VStr "Yes"; cr_partly := VStr "No"; cr_overcast := VStr "No";
              cr_state := 0; cr_check := "OK" |}
  ∧ (cloudiness_scene forced_scene_clear forced_scene_partly forced_scene_overcast).2 !! 0%nat
    = Some cloud_inconsistent.
Proof.
  split; [vm_compute; reflexivity|]. split.
  - destruct (cloudiness_invalid_rows forced_scene_clear forced_scene_partly
                forced_scene_overcast 2%nat (VStr "Yes", VStr "Yes", VStr "No"))
      as [Hforced _]; [vm_compute; reflexivity|vm_compute; lia|].
    destruct Hforced as (j' & r' & Hj' & Hr' & Hv' & Hafter & Hrow & Hlab).
    { exists 1%nat, (VStr "Yes", VStr "No", VStr "No").
      split; [lia|]. split; vm_compute; reflexivity. }
    destruct j' as [|[|j']]; [| |lia].
    + vm_compute in Hr'. injection Hr' as <-. vm_compute in Hv'. discriminate Hv'.
    + vm_compute in Hr'. injection Hr' as <-. vm_compute in Hrow |- *. exact Hrow.
  - destruct (cloudiness_invalid_rows forced_scene_clear forced_scene_partly
                forced_scene_overcast 0%nat (VStr "No", VStr "No", VStr "No"))
      as [_ Hnone]; [vm_compute; reflexivity|vm_compute; lia|].
    apply Hnone. intros j' r' Hj'. lia.
Defined.

(** The state sequence [Clear, Overcast, Clear] itself cannot be the
    resolved sequence of a scene of three samples: step 1 smooths the
    middle sample of the Clear field to "Yes" whenever the first and the
    third are "Yes". *)
Lemma zigzag_three (a b c : value) :
  zigzag [a; b; c] = [a; if value_eqb a c && negb (value_eqb b a) then a else b; c].
Proof.
  unfold zigzag. cbn [length Nat.sub seq foldl]. unfold zigzag_step.
  cbn [lookup list_lookup Nat.sub Nat.add].
  by destruct (value_eqb a c && negb (value_eqb b a)).
Qed.

Lemma value_eqb_sym (x y : value) : value_eqb x y = value_eqb y x.
Proof. exact (py_eqb_sym (A := value) x y). Qed.

Lemma value_eqb_trans (x y z : value) :
  value_eqb x y = true → value_eqb y z = true → value_eqb x z = true.
Proof. exact (py_eqb_trans (A := value) x y z). Qed.

Lemma is_yes_middle (a b c : value) :
  is_yes a = true → is_yes c = true →
  is_yes (if value_eqb a c && negb (value_eqb b a) then a else b) = true.
Proof.
  unfold is_yes. intros Ha Hc.
  assert (Hac : value_eqb a c = true).
  { apply (value_eqb_trans a (VStr "Yes") c); [done|]. by rewrite value_eqb_sym. }
  rewrite Hac. cbn [andb].
  destruct (value_eqb b a) eqn:Hba; [|done]. cbn [negb].
  by apply (value_eqb_trans b a (VStr "Yes")).
Qed.

Lemma three_sample_scene_states (c0 c1 c2 p0 p1 p2 o0 o1 o2 : value) :
  cr_state <$> (cloudiness_scene [c0; c1; c2] [p0; p1; p2] [o0; o1; o2]).1 ≠ [0; 2; 0].
Proof.
  unfold cloudiness_scene, smoothed_rows. cbn [fst]. rewrite !zigzag_three.
  pose proof (is_yes_middle c0 c1 c2) as Hmid.
  set (c1' := if value_eqb c0 c2 && negb (value_eqb c1 c0) then c0 else c1) in *.
  set (p1' := if value_eqb p0 p2 && negb (value_eqb p1 p0) then p0 else p1).
  set (o1' := if value_eqb o0 o2 && negb (value_eqb o1 o0) then o0 else o1).
  clearbody c1' p1' o1'.
  cbn [zip zip_with exclusivity]. unfold active_count, active_state.
  destruct (is_yes c0), (is_yes c2);
    try (specialize (Hmid eq_refl eq_refl); rewrite Hmid);
    destruct (is_yes p0), (is_yes o0); cbn; try discriminate;
    destruct (is_yes c1'), (is_yes p1'), (is_yes o1'); cbn; try discriminate;
    destruct (is_yes p2), (is_yes o2); cbn; discriminate.
Qed.

(** ** Lane-count normalization *)

Lemma int_of_float_finite (f : float) :
  value_isna (VFloat f) = false → float_is_inf f = false → ∃ n, int_of_float f = Ok n.
Proof.
  unfold value_isna, float_is_inf, int_of_float, float_num.
  destruct (Prim2SF f) as [s|s| |s m e]; try done; [by eexists| |by eexists].
  by destruct s.
Qed.

Lemma int_of_float_inf (f : float) :
  float_is_inf f = true → ∃ e, int_of_float f = Raise e.
Proof.
  unfold float_is_inf, int_of_float, float_num.
  destruct (Prim2SF f) as [s|s| |s m e]; try done. by eexists.
Qed.

Lemma float_is_inf_not_na (f : float) : float_is_inf f = true → value_isna (VFloat f) = false.
Proof.
  unfold float_is_inf, value_isna. by destruct (float_num f) as [[]|].
Qed.

(** C10: what lane-count normalization does to each kind of value.  A
    missing value (NaN or [None]) becomes the integer 1; an integer stays;
    a float that has an integer part is truncated to it, and an infinite
    float, which has none, is returned unchanged; a string of the lane map
    becomes its entry; any other string becomes the integer it parses to,
    and is returned unchanged when it parses to none.  The column is
    normalized value by value. *)
Theorem convert_lane_value_cases (B : PyBuiltins) :
  (∀ x, value_isna x = true → _convert_lane_value B x = VInt 1)
  ∧ (∀ z, _convert_lane_value B (VInt z) = VInt z)
  ∧ (∀ f, value_isna (VFloat f) = false → float_is_inf f = false →
       ∃ n, int_of_float f = Ok n ∧ _convert_lane_value B (VFloat f) = VInt n)
  ∧ (∀ f, float_is_inf f = true → _convert_lane_value B (VFloat f) = VFloat f)
  ∧ (∀ s n, lane_map_get s = Some n → _convert_lane_value B (VStr s) = VInt n)
  ∧ (∀ s n, lane_map_get s = None → int_of_str B s = Some n →
       _convert_lane_value B (VStr s) = VInt n)
  ∧ (∀ s, lane_map_get s = None → int_of_str B s = None →
       _convert_lane_value B (VStr s) = VStr s)
  ∧ (∀ lanes i x, lanes !! i = Some x →
       normalize_lanes B lanes !! i = Some (_convert_lane_value B x)).
Proof.
  repeat split.
  - intros x Hx. unfold _convert_lane_value. by rewrite Hx.
  - intros f Hna Hinf. destruct (int_of_float_finite f Hna Hinf) as [n Hn].
    exists n. split; [done|]. unfold _convert_lane_value. by rewrite Hna, Hn.
  - intros f Hinf. destruct (int_of_float_inf f Hinf) as [e He].
    unfold _convert_lane_value. by rewrite (float_is_inf_not_na f Hinf), He.
  - intros s n Hs. unfold _convert_lane_value. cbn [value_isna]. by rewrite Hs.
  - intros s n Hs Hp. unfold _convert_lane_value. cbn [value_isna py_str].
    by rewrite Hs, Hp.
  - intros s Hs Hp. unfold _convert_lane_value. cbn [value_isna py_str].
    by rewrite Hs, Hp.
  - intros lanes i x Hx. unfold normalize_lanes. by rewrite list_lookup_fmap, Hx.
Qed.

Lemma convert_lane_value_cases_witness :
  _convert_lane_value no_text_builtins NaN = VInt 1
  ∧ _convert_lane_value no_text_builtins (VFloat 2.5) = VInt 2
  ∧ _convert_lane_value no_text_builtins (VFloat infinity) = VFloat infinity
  ∧ _convert_lane_value no_text_builtins (VStr "Multiple lanes") = VInt 2
  ∧ _convert_lane_value no_text_builtins (VStr "unknown") = VStr "unknown".
Proof.
  destruct (convert_lane_value_cases no_text_builtins)
    as (Hna & _ & Hfin & Hinf & Hmap & _ & Hstr & _).
  split; [apply Hna; vm_compute; reflexivity|].
  split.
  { destruct (Hfin 2.5%float) as (n & Hn & Hres); [vm_compute; reflexivity..|].
    vm_compute in Hn. injection Hn as <-. exact Hres. }
  split; [apply Hinf; vm_compute; reflexivity|].
  split; [apply Hmap; vm_compute; reflexivity|].
  apply Hstr; vm_compute; reflexivity.
Defined.

(** C10, as stated, fails for one numeric input: the float infinity is not
    truncated to an integer, it is returned as it is. *)
Lemma convert_lane_value_infinity_counterexample :
  ¬ (∀ (B : PyBuiltins) (f : float), value_isna (VFloat f) = false →
       ∃ n : Z, _convert_lane_value B (VFloat f) = VInt n).
Proof.
  intros Hclaim.
  destruct (Hclaim no_text_builtins infinity ltac:(vm_compute; reflexivity)) as [n Hn].
  vm_compute in Hn. discriminate Hn.
Qed.

(** ** The lane-jump check and an infinite lane count *)

(** C7: a lane value that converts to the float infinity makes the check
    raise [OverflowError]: [int(abs(diff))] stands outside the [try] that
    guards the conversion to float, so no table is returned, whatever the
    text conversions do. *)
Theorem flag_number_of_lanes_infinity (B : PyBuiltins) :
  flag_number_of_lanes B infinite_lanes_table "Scene" "Lanes" = Raise OverflowError.
Proof. vm_compute. reflexivity. Qed.

(** On ordinary values the check flags jumps of two lanes or more and
    skips a value that does not convert. *)
Lemma flag_number_of_lanes_example :
  result_col (flag_number_of_lanes no_text_builtins lanes_table "Scene" "Lanes") "Lanes_check"
  = Some [VStr "OK"; VStr "OK"; VStr "Sudden addition of 2 lanes"; VStr "OK"].
Proof. vm_compute. reflexivity. Qed.

(** ** The toggle check and rows without a scene *)

(** C9: [add_problem_flags] never sets the default "OK": its check column
    comes into being with the first scene that is written, NaN elsewhere,
    and a row whose scene identifier is missing belongs to no scene.  Such
    a row ends with NaN, not with "OK". *)
Theorem add_problem_flags_missing_scene :
  result_col (add_problem_flags missing_scene_table "Scene" ["Parking"])
    "Parking_Auto_Check_check"
  = Some [VStr "OK"; NaN; VStr "OK"].
Proof. vm_compute. reflexivity. Qed.


(** ** The pair check *)

Lemma for_each_app {S X : Type} (body : S → X → result S) (xs ys : list X) (acc : S) :
  for_each body (xs ++ ys) acc = acc' ← for_each body xs acc; for_each body ys acc'.
Proof.
  revert acc. induction xs as [|x xs IH]; intros acc; [done|].
  cbn [app for_each]. destruct (body acc x) as [acc'|e]; [apply IH|done].
Qed.

Lemma foldl_write_lookup {X : Type} (wr : nat → option X) (js : list nat)
    (c0 : list X) (j : nat) :
  foldl (λ c i, match wr i with Some v => <[i := v]> c | None => c end) c0 js !! j
  = if bool_decide (j ∈ js)
    then match wr j with Some v => <[j := v]> c0 | None => c0 end !! j
    else c0 !! j.
Proof.
  revert c0. induction js as [|i js IH]; intros c0; [done|].
  cbn [foldl]. rewrite IH.
  destruct (decide (i = j)) as [->|Hij].
  - rewrite (bool_decide_eq_true_2 (j ∈ j :: js)) by (by left).
    destruct (wr j) as [v|]; [|by destruct (bool_decide (j ∈ js))].
    rewrite list_insert_insert_eq. by destruct (bool_decide (j ∈ js)).
  - assert (Hin : bool_decide (j ∈ i :: js) = bool_decide (j ∈ js)).
    { apply bool_decide_ext. rewrite elem_of_cons. intuition congruence. }
    rewrite Hin. destruct (wr i) as [w|]; [|done].
    destruct (bool_decide (j ∈ js)); [|by rewrite list_lookup_insert_ne by done].
    destruct (wr j) as [v|]; [|by rewrite list_lookup_insert_ne by done].
    rewrite list_insert_insert_ne by done. by rewrite list_lookup_insert_ne by done.
Qed.

Lemma string_length_append (s1 s2 : string) :
  String.length (s1 +:+ s2) = (String.length s1 + String.length s2)%nat.
Proof. induction s1 as [|a s1 IH]; [done|]. simpl. by rewrite IH. Qed.

Lemma string_append_inj_r (s1 s2 suffix : string) :
  s1 +:+ suffix = s2 +:+ suffix → s1 = s2.
Proof.
  revert s2. induction s1 as [|a s1 IH]; intros s2 Heq.
  - destruct s2 as [|b s2]; [done|].
    apply (f_equal String.length) in Heq.
    rewrite !string_length_append in Heq. cbn in Heq. lia.
  - destruct s2 as [|b s2].
    + apply (f_equal String.length) in Heq.
      rewrite !string_length_append in Heq. cbn in Heq. lia.
    + change (String a (s1 +:+ suffix) = String b (s2 +:+ suffix)) in Heq.
      injection Heq as -> Heq. f_equal. by apply IH.
Qed.

Lemma pair_label_cases (l_signs l_times : Z) :
  (l_signs = -1 ∨ l_times = -1 → pair_label l_signs l_times = "Parse error (non-list)")
  ∧ (l_signs ≠ -1 → l_times ≠ -1 → l_signs ≠ l_times →
       pair_label l_signs l_times
       = "Length mismatch (signs=" +:+ str_of_Z l_signs
         +:+ ", times=" +:+ str_of_Z l_times +:+ ")")
  ∧ (l_signs ≠ -1 → l_times ≠ -1 → l_signs = l_times → pair_label l_signs l_times = "OK").
Proof.
  unfold pair_label. repeat split.
  - intros [-> | ->]; [done|]. by rewrite orb_true_r.
  - intros H1 H2 H3. apply Z.eqb_neq in H1, H2, H3. by rewrite H1, H2, H3.
  - intros _ H2 ->. apply Z.eqb_neq in H2. by rewrite H2, Z.eqb_refl.
Qed.

(** The list length of a value: the JSON parse decides when it succeeds,
    the literal parse is consulted only when the JSON parse raises. *)
Lemma safe_list_len_cases (B : PyBuiltins) (x : value) :
  (value_isna x = true → safe_list_len B x = -1)
  ∧ (value_isna x = false →
       let s := str_strip B (py_str B x) in
       (∀ n, json_loads B s = Some (PList n) → safe_list_len B x = Z.of_nat n)
       ∧ (json_loads B s = Some POther → safe_list_len B x = -1)
       ∧ (∀ n, json_loads B s = None → literal_eval B s = Some (PList n) →
            safe_list_len B x = Z.of_nat n)
       ∧ (json_loads B s = None → literal_eval B s = Some POther → safe_list_len B x = -1)
       ∧ (json_loads B s = None → literal_eval B s = None → safe_list_len B x = -1)).
Proof.
  unfold safe_list_len. split; [by intros ->|]. intros ->. cbv zeta.
  repeat split; intros; repeat match goal with H : _ = _ |- _ => rewrite H end; done.
Qed.

Lemma at_set_insert (out : DataFrame) (i : nat) (c : string) (v : value) (l : list value) :
  df_cols out !! c = Some l →
  at_set out i c v = {| df_len := df_len out; df_cols := <[c := <[i := v]> l]> (df_cols out) |}.
Proof. intros Hl. unfold at_set. f_equal. by apply alter_alt_Some. Qed.

Lemma check_pair_rows_spec (B : PyBuiltins) (sc tc chk : string) (rows : list nat)
    (out : DataFrame) (s t c0 : list value) :
  df_cols out !! sc = Some s → df_cols out !! tc = Some t → df_cols out !! chk = Some c0 →
  chk ≠ sc → chk ≠ tc →
  (∀ i, i ∈ rows → (i < length s)%nat ∧ (i < length t)%nat) →
  check_pair_rows B sc tc chk rows out
  = Ok {| df_len := df_len out;
          df_cols := <[chk := foldl (λ c i, match pair_row_write B s t i with
                                            | Some v => <[i := v]> c
                                            | None => c
                                            end) c0 rows]> (df_cols out) |}.
Proof.
  revert out c0. induction rows as [|i rows IH]; intros out c0 Hs Ht Hc Hcs Hct Hrows.
  { cbn. rewrite insert_id by done. by destruct out. }
  destruct (Hrows i ltac:(by left)) as [His Hit].
  destruct (lookup_lt_is_Some_2 s i His) as [x Hx].
  destruct (lookup_lt_is_Some_2 t i Hit) as [y Hy].
  assert (Hgx : at_get out i sc = Ok x) by (unfold at_get; by rewrite Hs, Hx).
  assert (Hgy : at_get out i tc = Ok y) by (unfold at_get; by rewrite Ht, Hy).
  assert (Hw : pair_row_write B s t i
               = let l := pair_label (safe_list_len B x) (safe_list_len B y) in
                 if bool_decide (l = "OK") then None else Some (VStr l))
    by (unfold pair_row_write; by rewrite Hx, Hy).
  unfold check_pair_rows. cbn [for_each foldl].
  rewrite Hgx. cbn [mbind result_bind]. rewrite Hgy. cbn [mbind result_bind].
  rewrite Hw. cbv zeta. unfold pair_label.
  set (ls := safe_list_len B x). set (lt := safe_list_len B y).
  change (for_each _ rows ?o) with (check_pair_rows B sc tc chk rows o).
  assert (Hrest : ∀ out' c', df_cols out' = <[chk := c']> (df_cols out) →
    df_len out' = df_len out →
    check_pair_rows B sc tc chk rows out'
    = Ok {| df_len := df_len out;
            df_cols := <[chk := foldl (λ c i, match pair_row_write B s t i with
                                              | Some v => <[i := v]> c
                                              | None => c
                                              end) c' rows]> (df_cols out) |}).
  { intros out' c' Hcols Hlen.
    rewrite (IH out' c').
    - rewrite Hlen, Hcols, insert_insert_eq. done.
    - by rewrite Hcols, lookup_insert_ne.
    - by rewrite Hcols, lookup_insert_ne.
    - by rewrite Hcols, lookup_insert_eq.
    - done.
    - done.
    - intros i0 Hi0. apply Hrows. by right. }
  destruct ((ls =? -1) || (lt =? -1)).
  { rewrite bool_decide_eq_false_2 by done. cbn [mbind result_bind].
    apply Hrest; [|done]. by rewrite (at_set_insert out i chk _ c0). }
  destruct (negb (ls =? lt)).
  { rewrite bool_decide_eq_false_2 by done. cbn [mbind result_bind].
    apply Hrest; [|done]. by rewrite (at_set_insert out i chk _ c0). }
  rewrite bool_decide_eq_true_2 by done. cbn [mbind result_bind].
  apply Hrest; [|done]. by rewrite insert_id.
Qed.

Lemma pairs_independent_app (ps qs : list (string * string)) :
  pairs_independent (ps ++ qs) → pairs_independent ps.
Proof.
  intros [Hnd Hcols]. split.
  - rewrite fmap_app in Hnd. by apply NoDup_app in Hnd as [? _].
  - intros p q Hp Hq. apply Hcols; apply elem_of_app; by left.
Qed.

Lemma pair_check_col_inj (c1 c2 : string) : pair_check_col c1 = pair_check_col c2 → c1 = c2.
Proof. apply string_append_inj_r. Qed.

Lemma pairs_independent_last (ps : list (string * string)) (q p : string * string) :
  pairs_independent (ps ++ [q]) → p ∈ ps → pair_check_col p.1 ≠ pair_check_col q.1.
Proof.
  intros [Hnd _] Hp Heq. apply pair_check_col_inj in Heq.
  rewrite fmap_app in Hnd. apply NoDup_app in Hnd as (_ & Hdisj & _).
  apply (Hdisj p.1).
  - by apply list_elem_of_fmap_2.
  - rewrite Heq. by left.
Qed.

(** The table after the pair loop: same rows, every column that is no
    check column of a pair untouched, and the check column of each pair whose
    two columns exist rewritten row by row from the input columns. *)
Lemma check_signs_time_pairs_cols (B : PyBuiltins) (df : DataFrame)
    (pairs : list (string * string)) :
  df_wf df → pairs_independent pairs →
  ∃ out, check_signs_time_pairs B df pairs = Ok out
    ∧ df_len out = df_len df
    ∧ (∀ c, (∀ p, p ∈ pairs → c ≠ pair_check_col p.1) → df_cols out !! c = df_cols df !! c)
    ∧ (∀ p s t, p ∈ pairs → df_cols df !! p.1 = Some s → df_cols df !! p.2 = Some t →
         df_cols out !! pair_check_col p.1
         = Some (foldl (λ c i, match pair_row_write B s t i with
                               | Some v => <[i := v]> c
                               | None => c
                               end)
                   (replicate (df_len df) (VStr "OK")) (seq 0 (df_len df)))).
Proof.
  intros Hwf. induction pairs as [|q ps IH] using rev_ind; intros Hind.
  { exists df. split; [done|]. split; [done|]. split; [done|].
    intros p s t Hp. by apply elem_of_nil in Hp. }
  destruct (IH (pairs_independent_app _ _ Hind)) as (out' & Hrun & Hlen & Hsame & Hchk).
  unfold check_signs_time_pairs. rewrite for_each_app.
  change (for_each _ ps df) with (check_signs_time_pairs B df ps).
  rewrite Hrun. cbn [mbind result_bind for_each]. cbv zeta.
  unfold has_col.
  destruct (df_cols df !! q.1) as [s|] eqn:Hs; cycle 1.
  { cbn [negb orb]. exists out'. split; [done|]. split; [done|]. split.
    - intros c Hc. apply Hsame. intros p Hp. apply Hc, elem_of_app. by left.
    - intros p s t Hp Hps Hpt. apply elem_of_app in Hp as [Hp|Hp]; [by apply Hchk|].
      apply list_elem_of_singleton in Hp as ->. congruence. }
  destruct (df_cols df !! q.2) as [t|] eqn:Ht; cycle 1.
  { cbn [negb orb]. exists out'. split; [done|]. split; [done|]. split.
    - intros c Hc. apply Hsame. intros p Hp. apply Hc, elem_of_app. by left.
    - intros p s' t' Hp Hps Hpt. apply elem_of_app in Hp as [Hp|Hp]; [by apply Hchk|].
      apply list_elem_of_singleton in Hp as ->. congruence. }
  cbn [negb orb].
  change (q.1 +:+ "_pair_check") with (pair_check_col q.1).
  destruct Hind as [Hnd Hcols].
  assert (Hq : q ∈ ps ++ [q]) by (apply elem_of_app; right; by left).
  destruct (Hcols q q Hq Hq) as [Hq1 Hq2].
  assert (Hs' : df_cols (fill_col out' (pair_check_col q.1) (VStr "OK")) !! q.1 = Some s).
  { cbn [fill_col df_cols]. rewrite lookup_insert_ne by done.
    rewrite Hsame; [done|]. intros p Hp Heq.
    destruct (Hcols p q) as [Hp1 _]; [apply elem_of_app; by left|done|]. by apply Hp1. }
  assert (Ht' : df_cols (fill_col out' (pair_check_col q.1) (VStr "OK")) !! q.2 = Some t).
  { cbn [fill_col df_cols]. rewrite lookup_insert_ne by done.
    rewrite Hsame; [done|]. intros p Hp Heq.
    destruct (Hcols p q) as [_ Hp2]; [apply elem_of_app; by left|done|]. by apply Hp2. }
  rewrite (check_pair_rows_spec B q.1 q.2 (pair_check_col q.1) _ _ s t
             (replicate (df_len out') (VStr "OK")) Hs' Ht').
  - cbn [fill_col df_cols df_len]. rewrite insert_insert_eq, Hlen.
    eexists. split; [done|]. cbn [df_len df_cols]. split; [done|]. split.
    + intros c Hc. rewrite lookup_insert_ne by (intros Heq; by apply (Hc q Hq)).
      apply Hsame. intros p Hp. apply Hc, elem_of_app. by left.
    + intros p s' t' Hp Hps Hpt. apply elem_of_app in Hp as [Hp|Hp].
      * rewrite lookup_insert_ne
          by (intros Heq; by apply (pairs_independent_last ps q p (conj Hnd Hcols) Hp)).
        by apply Hchk.
      * apply list_elem_of_singleton in Hp as ->.
        rewrite lookup_insert_eq.
        assert (s' = s) as -> by congruence. assert (t' = t) as -> by congruence. done.
  - cbn [fill_col df_cols]. by rewrite lookup_insert_eq.
  - done.
  - done.
  - intros i Hi. cbn [fill_col df_len] in Hi. apply elem_of_seq in Hi.
    rewrite (Hwf _ _ Hs), (Hwf _ _ Ht). lia.
Qed.

(** The pair check on pairs that do not interfere.  For a table whose
    columns all have one cell per row and pairs of which no two share a
    signs column and no check column is a column a pair reads, the pair
    check returns a table, raising
    nothing, in which every row of every pair whose two columns exist carries
    in the column named after the signs column the label of the two list
    lengths: the parse-error label when either length is -1, the mismatch
    label with both lengths when they differ, and OK otherwise; a length is
    that of the JSON parse when it succeeds on a list, of the literal parse
    when the JSON parse raises, and -1 in every other case. *)
Theorem check_signs_time_pairs_labels (B : PyBuiltins) (df : DataFrame)
    (pairs : list (string * string)) :
  df_wf df → pairs_independent pairs →
  ∃ out, check_signs_time_pairs B df pairs = Ok out
    ∧ df_len out = df_len df
    ∧ ∀ signs_col times_col i x y,
        (signs_col, times_col) ∈ pairs →
        at_get df i signs_col = Ok x → at_get df i times_col = Ok y →
        let l_signs := safe_list_len B x in
        let l_times := safe_list_len B y in
        ∃ label, at_get out i (signs_col +:+ "_pair_check") = Ok (VStr label)
          ∧ (l_signs = -1 ∨ l_times = -1 → label = "Parse error (non-list)")
          ∧ (l_signs ≠ -1 → l_times ≠ -1 → l_signs ≠ l_times →
               label = "Length mismatch (signs=" +:+ str_of_Z l_signs
                       +:+ ", times=" +:+ str_of_Z l_times +:+ ")")
          ∧ (l_signs ≠ -1 → l_times ≠ -1 → l_signs = l_times → label = "OK").
Proof.
  intros Hwf Hind.
  destruct (check_signs_time_pairs_cols B df pairs Hwf Hind)
    as (out & Hrun & Hlen & _ & Hchk).
  exists out. split; [done|]. split; [done|].
  intros sc tc i x y Hp Hx Hy. cbv zeta.
  exists (pair_label (safe_list_len B x) (safe_list_len B y)).
  split; [|apply pair_label_cases].
  unfold at_get in Hx, Hy.
  destruct (df_cols df !! sc) as [s|] eqn:Hs; [|done].
  destruct (df_cols df !! tc) as [t|] eqn:Ht; [|done].
  destruct (s !! i) as [x'|] eqn:Hsi; [|done].
  destruct (t !! i) as [y'|] eqn:Hti; [|done].
  injection Hx as ->. injection Hy as ->.
  pose proof (Hchk (sc, tc) s t Hp Hs Ht) as Hcol. cbn [fst snd] in Hcol.
  unfold at_get. change (sc +:+ "_pair_check") with (pair_check_col sc).
  rewrite Hcol, foldl_write_lookup.
  assert (Hi : (i < df_len df)%nat).
  { rewrite <-(Hwf _ _ Hs). by apply lookup_lt_Some in Hsi. }
  rewrite bool_decide_eq_true_2 by (apply elem_of_seq; lia).
  unfold pair_row_write. rewrite Hsi, Hti. cbv zeta.
  destruct (bool_decide_reflect
              (pair_label (safe_list_len B x) (safe_list_len B y) = "OK")) as [->|_].
  - by rewrite lookup_replicate_2.
  - by rewrite list_lookup_insert_eq by (by rewrite length_replicate).
Qed.

Lemma check_signs_time_pairs_labels_witness :
  ∃ out, check_signs_time_pairs list_text_builtins shared_signs_table one_pair = Ok out
    ∧ at_get out 0 "Signs_pair_check" = Ok (VStr "Length mismatch (signs=1, times=2)").
Proof.
  assert (Hwf : df_wf shared_signs_table).
  { unfold df_wf. refine (bool_decide_unpack _ _). vm_compute. exact I. }
  assert (Hind : pairs_independent one_pair).
  { split.
    - refine (bool_decide_unpack _ _). vm_compute. exact I.
    - intros p q Hp Hq. apply list_elem_of_singleton in Hp as ->.
      apply list_elem_of_singleton in Hq as ->. split; vm_compute; discriminate. }
  destruct (check_signs_time_pairs_labels list_text_builtins shared_signs_table one_pair
              Hwf Hind) as (out & Hrun & _ & Hrows).
  exists out. split; [exact Hrun|].
  destruct (Hrows "Signs" "TimesA" 0%nat (VStr "[1]") (VStr "[1, 2]")
              ltac:(by left) eq_refl eq_refl) as (label & Hget & _ & Hmis & _).
  change ("Signs" +:+ "_pair_check") with "Signs_pair_check" in Hget.
  rewrite Hget. f_equal. f_equal. rewrite Hmis; [reflexivity|..]; vm_compute; discriminate.
Defined.

(** C8: two configured pairs on one signs column.  The row of the
    table has one sign and two times of operation for the first pair, so
    the label of that pair is the length mismatch; the pass of the second
    pair, whose lists have the same length, first sets the shared check
    column back to "OK", and the table that is returned reports the row as
    "OK": the mismatch of the first pair is lost. *)
Theorem check_signs_time_pairs_shared_signs :
  pair_label (safe_list_len list_text_builtins (VStr "[1]"))
    (safe_list_len list_text_builtins (VStr "[1, 2]"))
  = "Length mismatch (signs=1, times=2)"
  ∧ result_col (check_signs_time_pairs list_text_builtins shared_signs_table one_pair)
      "Signs_pair_check" = Some [VStr "Length mismatch (signs=1, times=2)"]
  ∧ result_col (check_signs_time_pairs list_text_builtins shared_signs_table
                  shared_signs_pairs) "Signs_pair_check" = Some [VStr "OK"].
Proof. repeat split; vm_compute; reflexivity. Qed.

(** ** Idempotence of the three smoothers *)

(** C6: each of the three smoothers is idempotent: applying
    [correct_yes_no_sequence], [correct_number_of_lanes] or
    [correct_horizontal_plane] twice with the same [min_consecutive]
    gives the same sequence as applying it once, for every sequence of
    cells (missing cells included) and every threshold. *)
Theorem smoothers_idempotent {A : Type} `{PyCell A} `{!PyCellLaws A}
    (s : list A) (k : Z) :
  correct_yes_no_sequence (correct_yes_no_sequence s k) k = correct_yes_no_sequence s k
  ∧ correct_number_of_lanes (correct_number_of_lanes s k) k = correct_number_of_lanes s k
  ∧ correct_horizontal_plane (correct_horizontal_plane s k) k = correct_horizontal_plane s k.
Proof.
  split; [|split].
  - destruct s as [|x t]; [done|].
    rewrite !correct_yes_no_sequence_scan. f_equal.
    by apply scan_all_idempotent.
  - rewrite !correct_number_of_lanes_scan. by apply scan_all_idempotent.
  - rewrite !correct_horizontal_plane_scan. apply scan_all_idempotent.
    apply isna_proper.
Qed.

Lemma smoothers_idempotent_witness :
  let s := [VStr "No"; VStr "Yes"; NaN; VStr "No"; VStr "No"; VStr "Yes"] in
  correct_yes_no_sequence s 3 = [VStr "No"; VStr "No"; VStr "No"; VStr "No"; VStr "No"; VStr "No"]
  ∧ (correct_yes_no_sequence (correct_yes_no_sequence s 3) 3 = correct_yes_no_sequence s 3
     ∧ correct_number_of_lanes (correct_number_of_lanes s 3) 3 = correct_number_of_lanes s 3
     ∧ correct_horizontal_plane (correct_horizontal_plane s 3) 3 = correct_horizontal_plane s 3).
Proof.
  split; [vm_compute; reflexivity|].
  exact (smoothers_idempotent (A := value) (H := value_cell) (PyCellLaws0 := value_laws)
           [VStr "No"; VStr "Yes"; NaN; VStr "No"; VStr "No"; VStr "Yes"] 3).
Defined.

(* ================================================================== *)
(** * Further properties of the smoothers *)
(* ================================================================== *)

Section ScanMore.
Context {A : Type} `{PyCell A}.
Variable na : A → bool.
Variable look : bool.
Variable k : Z.

Lemma subst_na_cases (p : option A) (v : A) :
  subst_na na p v = v ∨ p = Some (subst_na na p v).
Proof.
  destruct p as [q|]; cbn [subst_na]; [|by left].
  destruct (na q); [by left|by right].
Qed.

(** Every cell of the scanned list is a cell of the list at the same or
    an earlier position, or the cell in front of the list. *)
Lemma scan_all_forward (p : option A) (l : list A) (j : nat) (y : A) :
  scan_all na look k p l !! j = Some y →
  (∃ i, (i ≤ j)%nat ∧ l !! i = Some y) ∨ p = Some y.
Proof.
  remember (length l) as n eqn:Hn. revert p l j Hn.
  induction n as [n IH] using lt_wf_ind. intros p l j -> Hy.
  destruct l as [|v t]; [done|].
  destruct (na v) eqn:Hv.
  { rewrite scan_all_skip in Hy by done.
    destruct j as [|j].
    { left. exists 0%nat. split; [lia|]. exact Hy. }
    change ((v :: scan_all na look k (Some v) t) !! S j)
      with (scan_all na look k (Some v) t !! j) in Hy.
    destruct (IH (length t) ltac:(simpl; lia) (Some v) t j eq_refl Hy)
      as [(i & Hi & Hl)|Hp].
    - left. exists (S i). split; [lia|done].
    - left. exists 0%nat. split; [lia|done]. }
  rewrite scan_all_block in Hy by done. cbv zeta in Hy.
  pose proof (run_after_le v t) as Hle.
  set (r := run_after v t) in *.
  assert (Hlen : (length (drop (S r) (v :: t)) < length (v :: t))%nat)
    by (rewrite length_drop; simpl; lia).
  assert (Hfront : ∀ q : A, subst_na na p v = q →
            (∃ i, (i ≤ j)%nat ∧ (v :: t) !! i = Some q) ∨ p = Some q).
  { intros q <-. destruct (subst_na_cases p v) as [-> |Hp]; [|by right].
    left. exists 0%nat. split; [lia|done]. }
  assert (Hrest : ∀ j' i, (S r + j' ≤ j)%nat → (i ≤ j')%nat →
            drop (S r) (v :: t) !! i = Some y →
            ∃ i, (i ≤ j)%nat ∧ (v :: t) !! i = Some y).
  { intros j' i Hj' Hi Hd. rewrite lookup_drop in Hd.
    exists (S r + i)%nat. split; [lia|done]. }
  destruct (spike na look k p v (S r) (head (drop (S r) (v :: t)))).
  - destruct (decide (j < S r)%nat) as [Hj|Hj].
    + rewrite lookup_app_l in Hy by (rewrite length_replicate; lia).
      apply lookup_replicate in Hy as [-> _]. by apply Hfront.
    + rewrite lookup_app_r in Hy by (rewrite length_replicate; lia).
      rewrite length_replicate in Hy.
      destruct (IH _ Hlen _ _ _ eq_refl Hy) as [(i & Hi & Hl)|Hp].
      * left. apply (Hrest (j - S r)%nat i); [lia|done|done].
      * injection Hp as Hp. by apply Hfront.
  - assert (Htl : length (take (S r) (v :: t)) = S r)
      by (rewrite length_take; simpl; lia).
    destruct (decide (j < S r)%nat) as [Hj|Hj].
    + rewrite lookup_app_l in Hy by lia.
      rewrite lookup_take_lt in Hy by done.
      left. exists j. split; [lia|done].
    + rewrite lookup_app_r in Hy by lia. rewrite Htl in Hy.
      destruct (IH _ Hlen _ _ _ eq_refl Hy) as [(i & Hi & Hl)|Hp].
      * left. apply (Hrest (j - S r)%nat i); [lia|done|done].
      * rewrite last_lookup, Htl in Hp. cbn [pred] in Hp.
        rewrite lookup_take_lt in Hp by lia.
        left. exists r. split; [lia|done].
Qed.

(** With a threshold of one or less no block is short, and nothing is
    rewritten. *)
Lemma scan_all_small_threshold (p : option A) (l : list A) :
  (k ≤ 1)%Z → scan_all na look k p l = l.
Proof.
  intros Hk. remember (length l) as n eqn:Hn. revert p l Hn.
  induction n as [n IH] using lt_wf_ind. intros p l ->.
  destruct l as [|v t]; [done|].
  destruct (na v) eqn:Hv.
  { rewrite scan_all_skip by done. f_equal. apply (IH (length t)); [simpl; lia|done]. }
  rewrite scan_all_block by done. cbv zeta.
  pose proof (run_after_le v t) as Hle.
  set (r := run_after v t) in *.
  assert (Hsp : spike na look k p v (S r) (head (drop (S r) (v :: t))) = false).
  { unfold spike. replace (Z.of_nat (S r) <? k)%Z with false; [by rewrite andb_false_r|].
    symmetry. apply Z.ltb_ge. lia. }
  rewrite Hsp.
  rewrite (IH (length (drop (S r) (v :: t)))); [apply take_drop| |done].
  rewrite length_drop. simpl. lia.
Qed.

End ScanMore.

(** The smoothers only copy cells forward: every cell of the output of
    each of the three smoothers is the input cell at the same or at an
    earlier position.  No value is invented and none moves backwards. *)
Theorem smoothers_copy_forward {A : Type} `{PyCell A} (s : list A) (k : Z) :
  (∀ j y, correct_yes_no_sequence s k !! j = Some y → ∃ i, (i ≤ j)%nat ∧ s !! i = Some y)
  ∧ (∀ j y, correct_number_of_lanes s k !! j = Some y → ∃ i, (i ≤ j)%nat ∧ s !! i = Some y)
  ∧ (∀ j y, correct_horizontal_plane s k !! j = Some y → ∃ i, (i ≤ j)%nat ∧ s !! i = Some y).
Proof.
  split; [|split].
  - intros j y Hy. destruct s as [|x t]; [done|].
    rewrite correct_yes_no_sequence_scan in Hy.
    destruct j as [|j]; [exists 0%nat; split; [lia|exact Hy]|].
    change ((x :: ?l) !! S j) with (l !! j) in Hy.
    apply scan_all_forward in Hy as [(i & Hi & Hl)|Hp].
    + exists (S i). split; [lia|done].
    + exists 0%nat. split; [lia|done].
  - intros j y Hy. rewrite correct_number_of_lanes_scan in Hy.
    by apply scan_all_forward in Hy as [Hy|Hy].
  - intros j y Hy. rewrite correct_horizontal_plane_scan in Hy.
    by apply scan_all_forward in Hy as [Hy|Hy].
Qed.

(** With [min_consecutive] at most one, no block is shorter than the
    threshold and each of the three smoothers returns its input. *)
Theorem smoothers_threshold_one {A : Type} `{PyCell A} (s : list A) (k : Z) :
  (k ≤ 1)%Z →
  correct_yes_no_sequence s k = s
  ∧ correct_number_of_lanes s k = s
  ∧ correct_horizontal_plane s k = s.
Proof.
  intros Hk. split; [|split].
  - destruct s as [|x t]; [done|].
    rewrite correct_yes_no_sequence_scan. f_equal. by apply scan_all_small_threshold.
  - rewrite correct_number_of_lanes_scan. by apply scan_all_small_threshold.
  - rewrite correct_horizontal_plane_scan. by apply scan_all_small_threshold.
Qed.

Lemma smoothers_threshold_one_witness :
  let s := [VStr "No"; VStr "Yes"; NaN; VStr "No"; VInt 2; VStr "No"] in
  correct_yes_no_sequence s 1 = s
  ∧ correct_number_of_lanes s 1 = s
  ∧ correct_horizontal_plane s 1 = s.
Proof.
  exact (smoothers_threshold_one (A := value)
           [VStr "No"; VStr "Yes"; NaN; VStr "No"; VInt 2; VStr "No"] 1 ltac:(lia)).
Defined.

Section SelfEqual.
Context {A : Type} `{PyCell A} `{!PyCellLaws A}.
Variable look : bool.
Variable k : Z.
Hypothesis k_two : (2 ≤ k)%Z.

Lemma take_run_self_equal (v : A) (t : list A) :
  py_eqb v v = true →
  Forall (λ y, py_eqb y y = true) (take (S (run_after v t)) (v :: t)).
Proof.
  intros Hv. cbn [take]. apply Forall_cons. split; [done|].
  eapply Forall_impl; [apply run_after_take|].
  intros x Hx. by apply (py_eqb_refl_l x v).
Qed.

(** A cell that is not equal to itself is a block of one cell that
    differs from every neighbour: it is overwritten. *)
Lemma scan_all_self_equal (e : A) (l : list A) :
  py_eqb e e = true →
  Forall (λ y, py_eqb y y = true) (scan_all (λ _, false) look k (Some e) l).
Proof.
  remember (length l) as n eqn:Hn. revert e l Hn.
  induction n as [n IH] using lt_wf_ind. intros e l -> He.
  destruct l as [|v t]; [by apply Forall_nil_2|].
  rewrite scan_all_block by done. cbv zeta.
  pose proof (run_after_le v t) as Hle.
  assert (Hlen : (length (drop (S (run_after v t)) (v :: t)) < length (v :: t))%nat)
    by (rewrite length_drop; simpl; lia).
  cbn [subst_na].
  destruct (py_eqb v v) eqn:Hv.
  - destruct (spike _ _ _ _ _ _ _).
    + apply Forall_app. split; [by apply Forall_replicate|].
      by apply (IH _ Hlen).
    + pose proof (take_run_self_equal v t Hv) as Htake.
      apply Forall_app. split; [done|].
      destruct (last (take (S (run_after v t)) (v :: t))) as [e'|] eqn:Hlast;
        [|by apply last_None in Hlast].
      apply (IH _ Hlen); [done|].
      rewrite Forall_forall in Htake. apply Htake. by apply last_Some_elem_of.
  - assert (Hall : ∀ x, py_neb v x = true).
    { intros x. unfold py_neb. destruct (py_eqb v x) eqn:Hvx; [|done].
      by rewrite (py_eqb_refl_l v x) in Hv. }
    rewrite (run_after_irrefl v t Hv) in *.
    assert (Hsp : spike (λ _, false) look k (Some e) v 1 (head (drop 1 (v :: t))) = true).
    { unfold spike. rewrite !Hall. cbn [subst_na andb].
      replace (Z.of_nat 1 <? k)%Z with true by (symmetry; apply Z.ltb_lt; lia).
      by destruct look. }
    rewrite Hsp. apply Forall_app. split; [by apply Forall_replicate|].
    by apply (IH _ Hlen).
Qed.

End SelfEqual.

(** Cells that are not equal to themselves (the float NaN of a missing
    answer) do not survive run-length smoothing or spike removal: when the
    first cell of the sequence is equal to itself and [min_consecutive] is
    at least two, every cell of the output is equal to itself.  Each such
    cell is a block of one that differs from all its neighbours, and is
    overwritten with the corrected cell in front of it. *)
Theorem smoothers_fill_unequal_cells {A : Type} `{PyCell A} `{!PyCellLaws A}
    (x : A) (t : list A) (k : Z) :
  (2 ≤ k)%Z → py_eqb x x = true →
  Forall (λ y, py_eqb y y = true) (correct_yes_no_sequence (x :: t) k)
  ∧ Forall (λ y, py_eqb y y = true) (correct_number_of_lanes (x :: t) k).
Proof.
  intros Hk Hx. split.
  - rewrite correct_yes_no_sequence_scan. apply Forall_cons. split; [done|].
    by apply scan_all_self_equal.
  - rewrite correct_number_of_lanes_scan, scan_all_block by done. cbv zeta.
    assert (Hsp : spike (λ _, false) true k None x (S (run_after x t))
                    (head (drop (S (run_after x t)) (x :: t))) = false).
    { unfold spike. cbn [subst_na]. unfold py_neb. by rewrite Hx. }
    rewrite Hsp.
    pose proof (take_run_self_equal x t Hx) as Htake.
    apply Forall_app. split; [done|].
    destruct (last (take (S (run_after x t)) (x :: t))) as [e'|] eqn:Hlast;
      [|by apply last_None in Hlast].
    apply scan_all_self_equal; [done|].
    rewrite Forall_forall in Htake. apply Htake. by apply last_Some_elem_of.
Qed.

Lemma smoothers_fill_unequal_cells_witness :
  correct_yes_no_sequence [VStr "Yes"; NaN; VStr "No"; VStr "No"; VStr "No"; NaN] 3
    = [VStr "Yes"; VStr "Yes"; VStr "No"; VStr "No"; VStr "No"; VStr "No"]
  ∧ Forall (λ y, py_eqb y y = true)
      (correct_yes_no_sequence [VStr "Yes"; NaN; VStr "No"; VStr "No"; VStr "No"; NaN] 3)
  ∧ Forall (λ y, py_eqb y y = true)
      (correct_number_of_lanes [VStr "Yes"; NaN; VStr "No"; VStr "No"; VStr "No"; NaN] 3).
Proof.
  split; [vm_compute; reflexivity|].
  apply (smoothers_fill_unequal_cells (A := value) (VStr "Yes")
           [NaN; VStr "No"; VStr "No"; VStr "No"; NaN] 3); [lia|vm_compute; reflexivity].
Defined.

(** The block rule of run-length smoothing.  The first cell is trusted;
    the cells after it are judged block by block, a block being a maximal
    run of equal cells of the sequence without its first cell.  A block is
    overwritten exactly when it is shorter than [min_consecutive] and
    differs from the corrected cell in front of it (the output at the
    position before the block), and it is then overwritten with that
    cell; the cell behind the block plays no part. *)
Theorem yes_no_block_rule {A : Type} `{PyCell A} `{!PyCellLaws A}
    (x : A) (t : list A) (k : Z) (i c : nat) (v : A) :
  is_block t i c → t !! i = Some v →
  let out := correct_yes_no_sequence (x :: t) k in
  out !! 0%nat = Some x
  ∧ ∃ prev_val, out !! i = Some prev_val
    ∧ ∀ j, (i ≤ j < i + c)%nat →
        out !! S j = if py_neb v prev_val && (Z.of_nat c <? k)%Z
                     then Some prev_val else t !! j.
Proof.
  intros Hb Hv out. subst out. rewrite correct_yes_no_sequence_scan.
  split; [done|].
  set (Y := scan_all (λ _, false) false k (Some x) t).
  assert (HlenY : length Y = length t) by apply scan_all_length.
  assert (Hprev : ∃ prev_val, (x :: Y) !! i = Some prev_val).
  { apply lookup_lt_is_Some_2. cbn [length]. rewrite HlenY.
    apply lookup_lt_Some in Hv. lia. }
  destruct Hprev as [prev_val Hprev]. exists prev_val. split; [done|].
  intros j Hj.
  pose proof (scan_all_blocks (λ _, false) false k (Some x) t i c v Hb Hv eq_refl j Hj)
    as Hres.
  fold Y in Hres. cbv zeta in Hres. unfold spike in Hres.
  change ((x :: Y) !! S j) with (Y !! j). rewrite Hres.
  assert (Hpv : match i with O => Some x | S i' => Y !! i' end = Some prev_val)
    by (by destruct i).
  rewrite Hpv. cbn [subst_na]. by rewrite andb_true_r.
Qed.

Lemma yes_no_block_rule_witness :
  let t := [VStr "Yes"; VStr "Yes"; VStr "No"; VStr "No"; VStr "No"] in
  let out := correct_yes_no_sequence (VStr "No" :: t) 3 in
  out !! 0%nat = Some (VStr "No")
  ∧ ∃ prev_val, out !! 0%nat = Some prev_val
    ∧ ∀ j, (0 ≤ j < 0 + 2)%nat →
        out !! S j = if py_neb (VStr "Yes") prev_val && (Z.of_nat 2 <? 3)%Z
                     then Some prev_val else t !! j.
Proof.
  apply (yes_no_block_rule (A := value) (VStr "No")
           [VStr "Yes"; VStr "Yes"; VStr "No"; VStr "No"; VStr "No"] 3 0 2 (VStr "Yes")).
  - apply (@is_blockb_spec value value_cell
             [VStr "Yes"; VStr "Yes"; VStr "No"; VStr "No"; VStr "No"] 0%nat 2%nat
             ltac:(vm_compute; reflexivity)).
  - reflexivity.
Defined.

(* ================================================================== *)
(** * Further properties of lane-count normalization *)
(* ================================================================== *)

Lemma convert_lane_value_int_or_same (B : PyBuiltins) (x : value) :
  (∃ n, _convert_lane_value B x = VInt n)
  ∨ (_convert_lane_value B x = x ∧ value_isna x = false).
Proof.
  unfold _convert_lane_value.
  destruct (value_isna x) eqn:Hna; [left; by eexists|].
  destruct x as [s|z|f|b|].
  - destruct (lane_map_get s); [left; by eexists|].
    destruct (int_of_str B _); [left; by eexists|by right].
  - left. by eexists.
  - destruct (int_of_float f); [left; by eexists|by right].
  - destruct (int_of_str B _); [left; by eexists|by right].
  - destruct (int_of_str B _); [left; by eexists|by right].
Qed.

(** Lane-count normalization is idempotent: normalizing a normalized
    column changes nothing, whatever the cells hold. *)
Theorem normalize_lanes_idempotent (B : PyBuiltins) (lanes : list value) :
  normalize_lanes B (normalize_lanes B lanes) = normalize_lanes B lanes.
Proof.
  unfold normalize_lanes. rewrite <-list_fmap_compose.
  apply list_fmap_ext. intros i x _. cbn [compose].
  destruct (convert_lane_value_int_or_same B x) as [[n Hn]|[Hx _]].
  - rewrite Hn. reflexivity.
  - by rewrite Hx.
Qed.

(** After lane-count normalization no cell of the column is missing: a
    missing cell has become the integer 1 and no other cell becomes
    missing. *)
Theorem normalize_lanes_not_missing (B : PyBuiltins) (lanes : list value) :
  length (normalize_lanes B lanes) = length lanes
  ∧ Forall (λ y, value_isna y = false) (normalize_lanes B lanes).
Proof.
  unfold normalize_lanes. split; [apply length_fmap|].
  apply Forall_fmap, Forall_forall. intros x _. cbn [compose].
  destruct (convert_lane_value_int_or_same B x) as [[n Hn]|[Hx Hna]].
  - rewrite Hn. reflexivity.
  - by rewrite Hx.
Qed.

(* ================================================================== *)
(** * The toggle labels of a sequence *)
(* ================================================================== *)

Lemma issue_loop_spec (fuel : nat) (sequence : list value) (labels : list string) (i : nat) :
  (1 ≤ i)%nat → length labels = length sequence →
  (length sequence ≤ fuel + i)%nat →
  (∀ j, (i ≤ j < length sequence)%nat → labels !! j = Some "OK") →
  let L := issue_loop fuel sequence labels i in
  length L = length sequence
  ∧ (∀ j, (j < i)%nat → L !! j = labels !! j)
  ∧ (∀ j, (i ≤ j)%nat → S j = length sequence → L !! j = Some "OK")
  ∧ (∀ j prev_v v next_v, (i ≤ S j)%nat →
       sequence !! j = Some prev_v → sequence !! S j = Some v →
       sequence !! S (S j) = Some next_v →
       L !! S j = Some (if bool_decide (S j = i ∨ L !! j = Some "OK")
                        then toggle_label prev_v v next_v else "OK")).
Proof.
  revert labels i. induction fuel as [|fuel IH]; intros labels i Hi Hlen Hfuel Hok L.
  { subst L. cbn [issue_loop]. split; [done|]. split; [done|]. split.
    - intros j Hj Hn. lia.
    - intros j prev_v v next_v Hj _ _ Hnext. apply lookup_lt_Some in Hnext. lia. }
  subst L. cbn [issue_loop].
  destruct (i + 1 <? length sequence)%nat eqn:Hin; cycle 1.
  { apply Nat.ltb_ge in Hin. split; [done|]. split; [done|]. split.
    - intros j Hj Hn. apply Hok. lia.
    - intros j prev_v v next_v Hj _ _ Hnext. apply lookup_lt_Some in Hnext. lia. }
  apply Nat.ltb_lt in Hin.
  destruct i as [|i']; [lia|].
  replace (S i' - 1)%nat with i' by lia.
  replace (S i' + 1)%nat with (S (S i')) by lia.
  destruct (lookup_lt_is_Some_2 sequence i' ltac:(lia)) as [pv Hpv].
  destruct (lookup_lt_is_Some_2 sequence (S i') ltac:(lia)) as [cv Hcv].
  destruct (lookup_lt_is_Some_2 sequence (S (S i')) ltac:(lia)) as [nv Hnv].
  rewrite Hpv, Hcv, Hnv.
  assert (Hflag : ∀ lab, lab ≠ "OK" → toggle_label pv cv nv = lab →
    let L := issue_loop fuel sequence (<[S i' := lab]> labels) (S i' + 2) in
    length L = length sequence
    ∧ (∀ j, (j < S i')%nat → L !! j = labels !! j)
    ∧ (∀ j, (S i' ≤ j)%nat → S j = length sequence → L !! j = Some "OK")
    ∧ (∀ j prev_v v next_v, (S i' ≤ S j)%nat →
         sequence !! j = Some prev_v → sequence !! S j = Some v →
         sequence !! S (S j) = Some next_v →
         L !! S j = Some (if bool_decide (S j = S i' ∨ L !! j = Some "OK")
                          then toggle_label prev_v v next_v else "OK"))).
  { intros lab Hlab Htog L.
    destruct (IH (<[S i' := lab]> labels) (S i' + 2)%nat) as (HL & Hpre & Hlast & Hrule);
      [lia|by rewrite length_insert|lia| |].
    { intros j Hj. rewrite list_lookup_insert_ne by lia. apply Hok. lia. }
    fold L in HL, Hpre, Hlast, Hrule.
    assert (Hat : L !! S i' = Some lab).
    { rewrite Hpre by lia. apply list_lookup_insert_eq. lia. }
    assert (Hnext : L !! S (S i') = Some "OK").
    { rewrite Hpre by lia. rewrite list_lookup_insert_ne by lia. apply Hok. lia. }
    split; [done|]. split.
    { intros j Hj. rewrite Hpre by lia. by rewrite list_lookup_insert_ne by lia. }
    split.
    { intros j Hj Hn. destruct (decide (j = S (S i'))) as [->|Hne]; [done|].
      apply Hlast; [|done]. lia. }
    intros j prev_v v next_v Hj Hp Hv Hn.
    destruct (decide (j = i')) as [->|Hne1].
    { rewrite Hat. rewrite bool_decide_eq_true_2 by (by left).
      rewrite Hpv in Hp. rewrite Hcv in Hv. rewrite Hnv in Hn.
      injection Hp as <-. injection Hv as <-. injection Hn as <-. by rewrite Htog. }
    destruct (decide (j = S i')) as [->|Hne2].
    { rewrite Hnext. rewrite bool_decide_eq_false_2; [done|].
      intros [Heq|Hl]; [lia|]. rewrite Hat in Hl. congruence. }
    rewrite (Hrule j prev_v v next_v) by (done || lia).
    f_equal. erewrite bool_decide_ext; [done|].
    split; intros [Heq|Hl]; try (by right); try lia.
    right. replace j with (S (S i')) by lia. done. }
  unfold toggle_label in Hflag.
  destruct (value_eqb cv (VStr "No") && value_eqb pv (VStr "Yes")
            && value_eqb nv (VStr "Yes")) eqn:Hexit.
  { by apply Hflag. }
  destruct (value_eqb cv (VStr "Yes") && value_eqb pv (VStr "No")
            && value_eqb nv (VStr "No")) eqn:Hentry.
  { by apply Hflag. }
  clear Hflag.
  destruct (IH labels (S (S i'))) as (HL & Hpre & Hlast & Hrule);
    [lia|done|lia| |].
  { intros j Hj. apply Hok. lia. }
  set (L := issue_loop fuel sequence labels (S (S i'))) in *.
  assert (Hat : L !! S i' = Some "OK").
  { rewrite Hpre by lia. apply Hok. lia. }
  split; [done|]. split.
  { intros j Hj. apply Hpre. lia. }
  split.
  { intros j Hj Hn. apply Hlast; [|done]. lia. }
  intros j prev_v v next_v Hj Hp Hv Hn.
  destruct (decide (j = i')) as [->|Hne1].
  { rewrite Hat. rewrite bool_decide_eq_true_2 by (by left).
    rewrite Hpv in Hp. rewrite Hcv in Hv. rewrite Hnv in Hn.
    injection Hp as <-. injection Hv as <-. injection Hn as <-.
    unfold toggle_label. by rewrite Hexit, Hentry. }
  rewrite (Hrule j prev_v v next_v) by (done || lia).
  f_equal. erewrite bool_decide_ext; [done|].
  split; intros [Heq|Hl]; try (by right); try lia.
  right. replace j with (S i') by lia. done.
Qed.

(** The labels of the toggle check on one sequence.  There is one label
    per cell; the first and the last cell are always "OK"; a cell between
    them is flagged exactly when the cell before it was not flagged and it
    sits between two cells of the opposite answer (Yes, No, Yes: an
    immediate exit and re-entry; No, Yes, No: an immediate entry and
    exit).  No two neighbouring cells are both flagged: the cell after a
    flagged one is not examined. *)
Theorem get_issue_labels_rule (sequence : list value) :
  let labels := get_issue_labels sequence in
  length labels = length sequence
  ∧ (∀ lab, labels !! 0%nat = Some lab → lab = "OK")
  ∧ (∀ j, S j = length sequence → labels !! j = Some "OK")
  ∧ (∀ j prev_v v next_v,
       sequence !! j = Some prev_v → sequence !! S j = Some v →
       sequence !! S (S j) = Some next_v →
       labels !! S j = Some (if bool_decide (labels !! j = Some "OK")
                             then toggle_label prev_v v next_v else "OK"))
  ∧ (∀ j, labels !! j = Some "OK" ∨ labels !! S j = Some "OK"
          ∨ (length sequence ≤ S j)%nat).
Proof.
  intros labels. subst labels. unfold get_issue_labels.
  destruct (issue_loop_spec (length sequence) sequence
              (replicate (length sequence) "OK") 1)
    as (HL & Hpre & Hlast & Hrule); [lia|by rewrite length_replicate|lia| |].
  { intros j Hj. apply lookup_replicate_2. lia. }
  set (L := issue_loop (length sequence) sequence (replicate (length sequence) "OK") 1) in *.
  assert (H0 : ∀ lab, L !! 0%nat = Some lab → lab = "OK").
  { intros lab Hlab. rewrite Hpre in Hlab by lia.
    apply lookup_replicate in Hlab as [-> _]. done. }
  assert (Hfull : ∀ j prev_v v next_v,
            sequence !! j = Some prev_v → sequence !! S j = Some v →
            sequence !! S (S j) = Some next_v →
            L !! S j = Some (if bool_decide (L !! j = Some "OK")
                             then toggle_label prev_v v next_v else "OK")).
  { intros j prev_v v next_v Hp Hv Hn.
    rewrite (Hrule j prev_v v next_v) by (done || lia).
    f_equal. erewrite bool_decide_ext; [done|].
    split; [|by right]. intros [Heq|Hl]; [|done].
    assert (j = 0%nat) as -> by lia.
    destruct (lookup_lt_is_Some_2 L 0%nat) as [lab Hlab].
    { rewrite HL. apply lookup_lt_Some in Hp. lia. }
    by rewrite Hlab, (H0 lab Hlab). }
  split; [done|]. split; [done|]. split.
  { intros j Hj. destruct j as [|j]; [|apply Hlast; [lia|done]].
    destruct (lookup_lt_is_Some_2 L 0%nat) as [lab Hlab]; [lia|].
    by rewrite Hlab, (H0 lab Hlab). }
  split; [done|].
  intros j. destruct (decide (length sequence ≤ S j)%nat) as [|Hlt]; [by right; right|].
  destruct (decide (S (S j) = length sequence)) as [Hend|Hmid].
  { right. left. apply Hlast; [lia|done]. }
  destruct (lookup_lt_is_Some_2 sequence j ltac:(lia)) as [pv Hpv].
  destruct (lookup_lt_is_Some_2 sequence (S j) ltac:(lia)) as [cv Hcv].
  destruct (lookup_lt_is_Some_2 sequence (S (S j)) ltac:(lia)) as [nv Hnv].
  pose proof (Hfull j pv cv nv Hpv Hcv Hnv) as Hj.
  destruct (bool_decide_reflect (L !! j = Some "OK")) as [Hok|Hno]; [by left|].
  right. by left.
Qed.

(* ================================================================== *)
(** * The row-wise checks *)
(* ================================================================== *)

(** A loop over the rows of a table that writes into one column only. *)
Lemma for_each_rows_write (body : DataFrame → nat → result DataFrame) (n : nat)
    (base : gmap string (list value)) (chk : string) (wr : nat → option value)
    (rows : list nat) :
  (∀ c i, i ∈ rows →
     body {| df_len := n; df_cols := <[chk := c]> base |} i
     = Ok {| df_len := n;
             df_cols := <[chk := match wr i with Some v => <[i := v]> c | None => c end]>
                          base |}) →
  ∀ c0, for_each body rows {| df_len := n; df_cols := <[chk := c0]> base |}
        = Ok {| df_len := n;
                df_cols := <[chk := foldl (λ c i, match wr i with
                                                  | Some v => <[i := v]> c
                                                  | None => c
                                                  end) c0 rows]> base |}.
Proof.
  induction rows as [|i rows IH]; intros Hbody c0; [done|].
  cbn [for_each foldl]. rewrite Hbody by (by left). cbn [mbind result_bind].
  apply IH. intros c j Hj. apply Hbody. by right.
Qed.

Lemma foldl_write_length {X : Type} (wr : nat → option X) (js : list nat) (c0 : list X) :
  length (foldl (λ c i, match wr i with Some v => <[i := v]> c | None => c end) c0 js)
  = length c0.
Proof.
  revert c0. induction js as [|i js IH]; intros c0; [done|].
  cbn [foldl]. rewrite IH. destruct (wr i); [apply length_insert|done].
Qed.

Lemma string_append_ne (s suffix : string) : suffix ≠ "" → s +:+ suffix ≠ s.
Proof.
  intros Hsuf Heq. apply (f_equal String.length) in Heq.
  rewrite string_length_append in Heq. destruct suffix; [done|]. cbn in Heq. lia.
Qed.

Lemma df_wf_insert (df : DataFrame) (c : string) (l : list value) :
  df_wf df → length l = df_len df →
  df_wf {| df_len := df_len df; df_cols := <[c := l]> (df_cols df) |}.
Proof.
  intros Hwf Hl. unfold df_wf. cbn [df_len df_cols].
  apply map_Forall_insert_2; done.
Qed.

(** ** Construction zone *)

(** The construction-zone check on a table with one cell per row in
    every column, whose three columns exist and are not the check column:
    it raises nothing and returns a table of the same rows, in which only
    the column [<roadworks>_check] differs from the input.  A row is
    labelled "RoadWorks present but missing TemporaryRoadSignage" when
    road works are "Yes" and signage is "No", "TemporaryLineMarkers
    present without RoadWorks and Signage" when line markers are "Yes" and
    road works and signage are both "No", and "OK" otherwise: a missing
    cell never flags a row. *)
Theorem check_construction_zone_rule (df : DataFrame)
    (roadworks_col signage_col linemarkers_col : string) (rwl sl ll : list value) :
  df_wf df →
  df_cols df !! roadworks_col = Some rwl →
  df_cols df !! signage_col = Some sl →
  df_cols df !! linemarkers_col = Some ll →
  signage_col ≠ roadworks_col +:+ "_check" →
  linemarkers_col ≠ roadworks_col +:+ "_check" →
  ∃ out, check_construction_zone df roadworks_col signage_col linemarkers_col = Ok out
    ∧ df_len out = df_len df ∧ df_wf out
    ∧ (∀ c, c ≠ roadworks_col +:+ "_check" → df_cols out !! c = df_cols df !! c)
    ∧ (∀ i rw sign lines,
         rwl !! i = Some rw → sl !! i = Some sign → ll !! i = Some lines →
         at_get out i (roadworks_col +:+ "_check")
         = Ok (VStr (construction_label rw sign lines))).
Proof.
  intros Hwf Hrw Hs Hl Hsc Hlc.
  set (chk := roadworks_col +:+ "_check") in *.
  assert (Hrc : roadworks_col ≠ chk).
  { intros Heq. symmetry in Heq. by apply string_append_ne in Heq. }
  set (wr := λ i : nat,
         match rwl !! i, sl !! i, ll !! i with
         | Some rw, Some sign, Some lines =>
           let l := construction_label rw sign lines in
           if bool_decide (l = "OK") then None else Some (VStr l)
         | _, _, _ => None
         end).
  unfold check_construction_zone, has_col. rewrite Hrw, Hs, Hl. cbn [negb orb].
  cbv zeta. fold chk. unfold fill_col at 2. cbn [df_len].
  unfold fill_col.
  rewrite (for_each_rows_write _ (df_len df) (df_cols df) chk wr).
  - eexists. split; [done|]. cbn [df_len df_cols]. split; [done|]. split.
    { apply df_wf_insert; [done|]. by rewrite foldl_write_length, length_replicate. }
    split.
    { intros c Hc. by rewrite lookup_insert_ne. }
    intros i rw sign lines Hirw Hisign Hilines.
    unfold at_get. cbn [df_cols]. rewrite lookup_insert_eq, foldl_write_lookup.
    assert (Hi : (i < df_len df)%nat).
    { rewrite <-(Hwf _ _ Hrw). by apply lookup_lt_Some in Hirw. }
    rewrite bool_decide_eq_true_2 by (apply elem_of_seq; lia).
    unfold wr. rewrite Hirw, Hisign, Hilines. cbv zeta.
    destruct (bool_decide_reflect (construction_label rw sign lines = "OK")) as [->|_].
    + by rewrite lookup_replicate_2.
    + by rewrite list_lookup_insert_eq by (by rewrite length_replicate).
  - intros c i Hi. apply elem_of_seq in Hi. cbn [df_len] in Hi.
    destruct (lookup_lt_is_Some_2 rwl i) as [rw Hirw]; [rewrite (Hwf _ _ Hrw); lia|].
    destruct (lookup_lt_is_Some_2 sl i) as [sign Hisign]; [rewrite (Hwf _ _ Hs); lia|].
    destruct (lookup_lt_is_Some_2 ll i) as [lines Hilines]; [rewrite (Hwf _ _ Hl); lia|].
    unfold at_get. cbn [df_cols].
    rewrite !lookup_insert_ne by done. rewrite Hrw, Hs, Hl, Hirw, Hisign, Hilines.
    cbn [mbind result_bind].
    unfold wr. rewrite Hirw, Hisign, Hilines. cbv zeta. unfold construction_label.
    assert (Hset : ∀ v, at_set {| df_len := df_len df; df_cols := <[chk := c]> (df_cols df) |}
                          i chk v
                        = {| df_len := df_len df;
                             df_cols := <[chk := <[i := v]> c]> (df_cols df) |}).
    { intros v. rewrite (at_set_insert _ i chk v c) by apply lookup_insert_eq.
      cbn [df_len df_cols]. by rewrite insert_insert_eq. }
    destruct (value_eqb rw (VStr "Yes") && value_eqb sign (VStr "No")).
    { rewrite bool_decide_eq_false_2 by done. by rewrite Hset. }
    destruct (value_eqb lines (VStr "Yes") && value_eqb rw (VStr "No")
              && value_eqb sign (VStr "No")).
    { rewrite bool_decide_eq_false_2 by done. by rewrite Hset. }
    by rewrite bool_decide_eq_true_2.
Qed.

Lemma check_construction_zone_rule_witness :
  ∃ out, check_construction_zone construction_table "RoadWorks" "Signage" "LineMarkers" = Ok out
    ∧ at_get out 0 "RoadWorks_check" = Ok (VStr roadworks_no_signage)
    ∧ at_get out 1 "RoadWorks_check" = Ok (VStr linemarkers_alone)
    ∧ at_get out 2 "RoadWorks_check" = Ok (VStr "OK").
Proof.
  assert (Hwf : df_wf construction_table).
  { unfold df_wf. refine (bool_decide_unpack _ _). vm_compute. exact I. }
  destruct (check_construction_zone_rule construction_table
              "RoadWorks" "Signage" "LineMarkers"
              [VStr "Yes"; VStr "No"; VStr "Yes"] [VStr "No"; VStr "No"; VStr "Yes"]
              [VStr "No"; VStr "Yes"; NaN] Hwf eq_refl eq_refl eq_refl
              ltac:(vm_compute; discriminate) ltac:(vm_compute; discriminate))
    as (out & Hrun & _ & _ & _ & Hrows).
  exists out. split; [exact Hrun|].
  change ("RoadWorks" +:+ "_check") with "RoadWorks_check" in Hrows.
  split; [exact (Hrows 0%nat _ _ _ eq_refl eq_refl eq_refl)|].
  split; [exact (Hrows 1%nat _ _ _ eq_refl eq_refl eq_refl)|].
  exact (Hrows 2%nat _ _ _ eq_refl eq_refl eq_refl).
Defined.

(** ** Two columns that must differ *)

Lemma zip_with_flags (flag : string) (al bl : list value) (n : nat) :
  (length al ≤ n)%nat →
  zip_with (λ (b : bool) o, if b then VStr flag else o)
    (zip_with (λ x y, negb (value_isna x) && negb (value_isna y) && value_eqb x y) al bl)
    (replicate n (VStr "OK"))
  = zip_with (λ x y, VStr (equal_pair_label flag x y)) al bl.
Proof.
  revert bl n. induction al as [|x al IH]; intros bl n Hn; [done|].
  destruct bl as [|y bl]; [done|].
  destruct n as [|n]; [simpl in Hn; lia|].
  cbn [replicate zip_with]. unfold equal_pair_label at 1.
  f_equal; [by destruct (negb (value_isna x) && negb (value_isna y) && value_eqb x y)|].
  apply IH. simpl in Hn. lia.
Qed.

Lemma equal_pair_check_spec (df : DataFrame) (a_col b_col chk flag : string)
    (al bl : list value) :
  df_wf df → df_cols df !! a_col = Some al → df_cols df !! b_col = Some bl →
  a_col ≠ chk → b_col ≠ chk →
  let out := fill_col df chk (VStr "OK") in
  match df_cols out !! a_col, df_cols out !! b_col, df_cols out !! chk with
  | Some d, Some u, Some old =>
    let bad := zip_with (λ x y, negb (value_isna x) && negb (value_isna y) && value_eqb x y)
                 d u in
    {| df_len := df_len out;
       df_cols := <[chk := zip_with (λ (b : bool) o, if b then VStr flag else o) bad old]>
                    (df_cols out) |}
  | _, _, _ => out
  end
  = {| df_len := df_len df;
       df_cols := <[chk := zip_with (λ x y, VStr (equal_pair_label flag x y)) al bl]>
                    (df_cols df) |}.
Proof.
  intros Hwf Ha Hb Hac Hbc out. subst out. unfold fill_col. cbn [df_len df_cols].
  rewrite !lookup_insert_ne by done. rewrite Ha, Hb, lookup_insert_eq. cbv zeta.
  rewrite insert_insert_eq. f_equal. f_equal.
  apply zip_with_flags. pose proof (Hwf _ _ Ha) as Hla. cbn beta in Hla. lia.
Qed.

Lemma equal_pair_rows (df : DataFrame) (chk flag : string) (al bl : list value) :
  df_wf df → length al = df_len df → length bl = df_len df →
  let out := {| df_len := df_len df;
                df_cols := <[chk := zip_with (λ x y, VStr (equal_pair_label flag x y)) al bl]>
                             (df_cols df) |} in
  df_len out = df_len df ∧ df_wf out
  ∧ (∀ c, c ≠ chk → df_cols out !! c = df_cols df !! c)
  ∧ (∀ i x y, al !! i = Some x → bl !! i = Some y →
       at_get out i chk = Ok (VStr (equal_pair_label flag x y))).
Proof.
  intros Hwf Hla Hlb out. subst out. split; [done|]. split.
  { apply df_wf_insert; [done|]. rewrite length_zip_with. lia. }
  split.
  { intros c Hc. cbn [df_cols]. by rewrite lookup_insert_ne. }
  intros i x y Hx Hy. unfold at_get. cbn [df_cols].
  rewrite lookup_insert_eq, lookup_zip_with, Hx, Hy. done.
Qed.

(** The Divided/Undivided check.  When one of the two columns is not in
    the table the table is returned as it is.  Otherwise, on a table with
    one cell per row in every column, only the check column differs from
    the input, and a row is labelled "Divided/Undivided inconsistency
    (both equal)" exactly when its two cells are both present and equal
    (two "No" as much as two "Yes"), and "OK" otherwise. *)
Theorem check_divided_undivided_rule (df : DataFrame) (divided_col undivided_col : string) :
  let out := check_divided_undivided_consistency df divided_col undivided_col in
  (df_cols df !! divided_col = None ∨ df_cols df !! undivided_col = None → out = df)
  ∧ (∀ d u, df_wf df →
       df_cols df !! divided_col = Some d → df_cols df !! undivided_col = Some u →
       divided_col ≠ divided_undivided_check_col →
       undivided_col ≠ divided_undivided_check_col →
       df_len out = df_len df ∧ df_wf out
       ∧ (∀ c, c ≠ divided_undivided_check_col → df_cols out !! c = df_cols df !! c)
       ∧ (∀ i x y, d !! i = Some x → u !! i = Some y →
            at_get out i divided_undivided_check_col
            = Ok (VStr (equal_pair_label "Divided/Undivided inconsistency (both equal)" x y)))).
Proof.
  intros out. subst out. unfold check_divided_undivided_consistency, has_col. split.
  - intros [-> | ->]; [done|]. by destruct (df_cols df !! divided_col).
  - intros d u Hwf Hd Hu Hdc Huc. rewrite Hd, Hu. cbn [negb orb].
    pose proof (equal_pair_check_spec df divided_col undivided_col
                  divided_undivided_check_col
                  "Divided/Undivided inconsistency (both equal)" d u
                  Hwf Hd Hu Hdc Huc) as Hspec.
    cbv zeta in Hspec. cbv zeta. rewrite Hspec.
    apply equal_pair_rows; [done|apply (Hwf _ _ Hd)|apply (Hwf _ _ Hu)].
Qed.

(** The illumination check, in the same way: the table is returned as it
    is when a column is missing; otherwise only the check column differs
    from the input and a row is labelled "Illumination inconsistency (Day
    and Night are the same)" exactly when its two cells are both present
    and equal, and "OK" otherwise. *)
Theorem check_illumination_rule (df : DataFrame) (day_col night_col : string) :
  let out := check_illumination_consistency df day_col night_col in
  (df_cols df !! day_col = None ∨ df_cols df !! night_col = None → out = df)
  ∧ (∀ d u, df_wf df →
       df_cols df !! day_col = Some d → df_cols df !! night_col = Some u →
       day_col ≠ illumination_check_col → night_col ≠ illumination_check_col →
       df_len out = df_len df ∧ df_wf out
       ∧ (∀ c, c ≠ illumination_check_col → df_cols out !! c = df_cols df !! c)
       ∧ (∀ i x y, d !! i = Some x → u !! i = Some y →
            at_get out i illumination_check_col
            = Ok (VStr (equal_pair_label
                          "Illumination inconsistency (Day and Night are the same)" x y)))).
Proof.
  intros out. subst out. unfold check_illumination_consistency, has_col. split.
  - intros [-> | ->]; [done|]. by destruct (df_cols df !! day_col).
  - intros d u Hwf Hd Hu Hdc Huc. rewrite Hd, Hu. cbn [negb orb].
    pose proof (equal_pair_check_spec df day_col night_col illumination_check_col
                  "Illumination inconsistency (Day and Night are the same)" d u
                  Hwf Hd Hu Hdc Huc) as Hspec.
    cbv zeta in Hspec. cbv zeta. rewrite Hspec.
    apply equal_pair_rows; [done|apply (Hwf _ _ Hd)|apply (Hwf _ _ Hu)].
Qed.

Lemma check_divided_undivided_rule_witness :
  let out := check_divided_undivided_consistency day_night_table "Day" "Night" in
  at_get out 0 divided_undivided_check_col
    = Ok (VStr "Divided/Undivided inconsistency (both equal)")
  ∧ at_get out 1 divided_undivided_check_col = Ok (VStr "OK")
  ∧ at_get out 2 divided_undivided_check_col = Ok (VStr "OK")
  ∧ df_cols out !! "Day" = df_cols day_night_table !! "Day".
Proof.
  assert (Hwf : df_wf day_night_table).
  { unfold df_wf. refine (bool_decide_unpack _ _). vm_compute. exact I. }
  destruct (check_divided_undivided_rule day_night_table "Day" "Night") as [_ Hrule].
  destruct (Hrule [VStr "Yes"; VStr "No"; NaN] [VStr "Yes"; VStr "Yes"; NaN]
              Hwf eq_refl eq_refl ltac:(vm_compute; discriminate)
              ltac:(vm_compute; discriminate)) as (_ & _ & Hsame & Hrows).
  split; [exact (Hrows 0%nat _ _ eq_refl eq_refl)|].
  split; [exact (Hrows 1%nat _ _ eq_refl eq_refl)|].
  split; [exact (Hrows 2%nat _ _ eq_refl eq_refl)|].
  apply Hsame. vm_compute. discriminate.
Defined.

Lemma check_illumination_rule_witness :
  let out := check_illumination_consistency day_night_table "Day" "Night" in
  at_get out 0 illumination_check_col
    = Ok (VStr "Illumination inconsistency (Day and Night are the same)")
  ∧ at_get out 1 illumination_check_col = Ok (VStr "OK")
  ∧ at_get out 2 illumination_check_col = Ok (VStr "OK")
  ∧ df_cols out !! "Night" = df_cols day_night_table !! "Night".
Proof.
  assert (Hwf : df_wf day_night_table).
  { unfold df_wf. refine (bool_decide_unpack _ _). vm_compute. exact I. }
  destruct (check_illumination_rule day_night_table "Day" "Night") as [_ Hrule].
  destruct (Hrule [VStr "Yes"; VStr "No"; NaN] [VStr "Yes"; VStr "Yes"; NaN]
              Hwf eq_refl eq_refl ltac:(vm_compute; discriminate)
              ltac:(vm_compute; discriminate)) as (_ & _ & Hsame & Hrows).
  split; [exact (Hrows 0%nat _ _ eq_refl eq_refl)|].
  split; [exact (Hrows 1%nat _ _ eq_refl eq_refl)|].
  split; [exact (Hrows 2%nat _ _ eq_refl eq_refl)|].
  apply Hsame. vm_compute. discriminate.
Defined.

(* ================================================================== *)
(** * The lane-jump test of two neighbouring rows *)
(* ================================================================== *)

(** The only exception the comparison of two lane values can raise is
    [OverflowError], and it raises it exactly when both values convert to
    floats whose difference is infinite (one of them infinite, or the
    difference of two finite ones too large): [int(abs(diff))] has no
    value then.  A value that does not convert and a difference that is
    NaN raise nothing. *)
Theorem lane_jump_raises (B : PyBuiltins) (prev cur : value) (e : exn) :
  lane_jump B prev cur = Raise e
  ↔ e = OverflowError
    ∧ ∃ a b, py_float B cur = Some a ∧ py_float B prev = Some b
        ∧ float_is_inf (a - b) = true.
Proof.
  unfold lane_jump.
  destruct (py_float B cur) as [a|]; cycle 1.
  { split; [done|]. by intros (_ & a & b & Ha & _). }
  destruct (py_float B prev) as [b|]; cycle 1.
  { split; [done|]. by intros (_ & a' & b & _ & Hb & _). }
  cbv zeta.
  assert (Hex : (∃ a' b', Some a = Some a' ∧ Some b = Some b'
                   ∧ float_is_inf (a' - b') = true)
                ↔ float_is_inf (a - b) = true).
  { split; [by intros (a' & b' & [= <-] & [= <-] & Hi)|].
    intros Hi. by exists a, b. }
  rewrite Hex. clear Hex. generalize (a - b)%float. intros diff.
  assert (Hinf : float_is_inf diff = true ↔ ∃ s, Prim2SF diff = S754_infinity s).
  { unfold float_is_inf, float_num.
    destruct (Prim2SF diff) as [s|s| |s m e']; split; try done.
    - by intros [? ?].
    - intros _. by exists s.
    - by destruct s.
    - by intros [? ?].
    - by intros [? ?]. }
  rewrite Hinf. clear Hinf.
  rewrite leb_spec. unfold int_of_float. rewrite abs_spec.
  change (Prim2SF 2) with (S754_finite false 4503599627370496 (-51)).
  destruct (Prim2SF diff) as [s|s| |s m e']; cbn [SFabs].
  - split; [done|]. by intros (_ & s' & Hs').
  - change (SFleb (S754_finite false 4503599627370496 (-51)) (S754_infinity false))
      with true.
    cbn [mbind result_bind]. split.
    + intros [= <-]. split; [done|]. by exists s.
    + by intros [-> _].
  - split; [done|]. by intros (_ & s' & Hs').
  - split.
    + destruct (SFleb _ _); [|done]. cbn [mbind result_bind]. done.
    + by intros (_ & s' & Hs').
Qed.

Lemma lane_jump_raises_witness :
  lane_jump no_text_builtins (VFloat 2) (VFloat infinity) = Raise OverflowError.
Proof.
  apply (lane_jump_raises no_text_builtins (VFloat 2) (VFloat infinity) OverflowError).
  split; [reflexivity|]. exists infinity, 2%float.
  split; [reflexivity|]. split; [reflexivity|]. vm_compute. reflexivity.
Defined.

(* ================================================================== *)
(** * Rows grouped by scene *)
(* ================================================================== *)

(** ** Writing and reading the rows of a group *)

Lemma length_scatter (idxs : list nat) (vals l : list value) :
  length (scatter idxs vals l) = length l.
Proof.
  revert vals l. induction idxs as [|i idxs IH]; intros vals l; [done|].
  destruct vals as [|v vals]; [done|]. cbn [scatter]. by rewrite IH, length_insert.
Qed.

Lemma scatter_notin (idxs : list nat) (vals l : list value) (j : nat) :
  j ∉ idxs → scatter idxs vals l !! j = l !! j.
Proof.
  revert vals l. induction idxs as [|i idxs IH]; intros vals l Hj; [done|].
  destruct vals as [|v vals]; [done|]. cbn [scatter].
  apply not_elem_of_cons in Hj as [Hne Hj].
  rewrite IH by done. by rewrite list_lookup_insert_ne.
Qed.

Lemma scatter_rank (idxs : list nat) (vals l : list value) (r j : nat) :
  NoDup idxs → length vals = length idxs → Forall (λ i, i < length l)%nat idxs →
  idxs !! r = Some j → scatter idxs vals l !! j = vals !! r.
Proof.
  revert vals l r. induction idxs as [|i idxs IH]; intros vals l r Hnd Hlen Hin Hr; [done|].
  destruct vals as [|v vals]; [done|]. cbn [scatter].
  apply NoDup_cons in Hnd as [Hi Hnd]. apply Forall_cons in Hin as [Hil Hin].
  destruct r as [|r].
  - injection Hr as <-. rewrite scatter_notin by done.
    by rewrite list_lookup_insert_eq.
  - change ((v :: vals) !! S r) with (vals !! r).
    apply IH; [done|by simplify_eq/=| |done].
    eapply Forall_impl; [done|]. intros k Hk. by rewrite length_insert.
Qed.

Lemma gather_length (idxs : list nat) (l : list value) :
  Forall (λ i, i < length l)%nat idxs → length (gather idxs l) = length idxs.
Proof.
  unfold gather. induction 1 as [|i idxs Hi _ IH]; [done|].
  cbn [omap list_omap]. destruct (lookup_lt_is_Some_2 l i Hi) as [x ->].
  cbn [length]. by rewrite IH.
Qed.

Lemma gather_lookup (idxs : list nat) (l : list value) (r j : nat) :
  Forall (λ i, i < length l)%nat idxs → idxs !! r = Some j →
  gather idxs l !! r = l !! j.
Proof.
  unfold gather. intros Hin. revert r.
  induction Hin as [|i idxs Hi _ IH]; intros r Hr; [done|].
  cbn [omap list_omap]. destruct (lookup_lt_is_Some_2 l i Hi) as [x Hx]. rewrite Hx.
  destruct r as [|r]; [injection Hr as <-; by rewrite Hx|]. by apply IH.
Qed.

Lemma gather_ext (idxs : list nat) (l l' : list value) :
  (∀ i, i ∈ idxs → l !! i = l' !! i) → gather idxs l = gather idxs l'.
Proof.
  unfold gather. induction idxs as [|i idxs IH]; intros Hl; [done|].
  cbn [omap list_omap]. rewrite (Hl i) by (by left).
  rewrite IH; [done|]. intros k Hk. apply Hl. by right.
Qed.

Lemma groups_ok_tail (n : nat) (rows : list nat) (rss : list (list nat)) :
  groups_ok n (rows :: rss) →
  groups_ok n rss ∧ NoDup rows ∧ Forall (λ j, j < n)%nat rows
  ∧ ∀ rs j, rs ∈ rss → j ∈ rs → j ∉ rows.
Proof.
  intros [Hall Hdis]. apply Forall_cons in Hall as [[Hnd Hin] Hall].
  split; [split; [done|]|].
  - intros a b rs1 rs2 j Hab H1 H2. apply (Hdis (S a) (S b)); [lia|done|done].
  - split; [done|]. split; [done|].
    intros rs j Hrs Hj. apply list_elem_of_lookup in Hrs as [a Ha].
    apply (Hdis (S a) 0%nat rs rows j); [lia|done|done|done].
Qed.

Lemma scatter_groups_lookup (g : list nat → list value) (n : nat)
    (rss : list (list nat)) (c0 : list value) :
  groups_ok n rss → length c0 = n →
  (∀ rows, rows ∈ rss → length (g rows) = length rows) →
  length (scatter_groups g rss c0) = n
  ∧ (∀ rows r j, rows ∈ rss → rows !! r = Some j →
       scatter_groups g rss c0 !! j = g rows !! r)
  ∧ (∀ j, (∀ rows, rows ∈ rss → j ∉ rows) → scatter_groups g rss c0 !! j = c0 !! j).
Proof.
  revert c0. induction rss as [|rows0 rss IH]; intros c0 Hok Hlen Hg.
  { split; [done|]. split; [|done]. intros rows r j Hrows. by apply elem_of_nil in Hrows. }
  apply groups_ok_tail in Hok as (Hok & Hnd & Hin & Hdis).
  unfold scatter_groups. cbn [foldl]. fold (scatter_groups g rss (scatter rows0 (g rows0) c0)).
  destruct (IH (scatter rows0 (g rows0) c0)) as (HL & Hhit & Hmiss); [done| | |].
  { by rewrite length_scatter. }
  { intros rows Hrows. apply Hg. by right. }
  split; [done|]. split.
  - intros rows r j Hrows Hr. apply elem_of_cons in Hrows as [->|Hrows].
    + rewrite Hmiss.
      * apply scatter_rank; [done|apply Hg; by left| |done].
        eapply Forall_impl; [done|]. intros k Hk. by rewrite Hlen.
      * intros rs Hrs Hj. apply (Hdis rs j Hrs Hj). by apply list_elem_of_lookup_2 in Hr.
    + by apply Hhit.
  - intros j Hj. rewrite Hmiss by (intros rs Hrs; apply Hj; by right).
    apply scatter_notin. apply Hj. by left.
Qed.

(** A loop that recomputes the cells of each group from the column as
    it stands writes what it would write from the column as it was:
    no group reads a row that another group wrote. *)
Lemma smooth_groups_fold (f : list value → list value) (n : nat)
    (rss : list (list nat)) (c0 c : list value) :
  groups_ok n rss → length c = n →
  (∀ rows, rows ∈ rss → gather rows c = gather rows c0) →
  foldl (λ c rows, scatter rows (f (gather rows c)) c) c rss
  = scatter_groups (λ rows, f (gather rows c0)) rss c.
Proof.
  revert c. induction rss as [|rows0 rss IH]; intros c Hok Hlen Hc; [done|].
  apply groups_ok_tail in Hok as (Hok & Hnd & Hin & Hdis).
  unfold scatter_groups. cbn [foldl]. rewrite (Hc rows0) by (by left).
  apply IH; [done|by rewrite length_scatter|].
  intros rows Hrows. rewrite <-(Hc rows) by (by right).
  apply gather_ext. intros i Hi. apply scatter_notin. by apply (Hdis rows).
Qed.

(** ** The rows of a scene *)

Lemma elem_of_rows_of (token : value) (keys : list value) (i0 j : nat) :
  j ∈ rows_of token keys i0
  ↔ (i0 ≤ j)%nat ∧ ∃ x, keys !! (j - i0)%nat = Some x ∧ value_eqb x token = true.
Proof.
  revert i0. induction keys as [|x keys IH]; intros i0.
  { cbn [rows_of]. split; [by intros ?%elem_of_nil|]. by intros (_ & y & Hy & _). }
  cbn [rows_of].
  assert (Htail : j ∈ rows_of token keys (S i0)
            ↔ (S i0 ≤ j)%nat ∧ ∃ y, (x :: keys) !! (j - i0)%nat = Some y
                                    ∧ value_eqb y token = true).
  { rewrite IH. split; intros (Hj & y & Hy & Hyt); (split; [done|]); exists y;
      (split; [|done]).
    - replace (j - i0)%nat with (S (j - S i0)) by lia. done.
    - replace (j - i0)%nat with (S (j - S i0)) in Hy by lia. done. }
  destruct (value_eqb x token) eqn:Hx.
  - rewrite elem_of_cons, Htail. split.
    + intros [-> |(Hj & y & Hy & Hyt)].
      * split; [lia|]. exists x. by rewrite Nat.sub_diag.
      * split; [lia|]. by exists y.
    + intros (Hj & y & Hy & Hyt). destruct (decide (j = i0)) as [->|Hne]; [by left|].
      right. split; [lia|]. by exists y.
  - rewrite Htail. split.
    + intros (Hj & y & Hy & Hyt). split; [lia|]. by exists y.
    + intros (Hj & y & Hy & Hyt). split; [|by exists y].
      destruct (decide (j = i0)) as [->|Hne]; [|lia].
      rewrite Nat.sub_diag in Hy. injection Hy as <-. congruence.
Qed.

Lemma NoDup_rows_of (token : value) (keys : list value) (i0 : nat) :
  NoDup (rows_of token keys i0).
Proof.
  revert i0. induction keys as [|x keys IH]; intros i0; cbn [rows_of]; [constructor|].
  destruct (value_eqb x token); [|apply IH].
  apply NoDup_cons. split; [|apply IH].
  intros Hin. apply elem_of_rows_of in Hin as [Hle _]. lia.
Qed.

Lemma rows_of_lt (token : value) (keys : list value) :
  Forall (λ j, j < length keys)%nat (rows_of token keys 0).
Proof.
  apply Forall_forall. intros j Hj. apply elem_of_rows_of in Hj as (_ & x & Hx & _).
  apply lookup_lt_Some in Hx. lia.
Qed.

Lemma value_eqb_proper_r (x y z : value) :
  value_eqb y z = true → value_eqb x y = value_eqb x z.
Proof. exact (py_eqb_proper_r (A := value) x y z). Qed.

Lemma rows_of_proper (t t' : value) (keys : list value) (i0 : nat) :
  value_eqb t t' = true → rows_of t keys i0 = rows_of t' keys i0.
Proof.
  intros Htt. revert i0. induction keys as [|x keys IH]; intros i0; [done|].
  cbn [rows_of]. rewrite IH. by rewrite (value_eqb_proper_r x t t' Htt).
Qed.

Lemma extnum_eqb_refl (a : extnum) : extnum_eqb a a = true.
Proof. destruct a; [apply Qeq_bool_refl|done|done]. Qed.

(** A cell that is not missing is equal to itself. *)
Lemma value_eqb_refl (x : value) : value_isna x = false → value_eqb x x = true.
Proof.
  intros Hna. destruct x as [s|z|f|b|].
  - unfold value_eqb. by apply bool_decide_eq_true.
  - by rewrite (value_eqb_of_num (VInt z) (VInt z) (Fin (z # 1)) (Fin (z # 1))
                  eq_refl eq_refl), extnum_eqb_refl.
  - unfold value_isna in Hna. destruct (float_num f) as [a|] eqn:Hf; [|done].
    by rewrite (value_eqb_of_num (VFloat f) (VFloat f) a a Hf Hf), extnum_eqb_refl.
  - by rewrite (value_eqb_of_num (VBool b) (VBool b) _ _ eq_refl eq_refl), extnum_eqb_refl.
  - done.
Qed.

Lemma value_eqb_isna (x y : value) : value_eqb x y = true → value_isna x = value_isna y.
Proof. exact (isna_proper (A := value) x y). Qed.

Lemma group_keys_spec (keys seen : list value) :
  (∀ a t, group_keys keys seen !! a = Some t →
     value_isna t = false ∧ t ∈ keys ∧ ∀ s, s ∈ seen → value_eqb t s = false)
  ∧ (∀ a b ta tb, (a < b)%nat → group_keys keys seen !! a = Some ta →
       group_keys keys seen !! b = Some tb → value_eqb tb ta = false).
Proof.
  revert seen. induction keys as [|x keys IH]; intros seen; [done|].
  cbn [group_keys].
  destruct (value_isna x || existsb (value_eqb x) seen) eqn:Hskip.
  - destruct (IH seen) as [H1 H2]. split; [|done].
    intros a t Ht. destruct (H1 a t Ht) as (Hna & Hin & Hseen).
    split; [done|]. split; [by right|done].
  - apply orb_false_iff in Hskip as [Hna Hex].
    destruct (IH (x :: seen)) as [H1 H2]. split.
    + intros [|a] t Ht.
      * injection Ht as <-. split; [done|]. split; [by left|].
        intros s Hs. destruct (value_eqb x s) eqn:Hxs; [|done].
        assert (existsb (value_eqb x) seen = true); [|congruence].
        apply existsb_exists. exists s. split; [by apply list_elem_of_In|done].
      * destruct (H1 a t Ht) as (Hnt & Hin & Hseen).
        split; [done|]. split; [by right|]. intros s Hs. apply Hseen. by right.
    + intros [|a] [|b] ta tb Hab Ha Hb; try lia.
      * injection Ha as <-. destruct (H1 b tb Hb) as (_ & _ & Hseen).
        apply Hseen. by left.
      * apply (H2 a b); [lia|done|done].
Qed.

Lemma group_keys_cover (keys seen : list value) (x : value) :
  x ∈ keys → value_isna x = false →
  ∃ t, (t ∈ group_keys keys seen ∨ t ∈ seen) ∧ value_eqb x t = true.
Proof.
  revert seen. induction keys as [|y keys IH]; intros seen Hx Hna.
  { by apply elem_of_nil in Hx. }
  cbn [group_keys]. apply elem_of_cons in Hx as [->|Hx].
  - rewrite Hna. cbn [orb].
    destruct (existsb (value_eqb y) seen) eqn:Hex.
    + apply existsb_exists in Hex as (s & Hs & Hys).
      exists s. split; [right; by apply list_elem_of_In|done].
    + exists y. split; [left; by left|by apply value_eqb_refl].
  - destruct (value_isna y || existsb (value_eqb y) seen).
    + by apply IH.
    + destruct (IH (y :: seen) Hx Hna) as (t & [Ht|Ht] & Hxt).
      * exists t. split; [left; by right|done].
      * apply elem_of_cons in Ht as [->|Ht].
        -- exists y. split; [left; by left|done].
        -- exists t. split; [by right|done].
Qed.

Lemma scene_groups_ok (keys : list value) : groups_ok (length keys) (scene_groups keys).
Proof.
  unfold scene_groups. split.
  - apply Forall_fmap, Forall_forall. intros t _. cbn [compose].
    split; [apply NoDup_rows_of|apply rows_of_lt].
  - intros a b rs1 rs2 j Hab H1 H2 Hj1 Hj2.
    apply list_lookup_fmap_Some in H1 as (t1 & -> & Ht1).
    apply list_lookup_fmap_Some in H2 as (t2 & -> & Ht2).
    apply elem_of_rows_of in Hj1 as (_ & x & Hx & Hx1).
    apply elem_of_rows_of in Hj2 as (_ & x' & Hx' & Hx2).
    rewrite Hx in Hx'. injection Hx' as <-.
    assert (H12 : value_eqb t1 t2 = true).
    { apply (value_eqb_trans t1 x t2); [by rewrite value_eqb_sym|done]. }
    destruct (group_keys_spec keys []) as [_ Hdist].
    destruct (decide (a < b)%nat) as [Hlt|Hge].
    + rewrite value_eqb_sym in H12. by rewrite (Hdist a b t1 t2) in H12.
    + by rewrite (Hdist b a t2 t1) in H12 by (done || lia).
Qed.

(** The rows of the scene of a row that has one. *)
Lemma scene_groups_row (keys : list value) (j : nat) (x : value) :
  keys !! j = Some x → value_isna x = false →
  rows_of x keys 0 ∈ scene_groups keys ∧ j ∈ rows_of x keys 0.
Proof.
  intros Hx Hna. split.
  - destruct (group_keys_cover keys [] x) as (t & [Ht|Ht] & Hxt);
      [by apply list_elem_of_lookup_2 in Hx|done| |by apply elem_of_nil in Ht].
    rewrite (rows_of_proper x t keys 0 Hxt).
    unfold scene_groups. apply list_elem_of_fmap. by exists t.
  - apply elem_of_rows_of. split; [lia|]. exists x.
    rewrite Nat.sub_0_r. split; [done|by apply value_eqb_refl].
Qed.

(** A row without a scene is in no group. *)
Lemma scene_groups_missing (keys : list value) (j : nat) (x : value) (rows : list nat) :
  keys !! j = Some x → value_isna x = true → rows ∈ scene_groups keys → j ∉ rows.
Proof.
  intros Hx Hna Hrows Hj. unfold scene_groups in Hrows.
  apply list_elem_of_fmap_1 in Hrows as (t & -> & Ht).
  apply list_elem_of_lookup in Ht as [a Ha].
  destruct (group_keys_spec keys []) as [Hspec _].
  destruct (Hspec a t Ha) as (Hnt & _ & _).
  apply elem_of_rows_of in Hj as (_ & y & Hy & Hyt).
  rewrite Nat.sub_0_r, Hx in Hy. injection Hy as <-.
  apply value_eqb_isna in Hyt. congruence.
Qed.

(* ================================================================== *)
(** * Temporal smoothing by scene *)
(* ================================================================== *)

Lemma smooth_scenes_loop (smoother : list value → list value)
    (base : gmap string (list value)) (n : nat) (auto_col : string) (keys : list value)
    (tokens : list value) (c : list value) :
  (∀ s, length (smoother s) = length s) →
  base !! SCENE_COL = Some keys → auto_col ≠ SCENE_COL → length keys = n →
  length c = n →
  for_each (λ df scene,
    keys ← get_col df SCENE_COL;
    let mask := rows_of scene keys 0 in
    col ← get_col df auto_col;
    let seq := gather mask col in
    let corrected := smoother seq in
    if bool_decide (length corrected = length mask)
    then Ok (loc_set df mask auto_col corrected)
    else Raise ValueError) tokens {| df_len := n; df_cols := <[auto_col := c]> base |}
  = Ok {| df_len := n;
          df_cols := <[auto_col := foldl (λ c rows, scatter rows (smoother (gather rows c)) c)
                                     c ((λ t, rows_of t keys 0) <$> tokens)]> base |}.
Proof.
  intros Hlen Hkeys Hne Hn. revert c.
  induction tokens as [|t tokens IH]; intros c Hc; [done|].
  assert (Hg1 : get_col {| df_len := n; df_cols := <[auto_col := c]> base |} SCENE_COL
                = Ok keys).
  { unfold get_col. cbn [df_cols]. rewrite lookup_insert_ne by done. by rewrite Hkeys. }
  assert (Hg2 : get_col {| df_len := n; df_cols := <[auto_col := c]> base |} auto_col
                = Ok c).
  { unfold get_col. cbn [df_cols]. by rewrite lookup_insert_eq. }
  cbn [for_each fmap list_fmap foldl].
  rewrite Hg1. cbn [mbind result_bind]. rewrite Hg2. cbn [mbind result_bind]. cbv zeta.
  rewrite bool_decide_eq_true_2; cycle 1.
  { rewrite Hlen. apply gather_length. rewrite Hc, <-Hn. apply rows_of_lt. }
  cbn [mbind result_bind]. unfold loc_set. cbn [df_len df_cols].
  rewrite lookup_insert_eq. cbn [default]. rewrite insert_insert_eq.
  apply IH. by rewrite length_scatter.
Qed.

(** Smoothing one column scene by scene, for a smoother that keeps the
    length of a sequence: the loop raises nothing and changes no other
    column, and scenes are smoothed independently. *)
Lemma smooth_scenes_rows (smoother : list value → list value) (df : DataFrame)
    (auto_col : string) (keys src : list value) :
  (∀ s, length (smoother s) = length s) →
  df_wf df →
  df_cols df !! SCENE_COL = Some keys → df_cols df !! auto_col = Some src →
  auto_col ≠ SCENE_COL →
  ∃ out cells, smooth_scenes smoother df auto_col = Ok out
    ∧ df_len out = df_len df ∧ df_wf out
    ∧ (∀ c, c ≠ auto_col → df_cols out !! c = df_cols df !! c)
    ∧ df_cols out !! auto_col = Some cells
    ∧ smoothed_by_scene smoother keys src cells.
Proof.
  intros Hlen Hwf Hkeys Hsrc Hne.
  pose proof (Hwf _ _ Hkeys) as Hnk. pose proof (Hwf _ _ Hsrc) as Hns.
  cbn beta in Hnk, Hns.
  assert (Hg : get_col df SCENE_COL = Ok keys) by (unfold get_col; by rewrite Hkeys).
  unfold smooth_scenes. rewrite Hg. cbn [mbind result_bind].
  pose proof (smooth_scenes_loop smoother (df_cols df) (df_len df) auto_col keys
                (group_keys keys []) src Hlen Hkeys Hne Hnk Hns) as Hloop.
  rewrite (insert_id (df_cols df) auto_col src Hsrc) in Hloop.
  replace {| df_len := df_len df; df_cols := df_cols df |} with df in Hloop
    by (by destruct df).
  cbv zeta in Hloop. cbv zeta. rewrite Hloop. clear Hloop.
  fold (scene_groups keys).
  pose proof (scene_groups_ok keys) as Hok. rewrite Hnk in Hok.
  rewrite (smooth_groups_fold smoother (df_len df) (scene_groups keys) src src Hok Hns)
    by done.
  destruct (scatter_groups_lookup (λ rows, smoother (gather rows src)) (df_len df)
              (scene_groups keys) src Hok Hns) as (HL & Hhit & Hmiss).
  { intros rows Hrows. rewrite Hlen. apply gather_length.
    destruct Hok as [Hall _]. rewrite Forall_forall in Hall.
    destruct (Hall rows Hrows) as [_ Hin]. by rewrite Hns. }
  eexists. eexists. split; [done|]. cbn [df_len df_cols].
  split; [done|]. split; [by apply df_wf_insert|]. split.
  { intros c Hc. by rewrite lookup_insert_ne. }
  split; [apply lookup_insert_eq|]. split.
  - intros j x Hx Hna. apply Hmiss. intros rows Hrows.
    by apply (scene_groups_missing keys j x rows).
  - intros j x Hx Hna. cbv zeta.
    destruct (scene_groups_row keys j x Hx Hna) as [Hrows Hj].
    split; [done|]. intros r Hr. by apply (Hhit (rows_of x keys 0) r j).
Qed.

(** ** The smoothing block of [main] *)

Lemma for_each_fmap {S X Y : Type} (body : S → Y → result S) (f : X → Y)
    (xs : list X) (acc : S) :
  for_each body (f <$> xs) acc = for_each (λ s x, body s (f x)) xs acc.
Proof.
  revert acc. induction xs as [|x xs IH]; intros acc; [done|].
  cbn [fmap list_fmap for_each]. destruct (body acc (f x)); [apply IH|done].
Qed.

Lemma temporal_smoothing_jobs (df : DataFrame) :
  has_col df SCENE_COL = true → temporal_smoothing df = run_jobs smoothing_jobs df.
Proof.
  intros Hscene. unfold temporal_smoothing, run_jobs, smoothing_jobs.
  rewrite Hscene. cbn [negb]. rewrite for_each_app, for_each_fmap. cbn [fst snd].
  destruct (for_each _ ALLOWED_YES_NO_COLS df) as [df1|e]; [|done].
  cbn [mbind result_bind for_each fst snd].
  destruct (has_col df1 LANE_COL); cbn [negb].
  - destruct (smooth_column _ df1 LANE_COL) as [df2|e]; [|done].
    cbn [mbind result_bind].
    destruct (has_col df2 HORIZONTAL_PLANE_COL); cbn [negb]; [|done].
    by destruct (smooth_column _ df2 HORIZONTAL_PLANE_COL).
  - cbn [mbind result_bind].
    destruct (has_col df1 HORIZONTAL_PLANE_COL); cbn [negb]; [|done].
    by destruct (smooth_column _ df1 HORIZONTAL_PLANE_COL).
Qed.

Lemma auto_col_not_scene (col : string) : col +:+ "_Auto_Check" ≠ SCENE_COL.
Proof.
  intros Heq. apply (f_equal String.length) in Heq.
  rewrite string_length_append in Heq. cbn in Heq. lia.
Qed.

Lemma auto_col_inj (c1 c2 : string) :
  c1 +:+ "_Auto_Check" = c2 +:+ "_Auto_Check" → c1 = c2.
Proof. apply string_append_inj_r. Qed.

Lemma run_jobs_spec (jobs : list (string * (list value → list value)))
    (df : DataFrame) (keys : list value) :
  df_wf df → df_cols df !! SCENE_COL = Some keys →
  (∀ job s, job ∈ jobs → length (job.2 s) = length s) →
  NoDup jobs.*1 →
  (∀ job job', job ∈ jobs → job' ∈ jobs → job.1 ≠ job'.1 +:+ "_Auto_Check") →
  ∃ out, run_jobs jobs df = Ok out
    ∧ df_len out = df_len df ∧ df_wf out
    ∧ (∀ c, (∀ job, job ∈ jobs → c ≠ job.1 +:+ "_Auto_Check") →
         df_cols out !! c = df_cols df !! c)
    ∧ (∀ job src, job ∈ jobs → df_cols df !! job.1 = Some src →
         ∃ cells, df_cols out !! (job.1 +:+ "_Auto_Check") = Some cells
           ∧ smoothed_by_scene job.2 keys src cells).
Proof.
  intros Hwf Hkeys. induction jobs as [|q js IH] using rev_ind; intros Hlen Hnd Hsrc.
  { exists df. split; [done|]. split; [done|]. split; [done|]. split; [done|].
    intros job src Hjob. by apply elem_of_nil in Hjob. }
  destruct IH as (out' & Hrun & Hn & Hwf' & Hsame & Hjobs).
  { intros job s Hjob. apply Hlen, elem_of_app. by left. }
  { rewrite fmap_app in Hnd. by apply NoDup_app in Hnd as [? _]. }
  { intros job job' Hj Hj'. apply Hsrc; apply elem_of_app; by left. }
  assert (Hq : q ∈ js ++ [q]) by (apply elem_of_app; right; by left).
  assert (Hqsame : df_cols out' !! q.1 = df_cols df !! q.1).
  { apply Hsame. intros job Hjob. apply Hsrc; [done|]. apply elem_of_app. by left. }
  assert (Hscene : df_cols out' !! SCENE_COL = Some keys).
  { rewrite Hsame; [done|]. intros job _ Heq. symmetry in Heq.
    by apply auto_col_not_scene in Heq. }
  assert (Hold : ∀ job, job ∈ js → job.1 +:+ "_Auto_Check" ≠ q.1 +:+ "_Auto_Check").
  { intros job Hjob Heq. apply auto_col_inj in Heq.
    rewrite fmap_app in Hnd. apply NoDup_app in Hnd as (_ & Hdisj & _).
    apply (Hdisj job.1); [by apply list_elem_of_fmap_2|]. rewrite Heq. by left. }
  unfold run_jobs. rewrite for_each_app.
  change (for_each _ js df) with (run_jobs js df). rewrite Hrun.
  cbn [mbind result_bind for_each]. unfold has_col. rewrite Hqsame.
  destruct (df_cols df !! q.1) as [src|] eqn:Hsrcq; cbn [negb]; cycle 1.
  { exists out'. split; [done|]. split; [done|]. split; [done|]. split.
    - intros c Hc. apply Hsame. intros job Hjob. apply Hc, elem_of_app. by left.
    - intros job src Hjob Hs. apply elem_of_app in Hjob as [Hjob|Hjob]; [by apply Hjobs|].
      apply list_elem_of_singleton in Hjob as ->. congruence. }
  unfold smooth_column, copy_col, get_col. cbv zeta. rewrite Hqsame.
  cbn [mbind result_bind].
  set (auto_col := q.1 +:+ "_Auto_Check") in *.
  set (out1 := {| df_len := df_len out'; df_cols := <[auto_col := src]> (df_cols out') |}).
  assert (Hwf1 : df_wf out1).
  { apply df_wf_insert; [done|]. rewrite Hn. apply (Hwf _ _ Hsrcq). }
  destruct (smooth_scenes_rows q.2 out1 auto_col keys src) as
    (out & cells & Hrun2 & Hn2 & Hwf2 & Hsame2 & Hcells & Hrows).
  { intros s. by apply Hlen. }
  { done. }
  { subst out1. cbn [df_cols]. rewrite lookup_insert_ne; [done|]. apply auto_col_not_scene. }
  { subst out1. cbn [df_cols]. apply lookup_insert_eq. }
  { apply auto_col_not_scene. }
  rewrite Hrun2. exists out. split; [done|].
  split; [by rewrite Hn2|]. split; [done|]. split.
  - intros c Hc. rewrite Hsame2 by (by apply Hc). subst out1. cbn [df_cols].
    rewrite lookup_insert_ne by (intros Heq; by apply (Hc q Hq)).
    apply Hsame. intros job Hjob. apply Hc, elem_of_app. by left.
  - intros job src' Hjob Hs. apply elem_of_app in Hjob as [Hjob|Hjob].
    + rewrite Hsame2 by (by apply Hold). subst out1. cbn [df_cols].
      rewrite lookup_insert_ne by (intros Heq; by apply (Hold job Hjob)).
      by apply Hjobs.
    + apply list_elem_of_singleton in Hjob as ->. exists cells.
      split; [done|]. congruence.
Qed.

Lemma smoothers_length (s : list value) (k : Z) :
  length (correct_yes_no_sequence s k) = length s
  ∧ length (correct_number_of_lanes s k) = length s
  ∧ length (correct_horizontal_plane s k) = length s.
Proof.
  split; [|split].
  - destruct s as [|x t]; [done|]. rewrite correct_yes_no_sequence_scan.
    cbn [length]. by rewrite scan_all_length.
  - rewrite correct_number_of_lanes_scan. apply scan_all_length.
  - rewrite correct_horizontal_plane_scan. apply scan_all_length.
Qed.

Lemma smoothing_jobs_names :
  smoothing_jobs.*1 = ALLOWED_YES_NO_COLS ++ [LANE_COL; HORIZONTAL_PLANE_COL].
Proof. reflexivity. Qed.

Lemma smoothing_jobs_ok :
  (∀ job s, job ∈ smoothing_jobs → length (job.2 s) = length s)
  ∧ NoDup smoothing_jobs.*1
  ∧ (∀ job job', job ∈ smoothing_jobs → job' ∈ smoothing_jobs →
       job.1 ≠ job'.1 +:+ "_Auto_Check").
Proof.
  split; [|split].
  - intros job s Hjob. unfold smoothing_jobs in Hjob.
    apply elem_of_app in Hjob as [Hjob|Hjob].
    + apply list_elem_of_fmap_1 in Hjob as (col & -> & _). cbn [snd].
      apply smoothers_length.
    + apply elem_of_cons in Hjob as [->|Hjob]; [apply smoothers_length|].
      apply list_elem_of_singleton in Hjob as ->. apply smoothers_length.
  - rewrite smoothing_jobs_names. refine (bool_decide_unpack _ _). vm_compute. exact I.
  - assert (Hall : Forall (λ a, Forall (λ b, a ≠ b +:+ "_Auto_Check")
                                 (ALLOWED_YES_NO_COLS ++ [LANE_COL; HORIZONTAL_PLANE_COL]))
                     (ALLOWED_YES_NO_COLS ++ [LANE_COL; HORIZONTAL_PLANE_COL])).
    { refine (bool_decide_unpack _ _). vm_compute. exact I. }
    rewrite <-smoothing_jobs_names in Hall.
    intros job job' Hjob Hjob'. rewrite Forall_forall in Hall.
    specialize (Hall job.1 (list_elem_of_fmap_2 fst _ _ Hjob)).
    rewrite Forall_forall in Hall.
    apply (Hall job'.1). by apply list_elem_of_fmap_2.
Qed.

(** The temporal smoothing of [main].  Without a scene column the table
    is left as it is.  With one, on a table with one cell per row in
    every column, the block raises nothing, keeps the rows, and changes
    no column but the [_Auto_Check] copies it makes: every allowed Yes/No
    column that is in the table gets a copy smoothed scene by scene with
    [correct_yes_no_sequence] and its own threshold, the lane column one
    smoothed with [correct_number_of_lanes] and threshold 3, the
    curvature column one smoothed with [correct_horizontal_plane] and
    threshold 4.  The original columns are never modified, rows without a
    scene keep their cell, and the rows of one scene are smoothed together
    whatever lies between them in the table. *)
Theorem temporal_smoothing_rows (df : DataFrame) :
  df_wf df →
  (df_cols df !! SCENE_COL = None → temporal_smoothing df = Ok df)
  ∧ (∀ keys, df_cols df !! SCENE_COL = Some keys →
       ∃ out, temporal_smoothing df = Ok out
         ∧ df_len out = df_len df ∧ df_wf out
         ∧ (∀ c, (∀ col, col ∈ ALLOWED_YES_NO_COLS ++ [LANE_COL; HORIZONTAL_PLANE_COL] →
                    c ≠ col +:+ "_Auto_Check") →
              df_cols out !! c = df_cols df !! c)
         ∧ (∀ col src, col ∈ ALLOWED_YES_NO_COLS → df_cols df !! col = Some src →
              ∃ cells, df_cols out !! (col +:+ "_Auto_Check") = Some cells
                ∧ smoothed_by_scene
                    (λ seq, correct_yes_no_sequence seq (min_consecutive_for col))
                    keys src cells)
         ∧ (∀ src, df_cols df !! LANE_COL = Some src →
              ∃ cells, df_cols out !! (LANE_COL +:+ "_Auto_Check") = Some cells
                ∧ smoothed_by_scene (λ seq, correct_number_of_lanes seq 3) keys src cells)
         ∧ (∀ src, df_cols df !! HORIZONTAL_PLANE_COL = Some src →
              ∃ cells, df_cols out !! (HORIZONTAL_PLANE_COL +:+ "_Auto_Check") = Some cells
                ∧ smoothed_by_scene (λ seq, correct_horizontal_plane seq 4)
                    keys src cells)).
Proof.
  intros Hwf. split.
  { intros Hnone. unfold temporal_smoothing, has_col. by rewrite Hnone. }
  intros keys Hkeys.
  rewrite temporal_smoothing_jobs by (unfold has_col; by rewrite Hkeys).
  destruct smoothing_jobs_ok as (Hlen & Hnd & Hsrc).
  destruct (run_jobs_spec smoothing_jobs df keys Hwf Hkeys Hlen Hnd Hsrc)
    as (out & Hrun & Hn & Hwf' & Hsame & Hjobs).
  exists out. split; [done|]. split; [done|]. split; [done|]. split.
  { intros c Hc. apply Hsame. intros job Hjob. apply Hc.
    rewrite <-smoothing_jobs_names. by apply list_elem_of_fmap_2. }
  split.
  { intros col src Hcol Hs.
    apply (Hjobs (col, λ seq, correct_yes_no_sequence seq (min_consecutive_for col)) src);
      [|done].
    unfold smoothing_jobs. apply elem_of_app. left.
    apply list_elem_of_fmap. by exists col. }
  split.
  { intros src Hs.
    apply (Hjobs (LANE_COL, λ seq, correct_number_of_lanes seq 3) src); [|done].
    unfold smoothing_jobs. apply elem_of_app. right. by left. }
  intros src Hs.
  apply (Hjobs (HORIZONTAL_PLANE_COL, λ seq, correct_horizontal_plane seq 4) src); [|done].
  unfold smoothing_jobs. apply elem_of_app. right. right. by left.
Qed.

Lemma temporal_smoothing_rows_witness :
  ∃ out cells, temporal_smoothing annotations_table = Ok out
    ∧ df_cols out !! "Weather" = df_cols annotations_table !! "Weather"
    ∧ df_cols out !! "Scenery.Zones.SchoolZones_Auto_Check" = Some cells
    ∧ cells !! 3%nat = Some (VStr "No")
    ∧ cells !! 2%nat = Some (VStr "Yes").
Proof.
  assert (Hwf : df_wf annotations_table).
  { unfold df_wf. refine (bool_decide_unpack _ _). vm_compute. exact I. }
  destruct (temporal_smoothing_rows annotations_table Hwf) as [_ Hrows].
  destruct (Hrows [VStr "a"; VStr "b"; VStr "a"; NaN; VStr "a"; VStr "b"] eq_refl)
    as (out & Hrun & _ & _ & Hsame & Hyes & _ & _).
  assert (Hin : "Scenery.Zones.SchoolZones" ∈ ALLOWED_YES_NO_COLS).
  { unfold ALLOWED_YES_NO_COLS. by left. }
  destruct (Hyes "Scenery.Zones.SchoolZones"
              [VStr "Yes"; VStr "No"; VStr "No"; VStr "No"; VStr "Yes"; VStr "No"]
              Hin eq_refl) as (cells & Hcells & Hmiss & Hscene).
  exists out, cells. split; [exact Hrun|]. split.
  { apply Hsame. intros col Hcol.
    assert (Hall : Forall (λ col, "Weather" ≠ col +:+ "_Auto_Check")
                     (ALLOWED_YES_NO_COLS ++ [LANE_COL; HORIZONTAL_PLANE_COL])).
    { refine (bool_decide_unpack _ _). vm_compute. exact I. }
    rewrite Forall_forall in Hall. by apply Hall. }
  split; [exact Hcells|]. split.
  - rewrite (Hmiss 3%nat NaN); [reflexivity|reflexivity|vm_compute; reflexivity].
  - destruct (Hscene 2%nat (VStr "a") eq_refl ltac:(vm_compute; reflexivity)) as [_ Hr].
    rewrite (Hr 1%nat); [vm_compute; reflexivity|vm_compute; reflexivity].
Defined.

(* ================================================================== *)
(** * The toggle check on a table *)
(* ================================================================== *)










(* ================================================================== *)
(** * The lane-jump check on a table *)
(* ================================================================== *)

Lemma for_each_pos_write (body : DataFrame → nat → result DataFrame) (n : nat)
    (base : gmap string (list value)) (chk : string) (wr : nat → option (nat * value))
    (ranks : list nat) :
  (∀ c i, i ∈ ranks →
     body {| df_len := n; df_cols := <[chk := c]> base |} i
     = Ok {| df_len := n;
             df_cols := <[chk := match wr i with
                                 | Some (p, v) => <[p := v]> c
                                 | None => c
                                 end]> base |}) →
  ∀ c0, for_each body ranks {| df_len := n; df_cols := <[chk := c0]> base |}
        = Ok {| df_len := n;
                df_cols := <[chk := foldl (λ c i, match wr i with
                                                  | Some (p, v) => <[p := v]> c
                                                  | None => c
                                                  end) c0 ranks]> base |}.
Proof.
  induction ranks as [|i ranks IH]; intros Hbody c0; [done|].
  cbn [for_each foldl]. rewrite Hbody by (by left). cbn [mbind result_bind].
  apply IH. intros c j Hj. apply Hbody. by right.
Qed.

Lemma foldl_pos_write_lookup (wr : nat → option (nat * value)) (ranks : list nat)
    (c0 : list value) :
  let final := foldl (λ c i, match wr i with
                             | Some (p, v) => <[p := v]> c
                             | None => c
                             end) c0 ranks in
  length final = length c0
  ∧ (∀ i p v, i ∈ ranks → wr i = Some (p, v) → (p < length c0)%nat →
       (∀ i' v', i' ∈ ranks → wr i' = Some (p, v') → i' = i) → final !! p = Some v)
  ∧ (∀ j, (∀ i v, i ∈ ranks → wr i ≠ Some (j, v)) → final !! j = c0 !! j).
Proof.
  revert c0. induction ranks as [|i0 ranks IH]; intros c0.
  { cbn [foldl]. split; [done|]. split; [|done]. intros i p v Hi. by apply elem_of_nil in Hi. }
  cbn [foldl]. cbv zeta.
  set (c1 := match wr i0 with Some (p, v) => <[p := v]> c0 | None => c0 end).
  assert (Hc1 : length c1 = length c0).
  { subst c1. destruct (wr i0) as [[p v]|]; [apply length_insert|done]. }
  destruct (IH c1) as (HL & Hhit & Hmiss). cbv zeta in HL, Hhit, Hmiss.
  split; [by rewrite HL|]. split.
  - intros i p v Hi Hw Hp Huniq.
    destruct (decide (i ∈ ranks)) as [Hin|Hnin].
    + apply (Hhit i p v); [done|done|by rewrite Hc1|].
      intros i' v' Hi' Hw'. apply (Huniq i' v'); [by right|done].
    + apply elem_of_cons in Hi as [->|Hi]; [|done].
      rewrite Hmiss.
      * subst c1. rewrite Hw. by apply list_lookup_insert_eq.
      * intros i' v' Hi' Hw'. apply Hnin.
        rewrite <-(Huniq i' v'); [done|by right|done].
  - intros j Hj. rewrite Hmiss.
    + subst c1. destruct (wr i0) as [[p v]|] eqn:Hw; [|done].
      apply list_lookup_insert_ne. intros ->. by apply (Hj i0 v); [left|].
    + intros i v Hi. apply Hj. by right.
Qed.

Lemma lane_labels_length (B : PyBuiltins) (vals : list value) :
  length (lane_labels B vals) = length vals.
Proof.
  destruct vals as [|v rest]; [done|]. cbn [lane_labels length]. f_equal.
  revert v. induction rest as [|cur rest IH]; intros v; [done|].
  cbn [lane_labels_from length]. by rewrite IH.
Qed.

Lemma lane_labels_lookup (B : PyBuiltins) (vals : list value) (r : nat) (prev cur : value) :
  vals !! r = Some prev → vals !! S r = Some cur →
  lane_labels B vals !! S r
  = Some (VStr (match lane_jump B prev cur with Ok (Some text) => text | _ => "OK" end)).
Proof.
  destruct vals as [|v rest]; [done|]. cbn [lane_labels].
  change ((v :: rest) !! S r) with (rest !! r).
  change ((VStr "OK" :: lane_labels_from B v rest) !! S r)
    with (lane_labels_from B v rest !! r).
  revert v rest. induction r as [|r IH]; intros v rest Hprev Hcur.
  - injection Hprev as ->. destruct rest as [|c rest]; [done|].
    injection Hcur as ->. done.
  - destruct rest as [|c rest]; [done|].
    change ((v :: c :: rest) !! S r) with ((c :: rest) !! r) in Hprev.
    change ((c :: rest) !! S r) with (rest !! r) in Hcur.
    cbn [lane_labels_from].
    change ((?x :: lane_labels_from B c rest) !! S r)
      with (lane_labels_from B c rest !! r).
    by apply IH.
Qed.

Lemma lane_labels_first (B : PyBuiltins) (vals : list value) (v : value) :
  vals !! 0%nat = Some v → lane_labels B vals !! 0%nat = Some (VStr "OK").
Proof. by destruct vals. Qed.

Lemma gather_elem (idxs : list nat) (l : list value) (r : nat) (x : value) :
  gather idxs l !! r = Some x → x ∈ l.
Proof.
  intros Hx. apply list_elem_of_lookup_2 in Hx. unfold gather in Hx.
  apply list_elem_of_omap in Hx as (i & _ & Hi). by apply list_elem_of_lookup_2 in Hi.
Qed.

(** The rows of one scene in the lane-jump check: the loop over the ranks
    writes the labels of the scene into the rows of the scene. *)
Lemma lanes_group_fold (B : PyBuiltins) (idxs : list nat) (vals c : list value) :
  NoDup idxs → Forall (λ j, j < length c)%nat idxs → length vals = length idxs →
  (∀ j, j ∈ idxs → c !! j = Some (VStr "OK")) →
  foldl (λ c i,
    match match vals !! (i - 1)%nat, vals !! i, idxs !! i with
          | Some prev, Some cur, Some idx =>
            match lane_jump B prev cur with
            | Ok (Some text) => Some (idx, VStr text)
            | _ => None
            end
          | _, _, _ => None
          end with
    | Some (p, v) => <[p := v]> c
    | None => c
    end) c (seq 1 (length vals - 1))
  = scatter idxs (lane_labels B vals) c.
Proof.
  intros Hnd Hin Hlen Hok.
  set (wr := λ i : nat,
         match vals !! (i - 1)%nat, vals !! i, idxs !! i with
         | Some prev, Some cur, Some idx =>
           match lane_jump B prev cur with
           | Ok (Some text) => Some (idx, VStr text)
           | _ => None
           end
         | _, _, _ => None
         end).
  destruct (foldl_pos_write_lookup wr (seq 1 (length vals - 1)) c) as (HL & Hhit & Hmiss).
  cbv zeta in HL, Hhit, Hmiss.
  assert (Hwr : ∀ i p v, wr i = Some (p, v) →
            idxs !! i = Some p
            ∧ ∃ prev cur text, vals !! (i - 1)%nat = Some prev ∧ vals !! i = Some cur
                ∧ lane_jump B prev cur = Ok (Some text) ∧ v = VStr text).
  { intros i p v Hw. unfold wr in Hw.
    destruct (vals !! (i - 1)%nat) as [prev|]; [|done].
    destruct (vals !! i) as [cur|]; [|done].
    destruct (idxs !! i) as [idx|]; [|done].
    destruct (lane_jump B prev cur) as [[text|]|] eqn:Hj; try done.
    injection Hw as <- <-. split; [done|]. by exists prev, cur, text. }
  apply list_eq. intros j.
  destruct (decide (j ∈ idxs)) as [Hj|Hj]; cycle 1.
  { rewrite scatter_notin by done. apply Hmiss. intros i v _ Hw.
    apply Hwr in Hw as [Hi _]. apply Hj. by apply list_elem_of_lookup_2 in Hi. }
  apply list_elem_of_lookup in Hj as [r Hr].
  rewrite (scatter_rank idxs (lane_labels B vals) c r j Hnd) by
    (done || by rewrite lane_labels_length).
  assert (Hrv : is_Some (vals !! r)).
  { apply lookup_lt_is_Some_2. rewrite Hlen. by apply lookup_lt_Some in Hr. }
  destruct Hrv as [cur Hcur].
  assert (Hjc : (j < length c)%nat).
  { rewrite Forall_forall in Hin. apply Hin. by apply list_elem_of_lookup_2 in Hr. }
  assert (Hnone : (∀ i v, i ∈ seq 1 (length vals - 1) → wr i ≠ Some (j, v)) →
            foldl (λ c i, match wr i with Some (p, v) => <[p := v]> c | None => c end)
              c (seq 1 (length vals - 1)) !! j = Some (VStr "OK")).
  { intros Hno. rewrite Hmiss by done. apply Hok. by apply list_elem_of_lookup_2 in Hr. }
  destruct r as [|r].
  { rewrite (lane_labels_first B vals cur Hcur). apply Hnone.
    intros i v Hi Hw. apply Hwr in Hw as [Hii _].
    apply elem_of_seq in Hi.
    pose proof (NoDup_lookup idxs i 0%nat j Hnd Hii Hr). lia. }
  destruct (lookup_lt_is_Some_2 vals r) as [prev Hprev].
  { apply lookup_lt_Some in Hcur. lia. }
  rewrite (lane_labels_lookup B vals r prev cur Hprev Hcur).
  destruct (lane_jump B prev cur) as [[text|]|e] eqn:Hjump.
  - apply (Hhit (S r) j (VStr text)).
    + apply elem_of_seq. apply lookup_lt_Some in Hcur. lia.
    + unfold wr. replace (S r - 1)%nat with r by lia. by rewrite Hprev, Hcur, Hr, Hjump.
    + done.
    + intros i' v' _ Hw'. apply Hwr in Hw' as [Hi' _].
      apply (NoDup_lookup idxs i' (S r) j Hnd Hi' Hr).
  - apply Hnone. intros i v _ Hw. apply Hwr in Hw as (Hi & p' & c' & t' & Hp' & Hc' & Hj' & _).
    pose proof (NoDup_lookup idxs i (S r) j Hnd Hi Hr) as ->.
    replace (S r - 1)%nat with r in Hp' by lia. congruence.
  - apply Hnone. intros i v _ Hw. apply Hwr in Hw as (Hi & p' & c' & t' & Hp' & Hc' & Hj' & _).
    pose proof (NoDup_lookup idxs i (S r) j Hnd Hi Hr) as ->.
    replace (S r - 1)%nat with r in Hp' by lia. congruence.
Qed.

Lemma flag_lanes_scene (B : PyBuiltins) (base : gmap string (list value)) (n : nat)
    (check_col : string) (lanes : list value) (idxs : list nat) (c : list value) :
  no_overflow B lanes →
  NoDup idxs → Forall (λ j, j < length lanes)%nat idxs →
  Forall (λ j, j < length c)%nat idxs →
  (∀ j, j ∈ idxs → c !! j = Some (VStr "OK")) →
  for_each (λ out i,
    match gather idxs lanes !! (i - 1)%nat, gather idxs lanes !! i, idxs !! i with
    | Some prev, Some cur, Some idx =>
      lbl ← lane_jump B prev cur;
      match lbl with
      | Some text => Ok (at_set out idx check_col (VStr text))
      | None => Ok out
      end
    | _, _, _ => Ok out
    end) (seq 1 (length (gather idxs lanes) - 1))
    {| df_len := n; df_cols := <[check_col := c]> base |}
  = Ok {| df_len := n;
          df_cols := <[check_col := scatter idxs (lane_labels B (gather idxs lanes)) c]>
                       base |}.
Proof.
  intros Hno Hnd Hinl Hinc Hok.
  set (vals := gather idxs lanes).
  assert (Hlen : length vals = length idxs) by (by apply gather_length).
  rewrite <-(lanes_group_fold B idxs vals c Hnd Hinc Hlen Hok).
  apply (for_each_pos_write _ n base check_col
           (λ i, match vals !! (i - 1)%nat, vals !! i, idxs !! i with
                 | Some prev, Some cur, Some idx =>
                   match lane_jump B prev cur with
                   | Ok (Some text) => Some (idx, VStr text)
                   | _ => None
                   end
                 | _, _, _ => None
                 end)).
  intros c' i _.
  destruct (vals !! (i - 1)%nat) as [prev|] eqn:Hprev; [|done].
  destruct (vals !! i) as [cur|] eqn:Hcur; [|done].
  destruct (idxs !! i) as [idx|]; [|done].
  destruct (lane_jump B prev cur) as [[text|]|e] eqn:Hjump; cbn [mbind result_bind].
  - rewrite (at_set_insert _ idx check_col (VStr text) c') by apply lookup_insert_eq.
    cbn [df_len df_cols]. by rewrite insert_insert_eq.
  - done.
  - exfalso. apply (Hno prev cur e); [| |done].
    + by apply (gather_elem idxs lanes (i - 1)).
    + by apply (gather_elem idxs lanes i).
Qed.

Lemma flag_lanes_groups (B : PyBuiltins) (base : gmap string (list value)) (n : nat)
    (check_col : string) (lanes : list value) (rss : list (list nat)) (c : list value) :
  no_overflow B lanes → length lanes = n → groups_ok n rss → length c = n →
  (∀ rows j, rows ∈ rss → j ∈ rows → c !! j = Some (VStr "OK")) →
  for_each (λ out rows,
    for_each (λ out i,
      match gather rows lanes !! (i - 1)%nat, gather rows lanes !! i, rows !! i with
      | Some prev, Some cur, Some idx =>
        lbl ← lane_jump B prev cur;
        match lbl with
        | Some text => Ok (at_set out idx check_col (VStr text))
        | None => Ok out
        end
      | _, _, _ => Ok out
      end) (seq 1 (length (gather rows lanes) - 1)) out) rss
    {| df_len := n; df_cols := <[check_col := c]> base |}
  = Ok {| df_len := n;
          df_cols := <[check_col := scatter_groups (λ rows, lane_labels B (gather rows lanes))
                                      rss c]> base |}.
Proof.
  intros Hno Hl. revert c. induction rss as [|rows rss IH]; intros c Hok Hc Hcells; [done|].
  apply groups_ok_tail in Hok as (Hok & Hnd & Hin & Hdis).
  cbn [for_each].
  rewrite (flag_lanes_scene B base n check_col lanes rows c Hno Hnd).
  - cbn [mbind result_bind]. unfold scatter_groups. cbn [foldl].
    apply IH; [done|by rewrite length_scatter|].
    intros rows' j Hrows' Hj. rewrite scatter_notin by (by apply (Hdis rows')).
    apply (Hcells rows'); [by right|done].
  - by rewrite Hl.
  - by rewrite Hc.
  - intros j Hj. apply (Hcells rows); [by left|done].
Qed.

(** The lane-jump check on a table.  Without the lane column the table
    is returned as it is; with it but without the scene column the check
    raises [KeyError].  Otherwise, on a table with one cell per row in
    every column, with no column named [index] (the name under which the
    loop looks for the labels of the rows) and with lane values of which
    no two make the comparison raise, the check raises nothing, keeps the
    rows and changes no column but [<lanes>_check], in which: a row
    without a scene identifier and the first row of every scene are "OK";
    every other row is compared with the row before it in its scene (not
    in the table), and holds the label of that comparison. *)
Theorem flag_number_of_lanes_rows (B : PyBuiltins) (df : DataFrame)
    (scene_col lanes_col : string) :
  df_wf df →
  (df_cols df !! lanes_col = None →
     flag_number_of_lanes B df scene_col lanes_col = Ok df)
  ∧ (∀ lanes, df_cols df !! lanes_col = Some lanes → df_cols df !! scene_col = None →
       flag_number_of_lanes B df scene_col lanes_col = Raise KeyError)
  ∧ (∀ lanes keys,
       df_cols df !! lanes_col = Some lanes → df_cols df !! scene_col = Some keys →
       no_overflow B lanes → df_cols df !! "index" = None →
       ∃ out cells, flag_number_of_lanes B df scene_col lanes_col = Ok out
         ∧ df_len out = df_len df ∧ df_wf out
         ∧ (∀ c, c ≠ lanes_col +:+ "_check" → df_cols out !! c = df_cols df !! c)
         ∧ df_cols out !! (lanes_col +:+ "_check") = Some cells
         ∧ written_by_scene (lane_labels B) keys lanes
             (replicate (df_len df) (VStr "OK")) cells).
Proof.
  intros Hwf. split; [|split].
  { intros Hnone. unfold flag_number_of_lanes. by rewrite Hnone. }
  { intros lanes Hlanes Hnone. unfold flag_number_of_lanes, groupby, get_col.
    by rewrite Hlanes, Hnone. }
  intros lanes keys Hlanes Hkeys Hno _.
  pose proof (Hwf _ _ Hkeys) as Hnk. pose proof (Hwf _ _ Hlanes) as Hnl.
  cbn beta in Hnk, Hnl.
  pose proof (scene_groups_ok keys) as Hok. rewrite Hnk in Hok.
  set (chk := lanes_col +:+ "_check").
  set (c0 := replicate (df_len df) (VStr "OK")).
  assert (Hc0 : length c0 = df_len df) by apply length_replicate.
  assert (Hcells0 : ∀ rows j, rows ∈ scene_groups keys → j ∈ rows →
            c0 !! j = Some (VStr "OK")).
  { intros rows j Hrows Hj. subst c0. apply lookup_replicate_2.
    destruct Hok as [Hall _]. rewrite Forall_forall in Hall.
    destruct (Hall rows Hrows) as [_ Hin].
    rewrite Forall_forall in Hin. by apply Hin. }
  pose proof (flag_lanes_groups B (df_cols df) (df_len df) chk lanes (scene_groups keys) c0
                Hno Hnl Hok Hc0 Hcells0) as Hrun.
  destruct (scatter_groups_lookup (λ rows, lane_labels B (gather rows lanes)) (df_len df)
              (scene_groups keys) c0 Hok Hc0) as (HL & Hhit & Hmiss).
  { intros rows Hrows. rewrite lane_labels_length. apply gather_length.
    destruct Hok as [Hall _]. rewrite Forall_forall in Hall.
    destruct (Hall rows Hrows) as [_ Hin]. by rewrite Hnl. }
  eexists. eexists. split.
  { unfold flag_number_of_lanes, groupby, get_col. rewrite Hlanes, Hkeys.
    cbn [mbind result_bind]. rewrite for_each_fmap. cbn [snd]. cbv zeta.
    unfold scene_groups in Hrun. rewrite for_each_fmap in Hrun.
    unfold fill_col. fold chk c0. exact Hrun. }
  cbn [df_len df_cols]. split; [done|]. split; [by apply df_wf_insert|]. split.
  { intros c Hc. by rewrite lookup_insert_ne. }
  split; [apply lookup_insert_eq|]. split.
  - intros j x Hx Hna. apply Hmiss. intros rows Hrows.
    by apply (scene_groups_missing keys j x rows).
  - intros j x Hx Hna. cbv zeta.
    destruct (scene_groups_row keys j x Hx Hna) as [Hrows Hj].
    split; [done|]. intros r Hr. by apply (Hhit (rows_of x keys 0) r j).
Qed.

Lemma flag_number_of_lanes_rows_witness :
  ∃ out cells, flag_number_of_lanes no_text_builtins interleaved_lanes_table "Scene" "Lanes"
      = Ok out
    ∧ df_cols out !! "Lanes_check" = Some cells
    ∧ cells !! 2%nat = Some (VStr "Sudden addition of 2 lanes")
    ∧ cells !! 3%nat = Some (VStr "OK")
    ∧ cells !! 4%nat = Some (VStr "Sudden reduction of 3 lanes").
Proof.
  assert (Hwf : df_wf interleaved_lanes_table).
  { unfold df_wf. refine (bool_decide_unpack _ _). vm_compute. exact I. }
  assert (Hno : no_overflow no_text_builtins [VInt 2; VInt 1; VInt 4; VInt 9; VInt 1; VInt 2]).
  { intros x y e Hx Hy.
    repeat (apply elem_of_cons in Hx as [->|Hx]);
      try (by apply elem_of_nil in Hx);
      repeat (apply elem_of_cons in Hy as [->|Hy]);
      try (by apply elem_of_nil in Hy); vm_compute; discriminate. }
  destruct (flag_number_of_lanes_rows no_text_builtins interleaved_lanes_table
              "Scene" "Lanes" Hwf) as (_ & _ & Hrows).
  destruct (Hrows [VInt 2; VInt 1; VInt 4; VInt 9; VInt 1; VInt 2]
              [VStr "a"; VStr "b"; VStr "a"; NaN; VStr "a"; VStr "b"]
              eq_refl eq_refl Hno eq_refl)
    as (out & cells & Hrun & _ & _ & _ & Hcells & Hmiss & Hscene).
  exists out, cells. split; [exact Hrun|]. split; [exact Hcells|]. split; [|split].
  - destruct (Hscene 2%nat (VStr "a") eq_refl ltac:(vm_compute; reflexivity)) as [_ Hr].
    rewrite (Hr 1%nat); [vm_compute; reflexivity|vm_compute; reflexivity].
  - rewrite (Hmiss 3%nat NaN); [reflexivity|reflexivity|vm_compute; reflexivity].
  - destruct (Hscene 4%nat (VStr "a") eq_refl ltac:(vm_compute; reflexivity)) as [_ Hr].
    rewrite (Hr 2%nat); [vm_compute; reflexivity|vm_compute; reflexivity].
Defined.

(* ================================================================== *)
(** * The cloudiness check: what every row of a scene ends with *)
(* ================================================================== *)

Lemma active_state_range (c p o : value) :
  active_state c p o = 0 ∨ active_state c p o = 1 ∨ active_state c p o = 2.
Proof. unfold active_state. destruct (is_yes c), (is_yes p); auto. Qed.

Lemma forced_row_exclusive (lv : Z) :
  lv = 0 ∨ lv = 1 ∨ lv = 2 →
  active_count (yes_if (lv =? 0)) (yes_if (lv =? 1)) (yes_if (lv =? 2)) = 1%nat
  ∧ lv = active_state (yes_if (lv =? 0)) (yes_if (lv =? 1)) (yes_if (lv =? 2)).
Proof. intros [-> | [-> | ->]]; split; vm_compute; reflexivity. Qed.

(** After the cloudiness check every row of a scene is in one of two
    conditions.  Either exactly one of its three cells is "Yes", its state
    is the index of that cell and its label is "OK" or the transition
    label; or its state is -1 and its label is the inconsistency label,
    and then every row before it in the scene is in that condition too:
    the inconsistency label occurs only on rows before the first valid row
    of the scene. *)
Theorem cloudiness_scene_exclusive (clear partly overcast : list value)
    (j : nat) (row : cloud_row) :
  let res := cloudiness_scene clear partly overcast in
  res.1 !! j = Some row →
  (cr_state row = -1 ∧ res.2 !! j = Some cloud_inconsistent
   ∧ ∀ j' row', (j' < j)%nat → res.1 !! j' = Some row' → cr_state row' = -1)
  ∨ (active_count (cr_clear row) (cr_partly row) (cr_overcast row) = 1%nat
     ∧ cr_state row = active_state (cr_clear row) (cr_partly row) (cr_overcast row)
     ∧ (res.2 !! j = Some "OK" ∨ res.2 !! j = Some cloud_jump)).
Proof.
  intros res Hrow. subst res. unfold cloudiness_scene in *. cbn [fst snd] in *.
  set (rows := smoothed_rows clear partly overcast) in *.
  set (out := exclusivity rows None) in *.
  assert (Hj : (j < length rows)%nat).
  { apply lookup_lt_Some in Hrow. subst out. by rewrite exclusivity_length in Hrow. }
  destruct (lookup_lt_is_Some_2 rows j Hj) as [r Hr].
  pose proof (exclusivity_lookup rows None j r Hr) as Hres. fold out in Hres.
  rewrite Hrow in Hres. injection Hres as Hres.
  assert (Hlab : transitions (cr_state <$> out) (cr_check <$> out) !! j
                 = Some (if jump_at (cr_state <$> out) j then cloud_jump else cr_check row)).
  { rewrite transitions_lookup by (by rewrite !length_fmap).
    destruct (jump_at (cr_state <$> out) j).
    - apply list_lookup_insert_eq. rewrite length_fmap. by apply lookup_lt_Some in Hrow.
    - by rewrite list_lookup_fmap, Hrow. }
  rewrite Hlab.
  unfold row_result in Hres. destruct (valid_row r) eqn:Hvalid.
  { right. subst row. cbn [cr_clear cr_partly cr_overcast cr_state cr_check].
    split; [by apply Nat.eqb_eq|]. split; [done|].
    destruct (jump_at _ _); [by right|by left]. }
  destruct (last_valid_state (take j rows) None) as [lv|] eqn:Hlv.
  { right. subst row. cbn [cr_clear cr_partly cr_overcast cr_state cr_check].
    destruct (last_valid_state_Some _ _ Hlv) as (j' & r' & _ & _ & Hact & _).
    destruct (forced_row_exclusive lv) as [Hcount Hstate].
    { rewrite <-Hact. apply active_state_range. }
    split; [done|]. split; [done|]. destruct (jump_at _ _); [by right|by left]. }
  left. subst row. cbn [cr_state cr_check].
  assert (Hstate : (cr_state <$> out) !! j = Some (-1)).
  { rewrite list_lookup_fmap, Hrow. done. }
  split; [done|]. split; [by rewrite (jump_at_invalid _ _ Hstate)|].
  intros j' row' Hj' Hrow'.
  pose proof (proj1 (last_valid_state_None (take j rows)) Hlv) as Hall.
  destruct (lookup_lt_is_Some_2 rows j' ltac:(lia)) as [r' Hr'].
  pose proof (exclusivity_lookup rows None j' r' Hr') as Hres'. fold out in Hres'.
  rewrite Hrow' in Hres'. injection Hres' as ->.
  assert (Hnone : last_valid_state (take j' rows) None = None).
  { apply last_valid_state_None. intros i ri Hi.
    apply lookup_take_Some in Hi as [Hi Hlt]. apply (Hall i ri).
    rewrite lookup_take_lt by lia. done. }
  rewrite Hnone. rewrite row_result_invalid_state; [done|].
  apply (Hall j' r'). by rewrite lookup_take_lt.
Qed.

Lemma cloudiness_scene_exclusive_witness :
  let res := cloudiness_scene forced_scene_clear forced_scene_partly forced_scene_overcast in
  let row := {| cr_clear := VStr "No"; cr_partly := VStr "No"; cr_overcast := VStr "Yes";
                cr_state := 2; cr_check := "OK" |} in
  res.2 = [cloud_inconsistent; "OK"; "OK"; "OK"; cloud_jump]
  ∧ res.1 !! 4%nat = Some row
  ∧ ((cr_state row = -1 ∧ res.2 !! 4%nat = Some cloud_inconsistent
      ∧ ∀ j' row', (j' < 4)%nat → res.1 !! j' = Some row' → cr_state row' = -1)
     ∨ (active_count (cr_clear row) (cr_partly row) (cr_overcast row) = 1%nat
        ∧ cr_state row = active_state (cr_clear row) (cr_partly row) (cr_overcast row)
        ∧ (res.2 !! 4%nat = Some "OK" ∨ res.2 !! 4%nat = Some cloud_jump))).
Proof.
  split; [vm_compute; reflexivity|]. split; [vm_compute; reflexivity|].
  apply (cloudiness_scene_exclusive forced_scene_clear forced_scene_partly
           forced_scene_overcast 4
           {| cr_clear := VStr "No"; cr_partly := VStr "No"; cr_overcast := VStr "Yes";
              cr_state := 2; cr_check := "OK" |}).
  vm_compute. reflexivity.
Defined.

(* ================================================================== *)
(** * The cloudiness check on a table *)
(* ================================================================== *)

Lemma zigzag_step_length (values : list value) (i : nat) :
  length (zigzag_step values i) = length values.
Proof.
  unfold zigzag_step.
  destruct (values !! (i - 1)%nat) as [a|]; [|done].
  destruct (values !! i) as [b|]; [|done].
  destruct (values !! (i + 1)%nat) as [c|]; [|done].
  destruct (value_eqb a c && negb (value_eqb b a)); [apply length_insert|done].
Qed.

Lemma foldl_length {X Y : Type} (f : list X → Y → list X) (ys : list Y) (l : list X) :
  (∀ l y, length (f l y) = length l) → length (foldl f l ys) = length l.
Proof.
  intros Hf. revert l. induction ys as [|y ys IH]; intros l; [done|].
  cbn [foldl]. by rewrite IH, Hf.
Qed.

Lemma zigzag_length (values : list value) : length (zigzag values) = length values.
Proof. unfold zigzag. apply foldl_length, zigzag_step_length. Qed.

Lemma transitions_length (state_seq : list Z) (labels : list string) :
  length (transitions state_seq labels) = length labels.
Proof.
  unfold transitions. apply foldl_length. intros l j.
  rewrite transition_step_jump. destruct (jump_at state_seq j); [apply length_insert|done].
Qed.

Lemma cloudiness_scene_length (clear partly overcast : list value) (n : nat) :
  length clear = n → length partly = n → length overcast = n →
  length (cloudiness_scene clear partly overcast).1 = n
  ∧ length (cloudiness_scene clear partly overcast).2 = n.
Proof.
  intros H1 H2 H3. unfold cloudiness_scene. cbn [fst snd].
  assert (Hrows : length (exclusivity (smoothed_rows clear partly overcast) None) = n).
  { rewrite exclusivity_length. unfold smoothed_rows.
    rewrite !length_zip, !zigzag_length. lia. }
  split; [done|]. by rewrite transitions_length, length_fmap.
Qed.

Lemma loc_set_eq (out : DataFrame) (rows : list nat) (col : string)
    (vals old : list value) :
  df_cols out !! col = Some old →
  df_cols (loc_set out rows col vals) !! col = Some (scatter rows vals old).
Proof. intros Hold. unfold loc_set. cbn [df_cols]. by rewrite lookup_insert_eq, Hold. Qed.

Lemma loc_set_ne (out : DataFrame) (rows : list nat) (col c : string) (vals : list value) :
  c ≠ col → df_cols (loc_set out rows col vals) !! c = df_cols out !! c.
Proof. intros Hne. unfold loc_set. cbn [df_cols]. by rewrite lookup_insert_ne. Qed.

Lemma loc_set_len (out : DataFrame) (rows : list nat) (col : string) (vals : list value) :
  df_len (loc_set out rows col vals) = df_len out.
Proof. done. Qed.

Section CloudTable.
Variable n : nat.
Variable base : gmap string (list value).
Variables clear_col partly_col overcast_col check_col : string.
Hypothesis clear_partly : clear_col ≠ partly_col.
Hypothesis clear_overcast : clear_col ≠ overcast_col.
Hypothesis partly_overcast : partly_col ≠ overcast_col.
Hypothesis clear_check : clear_col ≠ check_col.
Hypothesis partly_check : partly_col ≠ check_col.
Hypothesis overcast_check : overcast_col ≠ check_col.

Lemma cloud_body (cs : list value * list value * list value * list value)
    (out : DataFrame) (rows : list nat) :
  cloud_state n base clear_col partly_col overcast_col check_col cs out →
  ∃ out',
    (clear ← get_col out clear_col;
     partly ← get_col out partly_col;
     overcast ← get_col out overcast_col;
     let res := cloudiness_scene (gather rows clear) (gather rows partly)
                  (gather rows overcast) in
     let out := loc_set out rows clear_col (cr_clear <$> res.1) in
     let out := loc_set out rows partly_col (cr_partly <$> res.1) in
     let out := loc_set out rows overcast_col (cr_overcast <$> res.1) in
     Ok (loc_set out rows check_col (VStr <$> res.2))) = Ok out'
    ∧ cloud_state n base clear_col partly_col overcast_col check_col (cloud_step cs rows) out'.
Proof.
  destruct cs as [[[c1 c2] c3] c4]. intros (Hn & H1 & H2 & H3 & H4 & Hrest).
  cbn [fst snd] in H1, H2, H3, H4.
  assert (Hg1 : get_col out clear_col = Ok c1) by (unfold get_col; by rewrite H1).
  assert (Hg2 : get_col out partly_col = Ok c2) by (unfold get_col; by rewrite H2).
  assert (Hg3 : get_col out overcast_col = Ok c3) by (unfold get_col; by rewrite H3).
  rewrite Hg1. cbn [mbind result_bind]. rewrite Hg2. cbn [mbind result_bind].
  rewrite Hg3. cbn [mbind result_bind]. cbv zeta.
  eexists. split; [done|].
  unfold cloud_state, cloud_step. cbn [fst snd].
  set (res := cloudiness_scene (gather rows c1) (gather rows c2) (gather rows c3)).
  split; [by rewrite !loc_set_len|].
  split.
  { rewrite !loc_set_ne by done. by apply loc_set_eq. }
  split.
  { rewrite !loc_set_ne by done. apply loc_set_eq. by rewrite loc_set_ne. }
  split.
  { rewrite loc_set_ne by done. apply loc_set_eq. by rewrite !loc_set_ne. }
  split.
  { apply loc_set_eq. by rewrite !loc_set_ne. }
  intros c Hc1 Hc2 Hc3 Hc4. rewrite !loc_set_ne by done. by apply Hrest.
Qed.

Lemma cloud_loop (rss : list (list nat))
    (cs : list value * list value * list value * list value) (out : DataFrame) :
  cloud_state n base clear_col partly_col overcast_col check_col cs out →
  ∃ out',
    for_each (λ out rows,
      clear ← get_col out clear_col;
      partly ← get_col out partly_col;
      overcast ← get_col out overcast_col;
      let res := cloudiness_scene (gather rows clear) (gather rows partly)
                   (gather rows overcast) in
      let out := loc_set out rows clear_col (cr_clear <$> res.1) in
      let out := loc_set out rows partly_col (cr_partly <$> res.1) in
      let out := loc_set out rows overcast_col (cr_overcast <$> res.1) in
      Ok (loc_set out rows check_col (VStr <$> res.2))) rss out = Ok out'
    ∧ cloud_state n base clear_col partly_col overcast_col check_col
        (foldl cloud_step cs rss) out'.
Proof.
  revert cs out. induction rss as [|rows rss IH]; intros cs out Hst.
  { exists out. done. }
  destruct (cloud_body cs out rows Hst) as (out1 & Hrun1 & Hst1).
  destruct (IH _ out1 Hst1) as (out' & Hrun & Hst').
  exists out'. cbn [for_each foldl]. cbv zeta in Hrun1, Hrun. cbv zeta.
  rewrite Hrun1. cbn [mbind result_bind]. done.
Qed.

End CloudTable.

(** The four columns after the loop, each as the writes of the scenes
    computed from the three columns as they were. *)
Lemma cloud_fold (n : nat) (rss : list (list nat)) (a1 a2 a3 c1 c2 c3 c4 : list value) :
  groups_ok n rss → length c1 = n → length c2 = n → length c3 = n →
  (∀ rows, rows ∈ rss →
     gather rows c1 = gather rows a1 ∧ gather rows c2 = gather rows a2
     ∧ gather rows c3 = gather rows a3) →
  let res := λ rows, cloudiness_scene (gather rows a1) (gather rows a2) (gather rows a3) in
  foldl cloud_step (c1, c2, c3, c4) rss
  = (scatter_groups (λ rows, cr_clear <$> (res rows).1) rss c1,
     scatter_groups (λ rows, cr_partly <$> (res rows).1) rss c2,
     scatter_groups (λ rows, cr_overcast <$> (res rows).1) rss c3,
     scatter_groups (λ rows, VStr <$> (res rows).2) rss c4).
Proof.
  intros Hok H1 H2 H3 Hsame res. revert c1 c2 c3 c4 H1 H2 H3 Hsame.
  induction rss as [|rows rss IH]; intros c1 c2 c3 c4 H1 H2 H3 Hsame; [done|].
  apply groups_ok_tail in Hok as (Hok & Hnd & Hin & Hdis).
  cbn [foldl]. unfold cloud_step at 2.
  destruct (Hsame rows) as (-> & -> & ->); [by left|].
  fold (res rows). unfold scatter_groups. cbn [foldl].
  apply (IH Hok); rewrite ?length_scatter; try done.
  intros rows' Hrows'.
  destruct (Hsame rows') as (<- & <- & <-); [by right|].
  split; [|split]; apply gather_ext; intros i Hi; apply scatter_notin;
    by apply (Hdis rows').
Qed.

(** The cloudiness check on a table.  When one of the three columns is
    not there the table is returned as it is; when they are but the scene
    column is not, the check raises [KeyError].  Otherwise, on a table
    with one cell per row in every column, different names for the columns
    and three cloudiness columns that hold text (so that a forced row can
    be written into them), the check raises nothing, keeps the rows and
    changes no column but the three cloudiness columns and
    [<clear>_check].  A row without a
    scene identifier keeps its three cells and is "OK".  The rows of a
    scene, wherever they are in the table, are checked together and on
    their own: the row of rank [r] among them holds row [r] of the check
    of the cells of that scene. *)
Theorem check_cloudiness_rows (df : DataFrame)
    (scene_col clear_col partly_col overcast_col : string) :
  df_wf df →
  (df_cols df !! clear_col = None ∨ df_cols df !! partly_col = None
   ∨ df_cols df !! overcast_col = None →
     check_cloudiness_scene_switch df scene_col clear_col partly_col overcast_col = Ok df)
  ∧ (∀ clear partly overcast,
       df_cols df !! clear_col = Some clear → df_cols df !! partly_col = Some partly →
       df_cols df !! overcast_col = Some overcast →
       scene_col ≠ clear_col +:+ "_check" →
       (df_cols df !! scene_col = None →
          check_cloudiness_scene_switch df scene_col clear_col partly_col overcast_col
          = Raise KeyError)
       ∧ (∀ keys, df_cols df !! scene_col = Some keys →
            clear_col ≠ partly_col → clear_col ≠ overcast_col →
            partly_col ≠ overcast_col →
            partly_col ≠ clear_col +:+ "_check" →
            overcast_col ≠ clear_col +:+ "_check" →
            holds_text clear → holds_text partly → holds_text overcast →
            ∃ out c1 c2 c3 c4,
              check_cloudiness_scene_switch df scene_col clear_col partly_col overcast_col
                = Ok out
              ∧ df_len out = df_len df
              ∧ (∀ c, c ≠ clear_col → c ≠ partly_col → c ≠ overcast_col →
                      c ≠ clear_col +:+ "_check" → df_cols out !! c = df_cols df !! c)
              ∧ df_cols out !! clear_col = Some c1
              ∧ df_cols out !! partly_col = Some c2
              ∧ df_cols out !! overcast_col = Some c3
              ∧ df_cols out !! (clear_col +:+ "_check") = Some c4
              ∧ length c1 = df_len df ∧ length c2 = df_len df
              ∧ length c3 = df_len df ∧ length c4 = df_len df
              ∧ cloud_written keys clear partly overcast c1 c2 c3 c4)).
Proof.
  intros Hwf. split.
  { intros Hmiss. unfold check_cloudiness_scene_switch, has_col.
    destruct Hmiss as [-> | [-> | ->]]; [done| |].
    - by destruct (df_cols df !! clear_col).
    - by destruct (df_cols df !! clear_col), (df_cols df !! partly_col). }
  intros clear partly overcast Hc Hp Ho Hsc.
  set (chk := clear_col +:+ "_check") in *.
  assert (Hcc : clear_col ≠ chk).
  { intros Heq. symmetry in Heq. by apply string_append_ne in Heq. }
  assert (Hhead : ∀ k : result (list (value * list nat)) → result DataFrame,
            check_cloudiness_scene_switch df scene_col clear_col partly_col overcast_col
            = (groups ← groupby (fill_col df chk (VStr "OK")) scene_col;
               for_each (λ out group,
                 let idxs := group.2 in
                 clear ← get_col out clear_col;
                 partly ← get_col out partly_col;
                 overcast ← get_col out overcast_col;
                 let res := cloudiness_scene (gather idxs clear) (gather idxs partly)
                              (gather idxs overcast) in
                 let out := loc_set out idxs clear_col (cr_clear <$> res.1) in
                 let out := loc_set out idxs partly_col (cr_partly <$> res.1) in
                 let out := loc_set out idxs overcast_col (cr_overcast <$> res.1) in
                 Ok (loc_set out idxs chk (VStr <$> res.2))) groups
                 (fill_col df chk (VStr "OK")))).
  { intros _. unfold check_cloudiness_scene_switch, has_col. by rewrite Hc, Hp, Ho. }
  rewrite (Hhead (λ _, Ok df)). clear Hhead.
  assert (Hscene : df_cols (fill_col df chk (VStr "OK")) !! scene_col
                   = df_cols df !! scene_col).
  { unfold fill_col. cbn [df_cols]. by rewrite lookup_insert_ne. }
  split.
  { intros Hnone. unfold groupby, get_col. by rewrite Hscene, Hnone. }
  intros keys Hkeys Hcp Hco Hpo Hpc Hoc _ _ _.
  pose proof (Hwf _ _ Hkeys) as Hnk. pose proof (Hwf _ _ Hc) as Hn1.
  pose proof (Hwf _ _ Hp) as Hn2. pose proof (Hwf _ _ Ho) as Hn3.
  cbn beta in Hnk, Hn1, Hn2, Hn3.
  pose proof (scene_groups_ok keys) as Hok. rewrite Hnk in Hok.
  set (c0 := replicate (df_len df) (VStr "OK")).
  assert (Hst : cloud_state (df_len df) (df_cols df) clear_col partly_col overcast_col chk
                  (clear, partly, overcast, c0) (fill_col df chk (VStr "OK"))).
  { unfold cloud_state, fill_col. cbn [df_len df_cols fst snd].
    rewrite !lookup_insert_ne by done. rewrite lookup_insert_eq.
    repeat (split; [done|]). intros c _ _ _ Hc4. by rewrite lookup_insert_ne. }
  destruct (cloud_loop (df_len df) (df_cols df) clear_col partly_col overcast_col chk
              Hcp Hco Hpo Hcc Hpc Hoc (scene_groups keys) _ _ Hst)
    as (out & Hrun & Hfinal).
  rewrite (cloud_fold (df_len df) (scene_groups keys) clear partly overcast
             clear partly overcast c0 Hok Hn1 Hn2 Hn3) in Hfinal by done.
  cbv zeta in Hfinal.
  destruct Hfinal as (Hn & H1 & H2 & H3 & H4 & Hrest). cbn [fst snd] in H1, H2, H3, H4.
  set (res := λ rows, cloudiness_scene (gather rows clear) (gather rows partly)
                        (gather rows overcast)) in *.
  assert (Hres : ∀ rows, rows ∈ scene_groups keys →
            length (res rows).1 = length rows ∧ length (res rows).2 = length rows).
  { intros rows Hrows. destruct Hok as [Hall _]. rewrite Forall_forall in Hall.
    destruct (Hall rows Hrows) as [_ Hin].
    apply cloudiness_scene_length; apply gather_length; by rewrite ?Hn1, ?Hn2, ?Hn3. }
  destruct (scatter_groups_lookup (λ rows, cr_clear <$> (res rows).1) (df_len df)
              (scene_groups keys) clear Hok Hn1) as (HL1 & Hhit1 & Hmiss1).
  { intros rows Hrows. rewrite length_fmap. by apply Hres. }
  destruct (scatter_groups_lookup (λ rows, cr_partly <$> (res rows).1) (df_len df)
              (scene_groups keys) partly Hok Hn2) as (HL2 & Hhit2 & Hmiss2).
  { intros rows Hrows. rewrite length_fmap. by apply Hres. }
  destruct (scatter_groups_lookup (λ rows, cr_overcast <$> (res rows).1) (df_len df)
              (scene_groups keys) overcast Hok Hn3) as (HL3 & Hhit3 & Hmiss3).
  { intros rows Hrows. rewrite length_fmap. by apply Hres. }
  destruct (scatter_groups_lookup (λ rows, VStr <$> (res rows).2) (df_len df)
              (scene_groups keys) c0 Hok) as (HL4 & Hhit4 & Hmiss4).
  { apply length_replicate. }
  { intros rows Hrows. rewrite length_fmap. by apply Hres. }
  eexists. eexists. eexists. eexists. eexists. split.
  { unfold groupby, get_col. rewrite Hscene, Hkeys. cbn [mbind result_bind].
    rewrite for_each_fmap. cbn [snd]. cbv zeta.
    unfold scene_groups in Hrun. rewrite for_each_fmap in Hrun. cbv zeta in Hrun.
    exact Hrun. }
  split; [done|]. split; [done|].
  split; [exact H1|]. split; [exact H2|]. split; [exact H3|]. split; [exact H4|].
  split; [done|]. split; [done|]. split; [done|]. split; [done|]. split.
  - intros j x Hx Hna.
    assert (Hout : ∀ rows, rows ∈ scene_groups keys → j ∉ rows).
    { intros rows Hrows. by apply (scene_groups_missing keys j x rows). }
    split; [by apply Hmiss1|]. split; [by apply Hmiss2|]. split; [by apply Hmiss3|].
    intros y Hy. rewrite Hmiss4 by done. subst c0. apply lookup_replicate_2.
    rewrite <-Hn1. by apply lookup_lt_Some in Hy.
  - intros j x Hx Hna. cbv zeta.
    destruct (scene_groups_row keys j x Hx Hna) as [Hrows Hj].
    split; [done|]. intros r Hr. rewrite <-!list_lookup_fmap.
    split; [by apply (Hhit1 (rows_of x keys 0) r j)|].
    split; [by apply (Hhit2 (rows_of x keys 0) r j)|].
    split; [by apply (Hhit3 (rows_of x keys 0) r j)|].
    by apply (Hhit4 (rows_of x keys 0) r j).
Qed.

Lemma check_cloudiness_rows_witness :
  ∃ out c4,
    check_cloudiness_scene_switch cloud_table "Scene" "Clear" "Partly" "Overcast" = Ok out
    ∧ df_cols out !! "Clear_check" = Some c4
    ∧ c4 !! 4%nat = Some (VStr cloud_jump)
    ∧ c4 !! 3%nat = Some (VStr "OK")
    ∧ c4 !! 1%nat = Some (VStr cloud_inconsistent).
Proof.
  assert (Hwf : df_wf cloud_table).
  { unfold df_wf. refine (bool_decide_unpack _ _). vm_compute. exact I. }
  destruct (check_cloudiness_rows cloud_table "Scene" "Clear" "Partly" "Overcast" Hwf)
    as [_ Hrows].
  destruct (Hrows [VStr "Yes"; VStr "No"; VStr "Yes"; VStr "Yes"; VStr "No"]
              [VStr "No"; VStr "No"; VStr "No"; VStr "Yes"; VStr "No"]
              [VStr "No"; VStr "No"; VStr "No"; VStr "No"; VStr "Yes"]
              eq_refl eq_refl eq_refl ltac:(vm_compute; discriminate)) as [_ Hscenes].
  destruct (Hscenes [VStr "a"; VStr "b"; VStr "a"; NaN; VStr "a"] eq_refl
              ltac:(vm_compute; discriminate) ltac:(vm_compute; discriminate)
              ltac:(vm_compute; discriminate) ltac:(vm_compute; discriminate)
              ltac:(vm_compute; discriminate)
              ltac:(by exists 0%nat, "Yes") ltac:(by exists 0%nat, "No")
              ltac:(by exists 0%nat, "No"))
    as (out & c1 & c2 & c3 & c4 & Hrun & _ & _ & _ & _ & _ & Hc4 & _ & _ & _ & _
        & Hmiss & Hscene).
  exists out, c4. split; [exact Hrun|].
  change ("Clear" +:+ "_check") with "Clear_check" in Hc4. split; [exact Hc4|].
  split; [|split].
  - destruct (Hscene 4%nat (VStr "a") eq_refl ltac:(vm_compute; reflexivity)) as [_ Hr].
    destruct (Hr 2%nat ltac:(vm_compute; reflexivity)) as (_ & _ & _ & H4).
    rewrite H4. vm_compute. reflexivity.
  - destruct (Hmiss 3%nat NaN eq_refl ltac:(vm_compute; reflexivity)) as (_ & _ & _ & H4).
    apply (H4 (VStr "Yes")). reflexivity.
  - destruct (Hscene 1%nat (VStr "b") eq_refl ltac:(vm_compute; reflexivity)) as [_ Hr].
    destruct (Hr 0%nat ltac:(vm_compute; reflexivity)) as (_ & _ & _ & H4).
    rewrite H4. vm_compute. reflexivity.
Defined.

(* ================================================================== *)
(** * Step 1 of the cloudiness check: zig-zag smoothing *)
(* ================================================================== *)

Lemma zigzag_prefix (values : list value) (k : nat) :
  let l := foldl zigzag_step values (seq 1 k) in
  length l = length values
  ∧ (∀ j, (k < j)%nat → l !! j = values !! j)
  ∧ l !! 0%nat = values !! 0%nat
  ∧ (∀ i a b c, (S i ≤ k)%nat →
       l !! i = Some a → l !! S i = Some b → l !! S (S i) = Some c →
       value_eqb a c = true → value_eqb b a = true).
Proof.
  induction k as [|k IH].
  { cbn [seq foldl]. split; [done|]. split; [done|]. split; [done|]. intros; lia. }
  rewrite seq_S, foldl_app. cbn [foldl]. cbv zeta in IH |- *.
  set (l := foldl zigzag_step values (seq 1 k)) in *.
  destruct IH as (Hlen & Hlater & Hfirst & Htriple).
  replace (1 + k)%nat with (S k) by lia.
  unfold zigzag_step. replace (S k - 1)%nat with k by lia.
  replace (S k + 1)%nat with (S (S k)) by lia.
  destruct (l !! k) as [a0|] eqn:Ha0; cycle 1.
  { split; [done|]. split; [intros j Hj; apply Hlater; lia|]. split; [done|].
    intros i a b c Hi Ha Hb Hc Hac.
    destruct (decide (i = k)) as [->|Hne]; [congruence|].
    apply (Htriple i a b c); [lia|done..]. }
  destruct (l !! S k) as [b0|] eqn:Hb0; cycle 1.
  { split; [done|]. split; [intros j Hj; apply Hlater; lia|]. split; [done|].
    intros i a b c Hi Ha Hb Hc Hac.
    destruct (decide (i = k)) as [->|Hne]; [congruence|].
    apply (Htriple i a b c); [lia|done..]. }
  destruct (l !! S (S k)) as [c0|] eqn:Hc0; cycle 1.
  { split; [done|]. split; [intros j Hj; apply Hlater; lia|]. split; [done|].
    intros i a b c Hi Ha Hb Hc Hac.
    destruct (decide (i = k)) as [->|Hne]; [congruence|].
    apply (Htriple i a b c); [lia|done..]. }
  destruct (value_eqb a0 c0 && negb (value_eqb b0 a0)) eqn:Hzz; cycle 1.
  { split; [done|]. split; [intros j Hj; apply Hlater; lia|]. split; [done|].
    intros i a b c Hi Ha Hb Hc Hac.
    destruct (decide (i = k)) as [->|Hne].
    - rewrite Ha0 in Ha. rewrite Hb0 in Hb. rewrite Hc0 in Hc.
      injection Ha as <-. injection Hb as <-. injection Hc as <-.
      rewrite Hac in Hzz. cbn [andb] in Hzz. by apply negb_false_iff in Hzz.
    - apply (Htriple i a b c); [lia|done..]. }
  apply andb_true_iff in Hzz as [Hac0 Hba0].
  assert (Hk : (S k < length l)%nat) by (by apply lookup_lt_Some in Hb0).
  split; [by rewrite length_insert|]. split.
  { intros j Hj. rewrite list_lookup_insert_ne by lia. apply Hlater. lia. }
  split; [by rewrite list_lookup_insert_ne by lia|].
  intros i a b c Hi Ha Hb Hc Hac.
  destruct (decide (i = k)) as [->|Hne].
  { rewrite list_lookup_insert_ne in Ha by lia.
    rewrite list_lookup_insert_eq in Hb by done.
    rewrite Ha0 in Ha. injection Ha as <-. injection Hb as <-.
    by apply (value_eqb_trans a0 c0 a0); [|rewrite value_eqb_sym]. }
  destruct (decide (S i = k)) as [<-|Hne2].
  { rewrite list_lookup_insert_ne in Ha by lia.
    rewrite list_lookup_insert_ne in Hb by lia.
    rewrite list_lookup_insert_eq in Hc by done.
    rewrite Ha0 in Hb. injection Hb as <-. injection Hc as <-.
    by rewrite value_eqb_sym. }
  rewrite list_lookup_insert_ne in Ha by lia.
  rewrite list_lookup_insert_ne in Hb by lia.
  rewrite list_lookup_insert_ne in Hc by lia.
  apply (Htriple i a b c); [lia|done..].
Qed.

(** Step 1 of the cloudiness check on one column of a scene.  The
    smoothed column has the length of the column, its first and its last
    cell are those of the column, and no single-sample zig-zag is left in
    it: wherever two cells at distance two are equal, the cell between
    them is equal to them. *)
Theorem zigzag_smoothed (values : list value) :
  let out := zigzag values in
  length out = length values
  ∧ out !! 0%nat = values !! 0%nat
  ∧ (∀ j, S j = length values → out !! j = values !! j)
  ∧ (∀ i a b c, out !! i = Some a → out !! S i = Some b → out !! S (S i) = Some c →
       value_eqb a c = true → value_eqb b a = true).
Proof.
  intros out. subst out. unfold zigzag.
  destruct (zigzag_prefix values (length values - 2)) as (Hlen & Hlater & Hfirst & Htriple).
  cbv zeta in Hlen, Hlater, Hfirst, Htriple.
  split; [done|]. split; [done|]. split.
  - intros j Hj. destruct (decide (length values - 2 < j)%nat) as [Hlt|Hge].
    + by apply Hlater.
    + assert (j = 0%nat) as -> by lia. done.
  - intros i a b c Ha Hb Hc Hac. apply (Htriple i a b c); try done.
    apply lookup_lt_Some in Hc. rewrite Hlen in Hc. lia.
Qed.

(* ================================================================== *)
(** * The checks in sequence: what they keep of the table *)
(* ================================================================== *)

Lemma string_append_assoc (s1 s2 s3 : string) : (s1 +:+ s2) +:+ s3 = s1 +:+ (s2 +:+ s3).
Proof.
  induction s1 as [|a s1 IH]; [done|].
  change (String a ((s1 +:+ s2) +:+ s3) = String a (s1 +:+ (s2 +:+ s3))).
  by rewrite IH.
Qed.

Section Kept.
Variable W : string → Prop.

Lemma kept_refl (df : DataFrame) : kept W df df.
Proof. by repeat split. Qed.

Lemma kept_trans (a b c : DataFrame) : kept W a b → kept W b c → kept W a c.
Proof.
  intros (Hl1 & Hw1 & Hp1 & Hf1) (Hl2 & Hw2 & Hp2 & Hf2).
  split; [congruence|]. split; [auto|]. split; [auto|].
  intros x Hx. by rewrite Hf2, Hf1.
Qed.

Lemma kept_insert (df : DataFrame) (c : string) (l : list value) :
  W c → (df_wf df → length l = df_len df) →
  kept W df {| df_len := df_len df; df_cols := <[c := l]> (df_cols df) |}.
Proof.
  intros Hc Hl. split; [done|]. split; [|split].
  - intros Hwf. apply df_wf_insert; auto.
  - intros x Hx. cbn [df_cols]. destruct (decide (c = x)) as [->|Hne].
    + by rewrite lookup_insert_eq.
    + by rewrite lookup_insert_ne.
  - intros x Hx. cbn [df_cols]. apply lookup_insert_ne. by intros ->.
Qed.

Lemma kept_fill_col (df : DataFrame) (c : string) (v : value) :
  W c → kept W df (fill_col df c v).
Proof. intros Hc. apply kept_insert; [done|]. intros _. apply length_replicate. Qed.

Lemma kept_loc_set (df : DataFrame) (idxs : list nat) (c : string) (vals : list value) :
  W c → kept W df (loc_set df idxs c vals).
Proof.
  intros Hc. apply kept_insert; [done|]. intros Hwf. rewrite length_scatter.
  destruct (df_cols df !! c) as [l|] eqn:Hl; cbn [default].
  - exact (Hwf _ _ Hl).
  - apply length_replicate.
Qed.

Lemma kept_at_set (df : DataFrame) (i : nat) (c : string) (v : value) :
  W c → kept W df (at_set df i c v).
Proof.
  intros Hc. split; [done|]. split; [|split].
  - intros Hwf x l. cbn [at_set df_cols df_len]. destruct (decide (c = x)) as [->|Hne].
    + rewrite lookup_alter_eq. destruct (df_cols df !! x) as [l0|] eqn:Hl0; [|done].
      cbn. intros [= <-]. rewrite length_insert. exact (Hwf _ _ Hl0).
    + rewrite lookup_alter_ne by done. apply Hwf.
  - intros x Hx. cbn [at_set df_cols]. destruct (decide (c = x)) as [->|Hne].
    + rewrite lookup_alter_eq. by apply fmap_is_Some.
    + by rewrite lookup_alter_ne.
  - intros x Hx. cbn [at_set df_cols]. apply lookup_alter_ne. by intros ->.
Qed.

Lemma for_each_kept {X : Type} (body : DataFrame → X → result DataFrame) :
  (∀ acc x acc', body acc x = Ok acc' → kept W acc acc') →
  ∀ xs acc out, for_each body xs acc = Ok out → kept W acc out.
Proof.
  intros Hbody xs. induction xs as [|x xs IH]; intros acc out Hrun; cbn [for_each] in Hrun.
  - injection Hrun as <-. apply kept_refl.
  - destruct (body acc x) as [acc'|e] eqn:Hx; cbn [mbind result_bind] in Hrun; [|done].
    eapply kept_trans; [by eapply Hbody|by apply IH].
Qed.


Lemma add_problem_flags_kept (df : DataFrame) (scene_col : string)
    (base_cols : list string) (out : DataFrame) :
  (∀ p, W (p +:+ "_check")) →
  add_problem_flags df scene_col base_cols = Ok out → kept W df out.
Proof.
  intros HW. unfold add_problem_flags.
  destruct (groupby df scene_col) as [groups|e]; cbn [mbind result_bind]; [|done].
  apply for_each_kept. intros acc group acc'. apply for_each_kept.
  intros a base_col a'. cbv zeta.
  destruct (df_cols df !! (base_col +:+ "_Auto_Check")) as [col|]; intros [= <-].
  - apply kept_loc_set, HW.
  - apply kept_refl.
Qed.

Lemma equal_cells_kept (df : DataFrame) (chk d_col u_col flag : string) :
  W chk →
  kept W df
    (if negb (has_col df d_col) || negb (has_col df u_col) then df
     else
       let out := fill_col df chk (VStr "OK") in
       match df_cols out !! d_col, df_cols out !! u_col, df_cols out !! chk with
       | Some d, Some u, Some c =>
         let bad := zip_with (λ x y, negb (value_isna x) && negb (value_isna y)
                                     && value_eqb x y) d u in
         let chk' := zip_with (λ (b : bool) old, if b then VStr flag else old) bad c in
         {| df_len := df_len out; df_cols := <[chk := chk']> (df_cols out) |}
       | _, _, _ => out
       end).
Proof.
  intros Hc. destruct (negb _ || negb _); [apply kept_refl|]. cbv zeta.
  pose proof (kept_fill_col df chk (VStr "OK") Hc) as Hfill.
  destruct (df_cols (fill_col df chk (VStr "OK")) !! d_col) as [d|] eqn:Hd; [|done].
  destruct (df_cols (fill_col df chk (VStr "OK")) !! u_col) as [u|] eqn:Hu; [|done].
  destruct (df_cols (fill_col df chk (VStr "OK")) !! chk) as [c|] eqn:Hchk; [|done].
  eapply kept_trans; [exact Hfill|]. apply kept_insert; [done|].
  intros Hwf. rewrite !length_zip_with.
  rewrite (Hwf _ _ Hd), (Hwf _ _ Hu), (Hwf _ _ Hchk). lia.
Qed.

Lemma check_divided_undivided_kept (df : DataFrame) (divided_col undivided_col : string) :
  W divided_undivided_check_col →
  kept W df (check_divided_undivided_consistency df divided_col undivided_col).
Proof. intros Hc. by apply equal_cells_kept. Qed.

Lemma check_illumination_kept (df : DataFrame) (day_col night_col : string) :
  W illumination_check_col →
  kept W df (check_illumination_consistency df day_col night_col).
Proof. intros Hc. by apply equal_cells_kept. Qed.

Lemma flag_number_of_lanes_kept (B : PyBuiltins) (df : DataFrame)
    (scene_col lanes_col : string) (out : DataFrame) :
  W (lanes_col +:+ "_check") →
  flag_number_of_lanes B df scene_col lanes_col = Ok out → kept W df out.
Proof.
  intros Hc. unfold flag_number_of_lanes.
  destruct (df_cols df !! lanes_col) as [lanes|]; [|intros [= <-]; apply kept_refl].
  cbv zeta. destruct (groupby df scene_col) as [groups|e]; cbn [mbind result_bind]; [|done].
  intros Hrun.
  apply (kept_trans _ (fill_col df (lanes_col +:+ "_check") (VStr "OK")));
    [by apply kept_fill_col|].
  revert Hrun. apply for_each_kept. intros acc group acc'. apply for_each_kept.
  intros a i a'.
  destruct (gather group.2 lanes !! (i - 1)%nat) as [prev|];
    [|intros [= <-]; apply kept_refl].
  destruct (gather group.2 lanes !! i) as [cur|]; [|intros [= <-]; apply kept_refl].
  destruct (group.2 !! i) as [idx|]; [|intros [= <-]; apply kept_refl].
  destruct (lane_jump B prev cur) as [[text|]|e]; cbn [mbind result_bind];
    [intros [= <-]; by apply kept_at_set|intros [= <-]; apply kept_refl|done].
Qed.

Lemma check_pair_rows_kept (B : PyBuiltins) (signs_col times_col check_col : string)
    (rows : list nat) (df out : DataFrame) :
  W check_col →
  check_pair_rows B signs_col times_col check_col rows df = Ok out → kept W df out.
Proof.
  intros Hc. unfold check_pair_rows. apply for_each_kept. intros a i a'.
  destruct (at_get a i signs_col) as [x|e]; cbn [mbind result_bind]; [|done].
  destruct (at_get a i times_col) as [y|e]; cbn [mbind result_bind]; [|done].
  cbv zeta. destruct (_ || _); [intros [= <-]; by apply kept_at_set|].
  destruct (negb _); intros [= <-]; [by apply kept_at_set|apply kept_refl].
Qed.

Lemma check_signs_time_pairs_kept (B : PyBuiltins) (df : DataFrame)
    (pairs : list (string * string)) (out : DataFrame) :
  (∀ p, W (p +:+ "_check")) →
  check_signs_time_pairs B df pairs = Ok out → kept W df out.
Proof.
  intros HW. unfold check_signs_time_pairs. apply for_each_kept. intros a pair a'.
  cbv zeta. destruct (_ || _); [intros [= <-]; apply kept_refl|].
  assert (Hc : W (pair.1 +:+ "_pair_check")).
  { change "_pair_check" with ("_pair" +:+ "_check").
    rewrite <-string_append_assoc. apply HW. }
  intros Hrun.
  apply (kept_trans _ (fill_col a (pair.1 +:+ "_pair_check") (VStr "OK")));
    [by apply kept_fill_col|].
  by eapply check_pair_rows_kept.
Qed.

Lemma check_construction_zone_kept (df : DataFrame)
    (roadworks_col signage_col linemarkers_col : string) (out : DataFrame) :
  W (roadworks_col +:+ "_check") →
  check_construction_zone df roadworks_col signage_col linemarkers_col = Ok out →
  kept W df out.
Proof.
  intros Hc. unfold check_construction_zone.
  destruct (_ || _); [intros [= <-]; apply kept_refl|]. cbv zeta.
  intros Hrun.
  apply (kept_trans _ (fill_col df (roadworks_col +:+ "_check") (VStr "OK")));
    [by apply kept_fill_col|].
  revert Hrun. apply for_each_kept. intros a i a'.
  destruct (at_get a i roadworks_col) as [rw|e]; cbn [mbind result_bind]; [|done].
  destruct (at_get a i signage_col) as [sign|e]; cbn [mbind result_bind]; [|done].
  destruct (at_get a i linemarkers_col) as [lines|e]; cbn [mbind result_bind]; [|done].
  destruct (_ && _); [intros [= <-]; by apply kept_at_set|].
  destruct (_ && _); intros [= <-]; [by apply kept_at_set|apply kept_refl].
Qed.

Lemma check_cloudiness_kept (df : DataFrame)
    (scene_col clear_col partly_col overcast_col : string) (out : DataFrame) :
  W clear_col → W partly_col → W overcast_col → W (clear_col +:+ "_check") →
  check_cloudiness_scene_switch df scene_col clear_col partly_col overcast_col = Ok out →
  kept W df out.
Proof.
  intros H1 H2 H3 H4. unfold check_cloudiness_scene_switch.
  destruct (_ || _); [intros [= <-]; apply kept_refl|]. cbv zeta.
  destruct (groupby _ scene_col) as [groups|e]; cbn [mbind result_bind]; [|done].
  intros Hrun.
  apply (kept_trans _ (fill_col df (clear_col +:+ "_check") (VStr "OK")));
    [by apply kept_fill_col|].
  revert Hrun. apply for_each_kept. intros a group a'.
  destruct (get_col a clear_col) as [clear|e]; cbn [mbind result_bind]; [|done].
  destruct (get_col a partly_col) as [partly|e]; cbn [mbind result_bind]; [|done].
  destruct (get_col a overcast_col) as [overcast|e]; cbn [mbind result_bind]; [|done].
  intros [= <-].
  eapply kept_trans; [|by apply kept_loc_set].
  eapply kept_trans; [|by apply kept_loc_set].
  eapply kept_trans; [|by apply kept_loc_set].
  by apply kept_loc_set.
Qed.

End Kept.

(** The seven checks in sequence, for any column names, base columns and
    pairs, on a table with no column named [index] (the name under which
    the lane check looks for the labels of the rows).  When they return a
    table, it has the rows of the input; it has one cell per row in every
    column if the input has; no column of the input is removed; and every
    column whose name does not end in [_check] and that is not one of the
    three cloudiness columns is as in the input. *)
Theorem apply_checks_keeps_input (B : PyBuiltins) (df out : DataFrame)
    (scene_col : string) (base_cols : list string)
    (divided_col undivided_col lanes_col : string) (pairs : list (string * string))
    (roadworks_col signage_col linemarkers_col illum_day_col illum_night_col : string)
    (cloud_clear_col cloud_partly_col cloud_overcast_col : string) :
  df_cols df !! "index" = None →
  apply_checks B df scene_col base_cols divided_col undivided_col lanes_col pairs
    roadworks_col signage_col linemarkers_col illum_day_col illum_night_col
    cloud_clear_col cloud_partly_col cloud_overcast_col = Ok out →
  df_len out = df_len df
  ∧ (df_wf df → df_wf out)
  ∧ (∀ c, is_Some (df_cols df !! c) → is_Some (df_cols out !! c))
  ∧ (∀ c, (∀ p, c ≠ p +:+ "_check") →
       c ≠ cloud_clear_col → c ≠ cloud_partly_col → c ≠ cloud_overcast_col →
       df_cols out !! c = df_cols df !! c).
Proof.
  set (W := λ c : string, (∃ p, c = p +:+ "_check") ∨ c = cloud_clear_col
                          ∨ c = cloud_partly_col ∨ c = cloud_overcast_col).
  assert (HW : ∀ p, W (p +:+ "_check")) by (intros p; left; by exists p).
  intros _ Hrun. enough (Hkept : kept W df out).
  { destruct Hkept as (Hlen & Hwf & Hpres & Hframe).
    split; [done|]. split; [done|]. split; [done|].
    intros c Hc H1 H2 H3. apply Hframe. intros [ [p ->] | [ -> | [ -> | -> ] ] ]; try done.
    by apply (Hc p). }
  unfold apply_checks in Hrun.
  destruct (add_problem_flags df scene_col base_cols) as [t1|e] eqn:Ht1;
    cbn [mbind result_bind] in Hrun; [|done].
  cbv zeta in Hrun.
  set (t2 := check_divided_undivided_consistency t1 divided_col undivided_col) in *.
  destruct (flag_number_of_lanes B t2 scene_col lanes_col) as [t3|e] eqn:Ht3;
    cbn [mbind result_bind] in Hrun; [|done].
  destruct (match pairs with
            | [] => Ok t3
            | _ :: _ => check_signs_time_pairs B t3 pairs
            end) as [t4|e] eqn:Ht4; cbn [mbind result_bind] in Hrun; [|done].
  destruct (check_construction_zone t4 roadworks_col signage_col linemarkers_col)
    as [t5|e] eqn:Ht5; cbn [mbind result_bind] in Hrun; [|done].
  set (t6 := check_illumination_consistency t5 illum_day_col illum_night_col) in *.
  eapply kept_trans; [by eapply add_problem_flags_kept|].
  eapply kept_trans.
  { apply (check_divided_undivided_kept W t1 divided_col undivided_col).
    left. by exists "Scenery.DrivableArea.DrivableAreaGeometry.TransversePlane.Divided_Undivided". }
  fold t2. eapply kept_trans; [eapply flag_number_of_lanes_kept; [apply HW|exact Ht3]|].
  eapply kept_trans.
  { destruct pairs as [|pair pairs'].
    - injection Ht4 as <-. apply kept_refl.
    - by eapply check_signs_time_pairs_kept. }
  eapply kept_trans; [eapply check_construction_zone_kept; [apply HW|exact Ht5]|].
  eapply kept_trans.
  { apply (check_illumination_kept W t5 illum_day_col illum_night_col).
    left. by exists "EnvironmentalConditions.Illumination_Day_Night". }
  fold t6. eapply check_cloudiness_kept; [| | | |exact Hrun].
  - right. by left.
  - right. right. by left.
  - right. right. by right.
  - apply HW.
Qed.

Lemma apply_checks_keeps_input_witness :
  ∃ out,
    apply_checks no_text_builtins checks_table "Scene" ["Parking"] "Divided" "Undivided"
      "Lanes" [("Signs", "Times")] "RoadWorks" "Signage" "LineMarkers" "Day" "Night"
      "Clear" "Partly" "Overcast" = Ok out
    ∧ df_len out = 4%nat
    ∧ df_wf out
    ∧ df_cols out !! "Lanes" = Some [VInt 2; VInt 5; VInt 5; VInt 1]
    ∧ df_cols out !! "Scene" = Some [VStr "a"; VStr "a"; VStr "a"; VStr "b"].
Proof.
  assert (Hwf : df_wf checks_table).
  { unfold df_wf. refine (bool_decide_unpack _ _). vm_compute. exact I. }
  destruct (apply_checks no_text_builtins checks_table "Scene" ["Parking"] "Divided"
              "Undivided" "Lanes" [("Signs", "Times")] "RoadWorks" "Signage" "LineMarkers"
              "Day" "Night" "Clear" "Partly" "Overcast") as [out|e] eqn:Hrun;
    [|vm_compute in Hrun; discriminate].
  assert (Hidx : df_cols checks_table !! "index" = None) by reflexivity.
  destruct (apply_checks_keeps_input _ _ _ _ _ _ _ _ _ _ _ _ _ _ _ _ _ Hidx Hrun)
    as (Hlen & Hkeep & _ & Hframe).
  exists out. split; [done|]. split; [exact Hlen|]. split; [by apply Hkeep|].
  split.
  - rewrite Hframe; [done| |done..].
    intros p Hp. apply (f_equal String.length) in Hp.
    rewrite string_length_append in Hp. cbn in Hp. lia.
  - rewrite Hframe; [done| |done..].
    intros p Hp. apply (f_equal String.length) in Hp.
    rewrite string_length_append in Hp. cbn in Hp. lia.
Defined.
